(** * GeometryDashGame: the physics, collision and state-machine loop of game.js

    A shallow embedding of the class [GeometryDashGame] of [src/game.js]
    and proofs of properties of its frame tick, its jump handling, its
    death / win transitions and its high-score store.

    Modelling conventions.
    - JavaScript numbers are doubles.  Every constant of the game (5, 0.8,
      -16, 0.35, the level coordinates) is a rational and the engine only
      adds, subtracts, multiplies and compares, so in the instance numbers
      are idealised as exact rationals ([Q]); rounding, infinities and NaN
      of positions are outside that model, and statements about velocities
      are made by the additions the code performs, not by their exact
      value.  The collision test is a function of its eight arguments
      alone and is also given on doubles ([Float64.checkCollision]), where
      rounding shows.  The results of [Math.floor] (distance, score) are
      integers ([Z]).  The one place where NaN matters in the instance,
      the value returned by [parseInt], has a type of its own ([num]).
    - The instance is one record ([Game.t]) passed through every method.
      The parts of the browser the methods talk to are fields of the same
      record: the canvas measurements, the local storage, the values that
      [Math.random] will return, and the log of calls made to the page and
      to the audio system ([effects]).
    - [console.log] / [console.warn] / [console.error] output and the
      drawing done by [render] are not modelled.
    - The source text of [update] declares [const logicalHeight] twice
      (lines 520 and 582), which a JavaScript engine rejects; that is a
      property of the text and is stated on a model of its declarations
      ([update_body]).  The behaviour of the methods is modelled as
      written, both declarations reading [this.canvas.offsetHeight || 600]. *)

From Stdlib Require Import ZArith QArith Qround Qabs Lqa Lia Bool List.
From Stdlib Require Import Ascii String DecimalString DecimalPos.
From Stdlib Require SpecFloat.
Import ListNotations.

Local Open Scope Q_scope.

(** ** Numbers *)

Definition Qltb (a b : Q) : bool := negb (Qle_bool b a).
Definition Qgeb (a b : Q) : bool := Qle_bool b a.
Definition Qgtb (a b : Q) : bool := negb (Qle_bool a b).

(** [Math.floor]. *)
Definition Math_floor (a : Q) : Z := Qfloor a.

(** The value of an integer-producing conversion: an integer or NaN. *)
Inductive num : Type :=
| Num (z : Z)
| NaN.

(** [a > b] for an integer [a] and a [num] [b]: false when [b] is NaN. *)
Definition gt_num (a : Z) (b : num) : bool :=
  match b with
  | Num z => (z <? a)%Z
  | NaN => false
  end.

(** ** Strings: [Number.prototype.toString] and [parseInt]

    Strings are sequences of 8-bit characters; the game only stores decimal
    digit strings. *)

Local Open Scope string_scope.

(** [score.toString()] for an integer: a minus sign for a negative number,
    then the decimal digits (exponent notation starts at 1e21, far above any
    score). *)
Definition toString (z : Z) : string := NilZero.string_of_int (Z.to_int z).

(** StrWhiteSpaceChar, restricted to 8-bit characters: TAB, LF, VT, FF, CR,
    SP and NBSP. *)
Definition isWhiteSpace (c : ascii) : bool :=
  let n := nat_of_ascii c in
  ((9 <=? n) && (n <=? 13) || (n =? 32) || (n =? 160))%nat.

Fixpoint trimStart (s : string) : string :=
  match s with
  | String c s' => if isWhiteSpace c then trimStart s' else s
  | EmptyString => s
  end.

Definition digitValue (c : ascii) : option Z :=
  let n := nat_of_ascii c in
  if ((48 <=? n) && (n <=? 57))%nat then Some (Z.of_nat (n - 48)) else None.

(** The longest prefix of decimal digits of [s], read with [acc] as the
    value of the digits already consumed; [seen] records whether a digit
    was consumed. *)
Fixpoint parseDigits (s : string) (seen : bool) (acc : Z) : option Z :=
  match s with
  | String c s' =>
      match digitValue c with
      | Some d => parseDigits s' true (acc * 10 + d)%Z
      | None => if seen then Some acc else None
      end
  | EmptyString => if seen then Some acc else None
  end.

(** [parseInt(s, 10)]: skip leading white space, read an optional sign, read
    the longest prefix of decimal digits; NaN when there is no digit. *)
Definition parseInt10 (s : string) : num :=
  let t := trimStart s in
  let '(sign, body) :=
    match t with
    | String "-" r => ((-1)%Z, r)
    | String "+" r => (1%Z, r)
    | _ => (1%Z, t)
    end in
  match parseDigits body false 0 with
  | Some v => Num (sign * v)
  | None => NaN
  end.

(** The value of a digit sequence read left to right from [acc]. *)
Fixpoint uintValue (d : Decimal.uint) (acc : Z) : Z :=
  match d with
  | Decimal.Nil => acc
  | Decimal.D0 l => uintValue l (acc * 10 + 0)
  | Decimal.D1 l => uintValue l (acc * 10 + 1)
  | Decimal.D2 l => uintValue l (acc * 10 + 2)
  | Decimal.D3 l => uintValue l (acc * 10 + 3)
  | Decimal.D4 l => uintValue l (acc * 10 + 4)
  | Decimal.D5 l => uintValue l (acc * 10 + 5)
  | Decimal.D6 l => uintValue l (acc * 10 + 6)
  | Decimal.D7 l => uintValue l (acc * 10 + 7)
  | Decimal.D8 l => uintValue l (acc * 10 + 8)
  | Decimal.D9 l => uintValue l (acc * 10 + 9)
  end%Z.

(** ** The browser's local storage *)

(** A statement either completes or throws. *)
Inductive completion (A : Type) : Type :=
| Normal (a : A)
| Throw.
Arguments Normal {A} a.
Arguments Throw {A}.

Module Storage.

(** The items of [localStorage], in insertion order, and whether
    reading and writing are allowed (a browser may refuse either: storage
    disabled, private mode, quota exceeded). *)
Record t : Type := mk {
  readable : bool;
  writable : bool;
  items : list (string * string)
}.

Fixpoint lookup (k : string) (l : list (string * string)) : option string :=
  match l with
  | [] => None
  | (k', v) :: l' => if String.eqb k k' then Some v else lookup k l'
  end.

Fixpoint replace (k v : string) (l : list (string * string))
  : list (string * string) :=
  match l with
  | [] => [(k, v)]
  | (k', v') :: l' =>
      if String.eqb k k' then (k, v) :: l' else (k', v') :: replace k v l'
  end.

Definition getItem (st : t) (k : string) : completion (option string) :=
  if readable st then Normal (lookup k (items st)) else Throw.

Definition setItem (st : t) (k v : string) : completion t :=
  if writable st
  then Normal (mk (readable st) (writable st) (replace k v (items st)))
  else Throw.

End Storage.

Definition highScoreKey : string := "geometryDashHighScore".

(** ** Data of the game *)

Inductive GameState : Type := Start | Playing | Dead | Win.

Definition GameState_eqb (a b : GameState) : bool :=
  match a, b with
  | Start, Start | Playing, Playing | Dead, Dead | Win, Win => true
  | _, _ => false
  end.


Module Canvas.
(** What the page reports about the canvas element: [offsetWidth] and
    [offsetHeight] (whole numbers of pixels, never negative) and the size
    of [getBoundingClientRect()]. *)
Record t : Type := mk {
  offsetWidth : N;
  offsetHeight : N;
  rectWidth : Q;
  rectHeight : Q
}.
End Canvas.

Module Player.
Record t : Type := mk {
  x : Q;
  y : Q;
  width : Q;
  height : Q;
  velocityY : Q;
  rotation : Q;
  rotationSpeed : Q;
  isJumping : bool;
  jumpStartTime : Q;
  color : string;
  groundY : Q
}.

Definition set_y (v : Q) (p : t) : t :=
  mk (x p) v (width p) (height p) (velocityY p) (rotation p)
     (rotationSpeed p) (isJumping p) (jumpStartTime p) (color p) (groundY p).
Definition set_velocityY (v : Q) (p : t) : t :=
  mk (x p) (y p) (width p) (height p) v (rotation p)
     (rotationSpeed p) (isJumping p) (jumpStartTime p) (color p) (groundY p).
Definition set_rotation (v : Q) (p : t) : t :=
  mk (x p) (y p) (width p) (height p) (velocityY p) v
     (rotationSpeed p) (isJumping p) (jumpStartTime p) (color p) (groundY p).
Definition set_rotationSpeed (v : Q) (p : t) : t :=
  mk (x p) (y p) (width p) (height p) (velocityY p) (rotation p)
     v (isJumping p) (jumpStartTime p) (color p) (groundY p).
Definition set_isJumping (v : bool) (p : t) : t :=
  mk (x p) (y p) (width p) (height p) (velocityY p) (rotation p)
     (rotationSpeed p) v (jumpStartTime p) (color p) (groundY p).
Definition set_groundY (v : Q) (p : t) : t :=
  mk (x p) (y p) (width p) (height p) (velocityY p) (rotation p)
     (rotationSpeed p) (isJumping p) (jumpStartTime p) (color p) v.
End Player.

Module Obstacle.
Record t : Type := mk {
  x : Q; y : Q; width : Q; height : Q; color : string
}.
End Obstacle.

(** Platforms and spikes: the code only reads their bounding box. *)
Module Rect.
Record t : Type := mk { x : Q; y : Q; width : Q; height : Q }.
End Rect.

Module Level.
Record t : Type := mk {
  width : Q;
  groundHeight : Q;
  obstacles : list Obstacle.t;
  platforms : list Rect.t;
  spikes : list Rect.t
}.
End Level.

Module Particle.
Record t : Type := mk {
  x : Q; y : Q; vx : Q; vy : Q;
  life : Q; maxLife : Q; size : Q; color : string
}.
End Particle.

Module Element.
Record t : Type := mk { x : Q; y : Q; size : Q; opacity : Q }.
End Element.

Module Layer.
Record t : Type := mk {
  speed : Q; color : string; elements : list Element.t
}.
End Layer.

(** The state of an [AudioContext]. *)
Inductive AudioState : Type := Suspended | Running.

(** Calls made to the page, the audio system and the storage. *)
Inductive effect : Type :=
| ResumeAudio
| StartBackgroundMusic
| PlayJumpSound
| PlayDeathSound
| HideStartScreen
| ShowGameOverScreen (distance : Z) (newHighScore : bool)
| HideGameOverScreen
| SetItem (key value : string)
| RetryResize.

(** The instance of [GeometryDashGame] and the part of the browser it uses. *)
Record Game : Type := mkGame {
  canvas : Canvas.t;
  gameState : GameState;
  cameraX : Q;
  player : Player.t;
  jumpHeld : bool;
  jumpHeldTime : Q;
  level : Level.t;
  parallaxLayers : list Layer.t;
  particles : list Particle.t;
  audioContext : option AudioState;
  audioContextReady : bool;
  score : Z;
  distance : Z;
  highScore : num;
  storage : Storage.t;
  entropy : nat -> Q;       (* the n-th value [Math.random] returns *)
  randomCalls : nat;        (* how many values were taken so far *)
  effects : list effect     (* most recent call first *)
}.

(** The constants set by the constructor and never assigned again. *)
Definition scrollSpeed : Q := 5.
Definition gravity : Q := 8 # 10.
Definition jumpPower : Q := -16.
Definition maxJumpHold : Q := 300.
Definition holdJumpBonus : Q := 35 # 100.

(** Field assignment, [this.f = v]. *)
Definition set_canvas (v : Canvas.t) (s : Game) : Game :=
  mkGame v (gameState s) (cameraX s) (player s) (jumpHeld s) (jumpHeldTime s)
    (level s) (parallaxLayers s) (particles s) (audioContext s)
    (audioContextReady s) (score s) (distance s) (highScore s) (storage s)
    (entropy s) (randomCalls s) (effects s).
Definition set_gameState (v : GameState) (s : Game) : Game :=
  mkGame (canvas s) v (cameraX s) (player s) (jumpHeld s) (jumpHeldTime s)
    (level s) (parallaxLayers s) (particles s) (audioContext s)
    (audioContextReady s) (score s) (distance s) (highScore s) (storage s)
    (entropy s) (randomCalls s) (effects s).
Definition set_cameraX (v : Q) (s : Game) : Game :=
  mkGame (canvas s) (gameState s) v (player s) (jumpHeld s) (jumpHeldTime s)
    (level s) (parallaxLayers s) (particles s) (audioContext s)
    (audioContextReady s) (score s) (distance s) (highScore s) (storage s)
    (entropy s) (randomCalls s) (effects s).
Definition set_player (v : Player.t) (s : Game) : Game :=
  mkGame (canvas s) (gameState s) (cameraX s) v (jumpHeld s) (jumpHeldTime s)
    (level s) (parallaxLayers s) (particles s) (audioContext s)
    (audioContextReady s) (score s) (distance s) (highScore s) (storage s)
    (entropy s) (randomCalls s) (effects s).
Definition set_jumpHeld (v : bool) (s : Game) : Game :=
  mkGame (canvas s) (gameState s) (cameraX s) (player s) v (jumpHeldTime s)
    (level s) (parallaxLayers s) (particles s) (audioContext s)
    (audioContextReady s) (score s) (distance s) (highScore s) (storage s)
    (entropy s) (randomCalls s) (effects s).
Definition set_jumpHeldTime (v : Q) (s : Game) : Game :=
  mkGame (canvas s) (gameState s) (cameraX s) (player s) (jumpHeld s) v
    (level s) (parallaxLayers s) (particles s) (audioContext s)
    (audioContextReady s) (score s) (distance s) (highScore s) (storage s)
    (entropy s) (randomCalls s) (effects s).
Definition set_level (v : Level.t) (s : Game) : Game :=
  mkGame (canvas s) (gameState s) (cameraX s) (player s) (jumpHeld s)
    (jumpHeldTime s) v (parallaxLayers s) (particles s) (audioContext s)
    (audioContextReady s) (score s) (distance s) (highScore s) (storage s)
    (entropy s) (randomCalls s) (effects s).
Definition set_parallaxLayers (v : list Layer.t) (s : Game) : Game :=
  mkGame (canvas s) (gameState s) (cameraX s) (player s) (jumpHeld s)
    (jumpHeldTime s) (level s) v (particles s) (audioContext s)
    (audioContextReady s) (score s) (distance s) (highScore s) (storage s)
    (entropy s) (randomCalls s) (effects s).
Definition set_particles (v : list Particle.t) (s : Game) : Game :=
  mkGame (canvas s) (gameState s) (cameraX s) (player s) (jumpHeld s)
    (jumpHeldTime s) (level s) (parallaxLayers s) v (audioContext s)
    (audioContextReady s) (score s) (distance s) (highScore s) (storage s)
    (entropy s) (randomCalls s) (effects s).
Definition set_audioContext (v : option AudioState) (s : Game) : Game :=
  mkGame (canvas s) (gameState s) (cameraX s) (player s) (jumpHeld s)
    (jumpHeldTime s) (level s) (parallaxLayers s) (particles s) v
    (audioContextReady s) (score s) (distance s) (highScore s) (storage s)
    (entropy s) (randomCalls s) (effects s).
Definition set_audioContextReady (v : bool) (s : Game) : Game :=
  mkGame (canvas s) (gameState s) (cameraX s) (player s) (jumpHeld s)
    (jumpHeldTime s) (level s) (parallaxLayers s) (particles s) (audioContext
    s) v (score s) (distance s) (highScore s) (storage s) (entropy s)
    (randomCalls s) (effects s).
Definition set_score (v : Z) (s : Game) : Game :=
  mkGame (canvas s) (gameState s) (cameraX s) (player s) (jumpHeld s)
    (jumpHeldTime s) (level s) (parallaxLayers s) (particles s) (audioContext
    s) (audioContextReady s) v (distance s) (highScore s) (storage s)
    (entropy s) (randomCalls s) (effects s).
Definition set_distance (v : Z) (s : Game) : Game :=
  mkGame (canvas s) (gameState s) (cameraX s) (player s) (jumpHeld s)
    (jumpHeldTime s) (level s) (parallaxLayers s) (particles s) (audioContext
    s) (audioContextReady s) (score s) v (highScore s) (storage s) (entropy
    s) (randomCalls s) (effects s).
Definition set_highScore (v : num) (s : Game) : Game :=
  mkGame (canvas s) (gameState s) (cameraX s) (player s) (jumpHeld s)
    (jumpHeldTime s) (level s) (parallaxLayers s) (particles s) (audioContext
    s) (audioContextReady s) (score s) (distance s) v (storage s) (entropy s)
    (randomCalls s) (effects s).
Definition set_storage (v : Storage.t) (s : Game) : Game :=
  mkGame (canvas s) (gameState s) (cameraX s) (player s) (jumpHeld s)
    (jumpHeldTime s) (level s) (parallaxLayers s) (particles s) (audioContext
    s) (audioContextReady s) (score s) (distance s) (highScore s) v (entropy
    s) (randomCalls s) (effects s).
Definition set_randomCalls (v : nat) (s : Game) : Game :=
  mkGame (canvas s) (gameState s) (cameraX s) (player s) (jumpHeld s)
    (jumpHeldTime s) (level s) (parallaxLayers s) (particles s) (audioContext
    s) (audioContextReady s) (score s) (distance s) (highScore s) (storage s)
    (entropy s) v (effects s).
Definition set_effects (v : list effect) (s : Game) : Game :=
  mkGame (canvas s) (gameState s) (cameraX s) (player s) (jumpHeld s)
    (jumpHeldTime s) (level s) (parallaxLayers s) (particles s) (audioContext
    s) (audioContextReady s) (score s) (distance s) (highScore s) (storage s)
    (entropy s) (randomCalls s) v.

Definition emit (e : effect) (s : Game) : Game :=
  set_effects (e :: effects s) s.

(** [Math.random()]: the next value of the stream. *)
Definition Math_random (s : Game) : Q * Game :=
  (entropy s (randomCalls s), set_randomCalls (S (randomCalls s)) s).

(** [this.canvas.offsetHeight || 600]: zero is falsy. *)
Definition logicalHeight (s : Game) : Q :=
  if (Canvas.offsetHeight (canvas s) =? 0)%N then 600
  else inject_Z (Z.of_N (Canvas.offsetHeight (canvas s))).

(** ** High score management (game.js, [loadHighScore] / [saveHighScore]) *)

(** [stored ? parseInt(stored, 10) : 0] inside [try], 0 in [catch]:
    [null] and the empty string are falsy. *)
Definition loadHighScoreFrom (st : Storage.t) : num :=
  match Storage.getItem st highScoreKey with
  | Normal (Some stored) =>
      if String.eqb stored "" then Num 0 else parseInt10 stored
  | Normal None => Num 0
  | Throw => Num 0
  end.

Definition loadHighScore (s : Game) : num := loadHighScoreFrom (storage s).

(** [localStorage.setItem(key, score.toString())] inside [try]; the [catch]
    only writes to the console. *)
Definition saveHighScore (sc : Z) (s : Game) : Game :=
  let s := emit (SetItem highScoreKey (toString sc)) s in
  match Storage.setItem (storage s) highScoreKey (toString sc) with
  | Normal st => set_storage st s
  | Throw => s
  end.

(** ** Collision test (game.js, [checkCollision])

    On exact numbers, as the tick uses it on the whole-number coordinates of
    the level. *)

Definition checkCollision (x1 y1 w1 h1 x2 y2 w2 h2 : Q) : bool :=
  Qltb x1 (x2 + w2) &&
  Qgtb (x1 + w1) x2 &&
  Qltb y1 (y2 + h2) &&
  Qgtb (y1 + h1) y2.

(** The same test on doubles.  The code computes the four sums in IEEE 754
    binary64 arithmetic, where a sum is rounded to the nearest double
    (ties to even); [+] and [<] are the standard library's specification
    of that arithmetic ([SpecFloat]).  [a > b] is [b < a]; a comparison
    with NaN is false. *)
Module Float64.

Definition t : Type := SpecFloat.spec_float.
Definition prec : Z := 53.
Definition emax : Z := 1024.

Definition add (a b : t) : t := SpecFloat.SFadd prec emax a b.
Definition lt (a b : t) : bool := SpecFloat.SFltb a b.
Definition gt (a b : t) : bool := SpecFloat.SFltb b a.

Definition checkCollision (x1 y1 w1 h1 x2 y2 w2 h2 : t) : bool :=
  lt x1 (add x2 w2) &&
  gt (add x1 w1) x2 &&
  lt y1 (add y2 h2) &&
  gt (add y1 h1) y2.

(** A double that is a number of the format: a zero, or a mantissa and an
    exponent within the bounds of binary64; not an infinity, not NaN. *)
Definition number (a : t) : bool :=
  match a with
  | SpecFloat.S754_zero _ => true
  | SpecFloat.S754_finite _ m e => SpecFloat.bounded prec emax m e
  | _ => false
  end.

(** The rational a number stands for: [+-m * 2^e]. *)
Definition toQ (a : t) : Q :=
  match a with
  | SpecFloat.S754_finite s m e =>
      let z := if s then Zneg m else Zpos m in
      match e with
      | Zneg p => z # (2 ^ p)
      | _ => inject_Z (z * 2 ^ e)
      end
  | _ => 0
  end.

(** The same multiplied by [2^1074], a whole number for every number of
    the format. *)
Definition scaled (a : t) : Z :=
  match a with
  | SpecFloat.S754_finite s m e =>
      ((if s then Zneg m else Zpos m) * 2 ^ (e + 1074))%Z
  | _ => 0%Z
  end.

(** The sum [a + b] is computed without rounding. *)
Definition exactSum (a b : t) : Prop :=
  number (add a b) = true /\ toQ (add a b) == toQ a + toQ b.

(** A rectangle whose far edges [x + w] and [y + h] are computed without
    rounding. *)
Definition exactRect (x y w h : t) : Prop :=
  number x = true /\ number y = true /\ exactSum x w /\ exactSum y h.

(** The double of a whole number. *)
Definition ofZ (z : Z) : t := SpecFloat.binary_normalize prec emax z 0 false.

(** [2^-53], half the distance from 1 to the next double. *)
Definition halfUlp : t := SpecFloat.S754_finite false 4503599627370496 (-105).

End Float64.

(** ** Audio (game.js, [initAudio] .. [playDeathSound])

    Each sound method returns at once unless there is an audio context and
    it is ready; what it then plays is recorded as one call. *)

Definition audioUsable (s : Game) : bool :=
  match audioContext s with
  | Some _ => audioContextReady s
  | None => false
  end.

Definition startBackgroundMusic (s : Game) : Game :=
  if negb (audioUsable s) then s
  else match gameState s with
       | Playing | Start => emit StartBackgroundMusic s
       | _ => s
       end.

Definition playJumpSound (s : Game) : Game :=
  if negb (audioUsable s) then s else emit PlayJumpSound s.

Definition playDeathSound (s : Game) : Game :=
  if negb (audioUsable s) then s else emit PlayDeathSound s.

(** [resumeAudioContext] asks a suspended context to resume; the
    continuation of the promise is [audioResumed]. *)
Definition resumeAudioContext (s : Game) : Game :=
  match audioContext s with
  | Some Suspended => emit ResumeAudio s
  | _ => s
  end.

Definition audioResumed (s : Game) : Game :=
  match audioContext s with
  | Some _ =>
      let s := set_audioContext (Some Running) s in
      let s := set_audioContextReady true s in
      match gameState s with
      | Playing => startBackgroundMusic s
      | _ => s
      end
  | None => s
  end.

(** ** Page helpers *)

Definition hideStartScreen (s : Game) : Game := emit HideStartScreen s.

Definition showGameOverScreen (s : Game) : Game :=
  emit (ShowGameOverScreen (distance s)
          (gt_num (score s) (loadHighScore s))) s.

Definition hideGameOverScreen (s : Game) : Game := emit HideGameOverScreen s.

(** ** Start, death, win, restart *)

Definition startGame (s : Game) : Game :=
  if GameState_eqb (gameState s) Playing then s
  else
    let s := set_gameState Playing s in
    let s := set_cameraX 0 s in
    let s := set_player (Player.set_y (Player.groundY (player s)) (player s)) s in
    let s := set_player (Player.set_velocityY 0 (player s)) s in
    let s := set_player (Player.set_isJumping false (player s)) s in
    let s := set_player (Player.set_rotation 0 (player s)) s in
    let s := set_score 0%Z s in
    let s := set_distance 0%Z s in
    let s := set_particles [] s in
    let s := startBackgroundMusic s in
    hideStartScreen s.

(** One death particle; the three random values are drawn in the order of
    the object literal: [vx], [vy], [size]. *)
Definition pushDeathParticle (s : Game) : Game :=
  let p := player s in
  let '(r1, s) := Math_random s in
  let '(r2, s) := Math_random s in
  let '(r3, s) := Math_random s in
  set_particles
    (particles s ++
     [Particle.mk (Player.x p + Player.width p / 2)
                  (Player.y p + Player.height p / 2)
                  ((r1 - (1 # 2)) * 10) ((r2 - (1 # 2)) * 10)
                  30 30 (5 + r3 * 5) "#ffffff"]) s.

(** A counted loop, [for (let i = 0; i < n; i++) body]. *)
Fixpoint iterate {A : Type} (n : nat) (f : A -> A) (a : A) : A :=
  match n with
  | O => a
  | S n' => iterate n' f (f a)
  end.

(** The high-score check shared by [die] and [win]. *)
Definition checkHighScore (s : Game) : Game :=
  if gt_num (score s) (highScore s) then
    let s := set_highScore (Num (score s)) s in
    saveHighScore (score s) s
  else s.

Definition die (s : Game) : Game :=
  if GameState_eqb (gameState s) Dead then s
  else
    let s := set_gameState Dead s in
    let s := playDeathSound s in
    let s := iterate 20 pushDeathParticle s in
    let s := checkHighScore s in
    showGameOverScreen s.

Definition win (s : Game) : Game :=
  let s := set_gameState Win s in
  checkHighScore s.

Definition restart (s : Game) : Game :=
  hideGameOverScreen (startGame s).

(** ** Jump handling (game.js, [handleJumpStart], [handleJumpEnd],
    [isOnGround]) *)

Definition Qabs_lt (a b : Q) : bool := Qltb (Qabs a) b.

Definition onPlatform (s : Game) (platform : Rect.t) : bool :=
  let p := player s in
  let platformScreenX := Rect.x platform - cameraX s in
  Qltb platformScreenX (Player.x p + Player.width p) &&
  Qgtb (platformScreenX + Rect.width platform) (Player.x p) &&
  Qabs_lt ((Player.y p + Player.height p) - Rect.y platform) 5 &&
  Qgeb (Player.velocityY p) 0.

Definition isOnGround (s : Game) : bool :=
  let p := player s in
  if Qgeb (Player.y p + Player.height p) (Player.groundY p - 2) then true
  else existsb (onPlatform s) (Level.platforms (level s)).

Definition handleJumpStart (s : Game) : Game :=
  let s := if negb (audioContextReady s) &&
              match audioContext s with Some _ => true | None => false end
           then resumeAudioContext s else s in
  match gameState s with
  | Start => startGame s
  | Dead => restart s
  | Win => s
  | Playing =>
      if negb (Player.isJumping (player s)) && isOnGround s then
        let s := set_player (Player.set_velocityY jumpPower (player s)) s in
        let s := set_player (Player.set_isJumping true (player s)) s in
        let s := set_jumpHeld true s in
        let s := set_jumpHeldTime 0 s in
        let s := set_player (Player.set_rotationSpeed 15 (player s)) s in
        playJumpSound s
      else if Player.isJumping (player s) && jumpHeld s then
        let s := set_jumpHeldTime (jumpHeldTime s + 1) s in
        if Qltb (jumpHeldTime s) (maxJumpHold / 16) then
          set_player
            (Player.set_velocityY
               (Player.velocityY (player s) + holdJumpBonus) (player s)) s
        else s
      else s
  end.

Definition handleJumpEnd (s : Game) : Game :=
  set_jumpHeldTime 0 (set_jumpHeld false s).

(** ** The frame tick (game.js, [update]) *)

(** Camera auto-scroll, then distance and score. *)
Definition advanceCamera (s : Game) : Game :=
  let s := set_cameraX (cameraX s + scrollSpeed) s in
  let s := set_distance (Math_floor (cameraX s / 10)) s in
  set_score (distance s) s.

(** Gravity, then position. *)
Definition integrate (s : Game) : Game :=
  let s := set_player
             (Player.set_velocityY
                (Player.velocityY (player s) + gravity) (player s)) s in
  set_player
    (Player.set_y (Player.y (player s) + Player.velocityY (player s))
       (player s)) s.

Definition wrap360 (r : Q) : Q := if Qgeb r 360 then r - 360 else r.

Definition rotate (s : Game) : Game :=
  let p := player s in
  if Player.isJumping p then
    set_player
      (Player.set_rotation
         (wrap360 (Player.rotation p + Player.rotationSpeed p)) p) s
  else
    set_player (Player.set_rotation (wrap360 (Player.rotation p + 5)) p) s.

(** Put the player at rest at height [y]: the four assignments shared by
    the ground and the platform landing. *)
Definition land (y : Q) (p : Player.t) : Player.t :=
  Player.set_rotationSpeed 0
    (Player.set_isJumping false (Player.set_velocityY 0 (Player.set_y y p))).

Definition groundCollision (s : Game) : Game :=
  let p := player s in
  if Qgeb (Player.y p + Player.height p) (Player.groundY p)
  then set_player (land (Player.groundY p) p) s
  else s.

(** One iteration of the platform loop. *)
Definition platformCollision (s : Game) (platform : Rect.t) : Game :=
  let p := player s in
  let platformScreenX := Rect.x platform - cameraX s in
  if Qltb platformScreenX (Player.x p + Player.width p) &&
     Qgtb (platformScreenX + Rect.width platform) (Player.x p) &&
     Qgtb (Player.y p + Player.height p) (Rect.y platform) &&
     Qltb (Player.y p) (Rect.y platform + Rect.height platform) &&
     Qgtb (Player.velocityY p) 0
  then
    if Qle_bool (Player.y p + Player.height p) (Rect.y platform + 10)
    then set_player (land (Rect.y platform - Player.height p) p) s
    else s
  else s.

Definition platformCollisions (s : Game) : Game :=
  fold_left platformCollision (Level.platforms (level s)) s.

Definition ceilingCollision (s : Game) : Game :=
  let p := player s in
  if Qltb (Player.y p) 0
  then set_player (Player.set_velocityY 0 (Player.set_y 0 p)) s
  else s.

Definition hitsObstacle (s : Game) (obstacle : Obstacle.t) : bool :=
  let p := player s in
  let obstacleScreenX := Obstacle.x obstacle - cameraX s in
  checkCollision (Player.x p) (Player.y p) (Player.width p) (Player.height p)
    obstacleScreenX (Obstacle.y obstacle)
    (Obstacle.width obstacle) (Obstacle.height obstacle).

Definition hitsSpike (s : Game) (spike : Rect.t) : bool :=
  let p := player s in
  let spikeScreenX := Rect.x spike - cameraX s in
  checkCollision (Player.x p) (Player.y p) (Player.width p) (Player.height p)
    spikeScreenX (Rect.y spike) (Rect.width spike) (Rect.height spike).

(** [this.player.y > logicalHeight]. *)
Definition fellOffScreen (s : Game) : bool :=
  Qgtb (Player.y (player s)) (logicalHeight s).

(** [this.cameraX >= this.level.width]. *)
Definition reachedEnd (s : Game) : bool :=
  Qgeb (cameraX s) (Level.width (level s)).

(** *** Particles *)

Definition pushTrailParticle (s : Game) : Game :=
  let p := player s in
  let '(r1, s) := Math_random s in
  let '(r2, s) := Math_random s in
  let '(r3, s) := Math_random s in
  set_particles
    (particles s ++
     [Particle.mk (Player.x p + Player.width p / 2)
                  (Player.y p + Player.height p / 2)
                  ((r1 - (1 # 2)) * 2) ((r2 - (1 # 2)) * 2)
                  20 20 (3 + r3 * 3) (Player.color p)]) s.

Definition ageParticle (q : Particle.t) : Particle.t :=
  Particle.mk (Particle.x q + Particle.vx q) (Particle.y q + Particle.vy q)
    (Particle.vx q * (95 # 100)) (Particle.vy q * (95 # 100))
    (Particle.life q - 1) (Particle.maxLife q)
    (Particle.size q) (Particle.color q).

Definition alive (q : Particle.t) : bool := Qgtb (Particle.life q) 0.

Definition updateParticles (s : Game) : Game :=
  let s := if GameState_eqb (gameState s) Playing
           then pushTrailParticle s else s in
  let s := set_particles (filter alive (map ageParticle (particles s))) s in
  if (50 <? List.length (particles s))%nat
  then set_particles
         (skipn (List.length (particles s) - 50) (particles s)) s
  else s.

(** *** Parallax *)

Fixpoint updateElements (speed : Q) (es : list Element.t) (s : Game)
  : list Element.t * Game :=
  match es with
  | [] => ([], s)
  | e :: es' =>
      let x1 := Element.x e - scrollSpeed * speed in
      let '(x2, s1) :=
        if Qltb (x1 + Element.size e) (- cameraX s)
        then let '(r, s1) := Math_random s in
             (Level.width (level s) + r * 500, s1)
        else (x1, s) in
      let '(rest, s2) := updateElements speed es' s1 in
      (Element.mk x2 (Element.y e) (Element.size e) (Element.opacity e)
         :: rest, s2)
  end.

Fixpoint updateLayers (ls : list Layer.t) (s : Game)
  : list Layer.t * Game :=
  match ls with
  | [] => ([], s)
  | l :: ls' =>
      let '(es, s1) := updateElements (Layer.speed l) (Layer.elements l) s in
      let '(rest, s2) := updateLayers ls' s1 in
      (Layer.mk (Layer.speed l) (Layer.color l) es :: rest, s2)
  end.

Definition updateParallax (s : Game) : Game :=
  let '(ls, s') := updateLayers (parallaxLayers s) s in
  set_parallaxLayers ls s'.

(** *** The tick

    The source declares [logicalHeight] a second time before the fall
    test (see [update_body] below); both declarations read
    [this.canvas.offsetHeight || 600], which the tick itself never
    changes, so the model reads it through [logicalHeight]. *)

(** Steps up to and including the ceiling clamp. *)
Definition movePlayer (s : Game) : Game :=
  ceilingCollision
    (platformCollisions (groundCollision (rotate (integrate s)))).

Definition update (s : Game) : Game :=
  if negb (GameState_eqb (gameState s) Playing) then s
  else
    let s := advanceCamera s in
    let s := movePlayer s in
    if existsb (hitsObstacle s) (Level.obstacles (level s)) then die s
    else if existsb (hitsSpike s) (Level.spikes (level s)) then die s
    else if fellOffScreen s then die s
    else if reachedEnd s then win s
    else updateParallax (updateParticles s).

(** ** Level construction (game.js, [createLevel]) *)

Definition Qnat (i : nat) : Q := inject_Z (Z.of_nat i).

(** [for (let i = 0; i < n; i++) this.level.obstacles.push(f i)]. *)
Definition pushObstacles (n : nat) (f : nat -> Obstacle.t) (l : Level.t)
  : Level.t :=
  Level.mk (Level.width l) (Level.groundHeight l)
    (Level.obstacles l ++ map f (seq 0 n))
    (Level.platforms l) (Level.spikes l).

Definition set_levelWidth (w : Q) (l : Level.t) : Level.t :=
  Level.mk w (Level.groundHeight l) (Level.obstacles l)
    (Level.platforms l) (Level.spikes l).

Definition createLevel (s : Game) : Game :=
  let logicalHeight := logicalHeight s in
  let groundY := logicalHeight - Level.groundHeight (level s) in
  let s := set_player
             (Player.set_groundY (groundY - Player.height (player s))
                (player s)) s in
  let s := set_player
             (Player.set_y (Player.groundY (player s)) (player s)) s in
  let x := 500 in
  (* Section 1: easy warm-up *)
  let s := set_level
    (pushObstacles 4 (fun i =>
       Obstacle.mk (x + Qnat i * 120) (groundY - 25) 35 25 "#d0d0d0")
       (level s)) s in
  let x := x + 480 in
  (* Section 2: jumpable blocks *)
  let s := set_level
    (pushObstacles 5 (fun i =>
       Obstacle.mk (x + Qnat i * 100) (groundY - 30) 40 30 "#b0b0b0")
       (level s)) s in
  let x := x + 500 in
  (* Section 3: alternating pattern *)
  let s := set_level
    (pushObstacles 6 (fun i =>
       Obstacle.mk (x + Qnat i * 90)
         (groundY - (if (i mod 2 =? 0)%nat then 25 else 35)) 35
         (if (i mod 2 =? 0)%nat then 25 else 35) "#909090")
       (level s)) s in
  let x := x + 540 in
  (* Section 4: spaced blocks *)
  let s := set_level
    (pushObstacles 8 (fun i =>
       Obstacle.mk (x + Qnat i * 80) (groundY - 30) 30 30 "#c0c0c0")
       (level s)) s in
  let x := x + 640 in
  (* Section 5: mixed small blocks *)
  let s := set_level
    (pushObstacles 7 (fun i =>
       let height := 20 + Qnat (i mod 3) * 10 in
       Obstacle.mk (x + Qnat i * 85) (groundY - height) 35 height "#a0a0a0")
       (level s)) s in
  let x := x + 595 in
  (* Section 6: final sequence *)
  let s := set_level
    (pushObstacles 10 (fun i =>
       Obstacle.mk (x + Qnat i * 70) (groundY - 28) 32 28 "#e0e0e0")
       (level s)) s in
  let x := x + 700 in
  (* Section 7: victory zone, no obstacles *)
  set_level (set_levelWidth (x + 300) (level s)) s.

(** ** Parallax construction (game.js, [initParallax]) *)

Definition pushElement (layerIndex : nat) (acc : list Element.t * Game)
  : list Element.t * Game :=
  let '(es, s) := acc in
  let '(r1, s) := Math_random s in
  let '(r2, s) := Math_random s in
  let '(r3, s) := Math_random s in
  ((es ++ [Element.mk (r1 * Level.width (level s))
             (r2 * (logicalHeight s - Level.groundHeight (level s)))
             (20 + r3 * 40)
             ((1 # 10) + Qnat layerIndex * (1 # 10))])%list, s).

Fixpoint initLayers (layerIndex : nat) (ls : list Layer.t) (s : Game)
  : list Layer.t * Game :=
  match ls with
  | [] => ([], s)
  | l :: ls' =>
      let elementCount := (15 + layerIndex * 5)%nat in
      let '(es, s1) := iterate elementCount (pushElement layerIndex) ([], s) in
      let '(rest, s2) := initLayers (S layerIndex) ls' s1 in
      (Layer.mk (Layer.speed l) (Layer.color l) es :: rest, s2)
  end.

Definition initParallax (s : Game) : Game :=
  let '(ls, s') := initLayers 0 (parallaxLayers s) s in
  set_parallaxLayers ls s'.

(** ** Canvas size (game.js, [resizeCanvas])

    The backing-store size and the device pixel ratio only matter to the
    drawing and are left out. *)

(** [rect.width || offsetWidth], [rect.height || offsetHeight], and the
    defaults 1200 x 600 with a retry when either is still zero. *)
Definition measure (s : Game) : Q * Q * Game :=
  let c := canvas s in
  let width := if Qeq_bool (Canvas.rectWidth c) 0
               then inject_Z (Z.of_N (Canvas.offsetWidth c))
               else Canvas.rectWidth c in
  let height := if Qeq_bool (Canvas.rectHeight c) 0
                then inject_Z (Z.of_N (Canvas.offsetHeight c))
                else Canvas.rectHeight c in
  if Qeq_bool width 0 || Qeq_bool height 0
  then (1200, 600, emit RetryResize s)
  else (width, height, s).

(** [resizeCanvas] once [this.level] exists. *)
Definition resizeCanvas (s : Game) : Game :=
  let '(_, height, s) := measure s in
  let groundY := height - Level.groundHeight (level s) in
  let s := set_player
             (Player.set_groundY (groundY - Player.height (player s))
                (player s)) s in
  match gameState s with
  | Start | Dead =>
      set_player (Player.set_y (Player.groundY (player s)) (player s)) s
  | _ => s
  end.

(** ** Construction (game.js, [constructor], [initAudio]) *)

Definition initAudio (audio : option AudioState) (s : Game) : Game :=
  let s := set_audioContext audio s in
  match audio with
  | Some Running => set_audioContextReady true s
  | _ => set_audioContextReady false s
  end.

(** [new GeometryDashGame(canvas)].  [audio] is the state of the audio
    context the browser hands out, [None] when creating one throws.  The
    first [resizeCanvas] runs before [this.level] is assigned and so only
    measures; the first [gameLoop] call ticks once (the page is visible or
    not, [hidden]). *)
Definition construct (c : Canvas.t) (st : Storage.t)
    (audio : option AudioState) (rnd : nat -> Q) (hidden : bool) : Game :=
  let s :=
    mkGame c Start 0
      (Player.mk 100 0 30 30 0 0 0 false 0 "#ffffff" 0)
      false 0
      (Level.mk 8000 50 [] [] [])
      [Layer.mk (2 # 10) "#2a2a2a" [];
       Layer.mk (5 # 10) "#3a3a3a" [];
       Layer.mk 1 "#4a4a4a" []]
      [] None false 0%Z 0%Z (Num 0) st rnd 0 [] in
  let '(_, _, s) := measure s in
  let s := set_highScore (loadHighScore s) s in
  let s := createLevel s in
  let s := initParallax s in
  let s := initAudio audio s in
  if hidden then s else update s.

(** ** What happens to an instance *)

Inductive input : Type :=
| Frame (hidden : bool)        (* an animation frame *)
| JumpKeyDown                  (* space pressed, or touch start *)
| JumpKeyUp                    (* space released, mouse up, touch end *)
| MouseDown                    (* mouse pressed on the canvas *)
| StartButton                  (* the page's start button, or a canvas click *)
| RestartButton                (* the page's restart button *)
| Resize (c : Canvas.t)        (* window resize or resize retry *)
| AudioResumed.                (* the audio context has resumed *)

Definition handle (i : input) (s : Game) : Game :=
  match i with
  | Frame hidden => if hidden then s else update s
  | JumpKeyDown => handleJumpStart s
  | JumpKeyUp => handleJumpEnd s
  | MouseDown =>
      match gameState s with
      | Start => startGame s
      | _ => handleJumpStart s
      end
  | StartButton => startGame s
  | RestartButton => restart s
  | Resize c => resizeCanvas (set_canvas c s)
  | AudioResumed => audioResumed s
  end.

Inductive reachable : Game -> Prop :=
| reachable_construct c st audio rnd hidden :
    reachable (construct c st audio rnd hidden)
| reachable_handle i s :
    reachable s -> reachable (handle i s).

Definition run (inputs : list input) (s : Game) : Game :=
  fold_left (fun s i => handle i s) inputs s.

(** ** Auxiliary notions used in the statements *)

(** The open rectangles [(x, x + w) x (y, y + h)] share a point. *)
Definition overlap (x1 y1 w1 h1 x2 y2 w2 h2 : Q) : Prop :=
  exists px py : Q,
    (x1 < px /\ px < x1 + w1) /\ (y1 < py /\ py < y1 + h1) /\
    (x2 < px /\ px < x2 + w2) /\ (y2 < py /\ py < y2 + h2).

(** What the rest of a tick leaves alone once the camera has advanced. *)
Definition tickStable (s s' : Game) : Prop :=
  cameraX s' = cameraX s /\ distance s' = distance s /\ score s' = score s.

(** What no method changes after construction. *)
Definition samePlayerSize (p p' : Player.t) : Prop :=
  Player.x p' = Player.x p /\ Player.width p' = Player.width p /\
  Player.height p' = Player.height p.

Definition fixed (s s' : Game) : Prop :=
  level s' = level s /\ samePlayerSize (player s) (player s') /\
  entropy s' = entropy s /\
  Storage.readable (storage s') = Storage.readable (storage s) /\
  Storage.writable (storage s') = Storage.writable (storage s).

(** The high score and the storage are the same. *)
Definition sameStore (s s' : Game) : Prop :=
  highScore s' = highScore s /\ storage s' = storage s.

(** The remembered high score is the one in the storage. *)
Definition coherent (s : Game) : Prop :=
  highScore s = loadHighScoreFrom (storage s).

(** The values the game asked the storage to keep, most recent first. *)
Definition attemptedWrites (s : Game) : list string :=
  flat_map (fun e => match e with SetItem _ v => [v] | _ => [] end)
    (effects s).

(** What the high-score check of [die] and [win] must have done when it
    takes the instance from [s] to [s']. *)
Definition committed (s s' : Game) : Prop :=
  (gt_num (score s) (highScore s) = true ->
     highScore s' = Num (score s) /\
     attemptedWrites s' = toString (score s) :: attemptedWrites s /\
     (Storage.writable (storage s) = true ->
        Storage.lookup highScoreKey (Storage.items (storage s'))
        = Some (toString (score s)))) /\
  (gt_num (score s) (highScore s) = false ->
     highScore s' = highScore s /\ storage s' = storage s /\
     attemptedWrites s' = attemptedWrites s) /\
  (reachable s ->
   Storage.readable (storage s) = true ->
   Storage.writable (storage s) = true ->
     highScore s = loadHighScoreFrom (storage s) /\
     forall h, loadHighScoreFrom (storage s) = Num h ->
               loadHighScoreFrom (storage s') = Num (Z.max h (score s))).

(** As long as the storage can be read and written, the remembered high
    score is the stored one. *)
Definition storeInvariant (s : Game) : Prop :=
  Storage.readable (storage s) = true ->
  Storage.writable (storage s) = true -> coherent s.

(** The fields the high-score check reads or writes. *)
Definition sameCommit (s s' : Game) : Prop :=
  score s' = score s /\ sameStore s s' /\
  attemptedWrites s' = attemptedWrites s.

(** ** The declarations of the source text

    The shape of a method body as far as block scopes go: which [const] and
    [let] declarations sit directly in which statement list, with the line
    of the source each one is on. *)

Inductive declKind : Type := Const | Let.

#[local] Set Warnings "-register-all".

Inductive stmt : Type :=
| Decl (k : declKind) (name : string) (line : nat)
| Simple (line : nat)                    (* expression statement, return *)
| If (line : nat) (thenBlock elseBlock : list stmt)
| ForOf (line : nat) (k : declKind) (name : string) (body : list stmt)
| For (line : nat) (k : declKind) (name : string) (body : list stmt).

(** The lexically declared names of a statement list: the declarations
    that are directly in it, not those of nested blocks. *)
Definition declared (body : list stmt) : list (string * nat) :=
  flat_map (fun st => match st with
                      | Decl _ n l => [(n, l)]
                      | _ => []
                      end) body.

(** The names declared twice, with the lines of both declarations. *)
Fixpoint clashes (ds : list (string * nat)) : list (string * nat * nat) :=
  match ds with
  | [] => []
  | (n, l) :: r =>
      (map (fun d => (n, l, snd d))
           (filter (fun d => String.eqb n (fst d)) r) ++ clashes r)%list
  end.

(** Early errors: a statement list whose lexically declared names contain
    a duplicate is a SyntaxError; every nested block is a statement list of
    its own.  The variable of a loop head lives in a scope around the
    body. *)
Fixpoint earlyErrors (st : stmt) : list (string * nat * nat) :=
  match st with
  | Decl _ _ _ | Simple _ => []
  | If _ a b =>
      (clashes (declared a) ++ flat_map earlyErrors a ++
       clashes (declared b) ++ flat_map earlyErrors b)%list
  | ForOf _ _ _ body | For _ _ _ body =>
      (clashes (declared body) ++ flat_map earlyErrors body)%list
  end.

Definition functionErrors (body : list stmt) : list (string * nat * nat) :=
  (clashes (declared body) ++ flat_map earlyErrors body)%list.

(** [handleJumpStart], lines 422-455. *)
Definition handleJumpStart_body : list stmt :=
  [ If 424 [Simple 425] [];
    If 428 [Simple 429; Simple 430] [];
    If 433 [Simple 434; Simple 435] [];
    If 438 [Simple 438] [];
    If 440
      [Simple 442; Simple 443; Simple 444; Simple 445; Simple 446; Simple 447]
      [If 448 [Simple 450; If 451 [Simple 452] []] []] ].

(** [update], lines 493-599. *)
Definition update_body : list stmt :=
  [ If 494 [Simple 494] [];
    Simple 497; Simple 498; Simple 499;
    Simple 502; Simple 503;
    If 506 [Simple 507; If 508 [Simple 509] []]
           [Simple 513; If 514 [Simple 515] []];
    Decl Const "logicalHeight" 520;
    Decl Const "groundY" 521;
    If 522 [Simple 523; Simple 524; Simple 525; Simple 526] [];
    ForOf 530 Const "platform"
      [ Decl Const "platformScreenX" 531;
        If 533 [If 540 [Simple 541; Simple 542; Simple 543; Simple 544] []]
               [] ];
    If 550 [Simple 551; Simple 552] [];
    ForOf 556 Const "obstacle"
      [ Decl Const "obstacleScreenX" 557;
        If 559 [Simple 563; Simple 564] [] ];
    ForOf 569 Const "spike"
      [ Decl Const "spikeScreenX" 570;
        If 572 [Simple 576; Simple 577] [] ];
    Decl Const "logicalHeight" 582;
    If 583 [Simple 584; Simple 585] [];
    If 589 [Simple 590; Simple 591] [];
    Simple 595;
    Simple 598 ].

(** [startGame], lines 946-962. *)
Definition startGame_body : list stmt :=
  [ If 947 [Simple 947] [];
    Simple 949; Simple 950; Simple 951; Simple 952; Simple 953; Simple 954;
    Simple 955; Simple 956; Simple 957; Simple 958; Simple 959; Simple 960;
    Simple 961 ].

(** [die], lines 967-994. *)
Definition die_body : list stmt :=
  [ If 968 [Simple 968] [];
    Simple 970; Simple 971;
    For 974 Let "i" [Simple 975];
    If 988 [Simple 989; Simple 990] [];
    Simple 993 ].

(** [win], lines 999-1005. *)
Definition win_body : list stmt :=
  [ Simple 1000; If 1001 [Simple 1002; Simple 1003] [] ].

(** The operations of the engine as methods of the class. *)
Definition methods : list (string * list stmt) :=
  [ ("handleJumpStart", handleJumpStart_body);
    ("update", update_body);
    ("startGame", startGame_body);
    ("die", die_body);
    ("win", win_body) ].

Definition scriptErrors : list (string * nat * nat) :=
  flat_map (fun m => functionErrors (snd m)) methods.

(** A script with an early error is rejected as a whole before any
    statement of it runs, so the class is never defined and none of its
    methods can be called. *)
Definition callable (name : string) : bool :=
  match scriptErrors with
  | [] => existsb (String.eqb name) (map fst methods)
  | _ :: _ => false
  end.

(** The obstacle ends at or left of the world column [limit]. *)
Definition endsBefore (limit : Q) (o : Obstacle.t) : bool :=
  Qle_bool (Obstacle.x o + Obstacle.width o) limit.

(** ** Sample instances *)

Definition sampleCanvas : Canvas.t := Canvas.mk 1200 600 1200 600.
Definition emptyStorage : Storage.t := Storage.mk true true [].

(** A new instance on a 1200 x 600 canvas, and the same after the start
    button. *)
Definition fresh : Game :=
  construct sampleCanvas emptyStorage (Some Suspended) (fun _ => 1 # 2) false.
Definition running : Game := startGame fresh.

(** The instance after a crash. *)
Definition crashed : Game := die running.

(** Twenty ticks into a run: the camera is at 100, the score is 10. *)
Definition midRun : Game := iterate 20 (handle (Frame false)) running.

(** A level that ends on an obstacle, just before the tick that reaches
    its end: after the tick's advance the camera is at 100, the level's
    width, and the obstacle spans the screen columns 100 to 135, over the
    player's 100 to 130. *)
Definition blockedEnd : Game :=
  set_cameraX 95
    (set_level (Level.mk 100 50 [Obstacle.mk 200 525 35 25 "#d0d0d0"] [] [])
       running).

(** The authored level one tick before its end. *)
Definition lastTick : Game := set_cameraX 4250 running.

(** A storage whose high-score item is not a number. *)
Definition corruptedStorage : Storage.t :=
  Storage.mk true true [(highScoreKey, "abc")].

(** The instance the constructor has when it calls [createLevel]: the
    initial fields, the storage's high score, possibly a resize retry in
    the call log. *)
Definition beforeLevel (c : Canvas.t) (st : Storage.t) (rnd : nat -> Q)
    (es : list effect) : Game :=
  mkGame c Start 0
    (Player.mk 100 0 30 30 0 0 0 false 0 "#ffffff" 0)
    false 0
    (Level.mk 8000 50 [] [] [])
    [Layer.mk (2 # 10) "#2a2a2a" [];
     Layer.mk (5 # 10) "#3a3a3a" [];
     Layer.mk 1 "#4a4a4a" []]
    [] None false 0%Z 0%Z (loadHighScoreFrom st) st rnd 0 es.

(** The player, the camera, the score, the level, the canvas and the state
    are the same. *)
Definition sameMotion (s s' : Game) : Prop :=
  player s' = player s /\ cameraX s' = cameraX s /\ score s' = score s /\
  distance s' = distance s /\ level s' = level s /\ canvas s' = canvas s /\
  gameState s' = gameState s.

(** Only the player differs. *)
Definition onlyPlayer (s s' : Game) : Prop := s' = set_player (player s') s.

(** The inputs other than a resize of the canvas. *)
Definition noResize (i : input) : bool :=
  match i with
  | Resize _ => false
  | _ => true
  end.

(** The state of a run on a canvas that is never resized: the camera has
    not passed 375, the level is not won, and while playing the player
    rests on the ground line, 5 pixels above the top of the first
    obstacle's box minus the player's height. *)
Definition onTrack (s : Game) : Prop :=
  gameState s <> Win /\ cameraX s <= 375 /\ (score s <= 37)%Z /\
  Player.groundY (player s) == logicalHeight s - 80 /\
  (exists o rest,
     Level.obstacles (level s) = o :: rest /\
     Obstacle.x o == 500 /\ Obstacle.width o == 35 /\
     Obstacle.height o == 25 /\
     Obstacle.y o == logicalHeight s - 75) /\
  (gameState s = Playing ->
     (exists k : nat, (k <= 74)%nat /\ cameraX s == Qnat k * 5) /\
     Player.y (player s) = Player.groundY (player s) /\
     -16 <= Player.velocityY (player s)).

(** The obstacle starts at or right of the world column [limit]. *)
Definition startsFrom (limit : Q) (o : Obstacle.t) : bool :=
  Qle_bool limit (Obstacle.x o).

(** A particle of the death burst of a player [p]: at the centre of the
    player's box, white, with 30 steps to live. *)
Definition deathParticle (p : Player.t) (q : Particle.t) : Prop :=
  Particle.x q = Player.x p + Player.width p / 2 /\
  Particle.y q = Player.y p + Player.height p / 2 /\
  Particle.life q = 30 /\ Particle.maxLife q = 30 /\
  Particle.color q = "#ffffff".

(** The particle collection stays small. *)
Definition particlesBounded (s : Game) : Prop :=
  (gameState s <> Dead -> (List.length (particles s) <= 50)%nat) /\
  (List.length (particles s) <= 70)%nat.

(** What scrolling never changes in a background element and in a layer. *)
Definition elementShape (e : Element.t) : Q * Q * Q :=
  (Element.y e, Element.size e, Element.opacity e).

Definition layerShape (l : Layer.t) : Q * string * list (Q * Q * Q) :=
  (Layer.speed l, Layer.color l, map elementShape (Layer.elements l)).

(** How [updateParallax] moves one element of a layer of speed [speed]:
    left by [scrollSpeed * speed], or, when its right edge is then left of
    [-cameraX] ([leavesScreen]), to [level.width] plus a random value
    times 500. *)
Definition leavesScreen (s : Game) (speed : Q) (e : Element.t) : bool :=
  Qltb (Element.x e - scrollSpeed * speed + Element.size e) (- cameraX s).

Definition scrolled (s : Game) (speed : Q) (e e' : Element.t) : Prop :=
  if leavesScreen s speed e
  then exists k : nat, Element.x e' = Level.width (level s) + entropy s k * 500
  else Element.x e' = Element.x e - scrollSpeed * speed.

(** The number of elements [updateParallax] re-places in the state [s]. *)
Definition replacedCount (s : Game) : nat :=
  list_sum
    (map (fun l =>
            List.length
              (filter (leavesScreen s (Layer.speed l)) (Layer.elements l)))
       (parallaxLayers s)).

(** An element as [initParallax] makes it for layer number [i]: three
    random values place and size it, the opacity depends on the layer. *)
Definition freshElement (s : Game) (i : nat) (e : Element.t) : Prop :=
  exists k1 k2 k3 : nat,
    Element.x e = entropy s k1 * Level.width (level s) /\
    Element.y e =
      entropy s k2 * (logicalHeight s - Level.groundHeight (level s)) /\
    Element.size e = 20 + entropy s k3 * 40 /\
    Element.opacity e = (1 # 10) + Qnat i * (1 # 10).

(** Layers [ls'] are the layers [ls] refilled by [initParallax], the first
    of them being layer number [i]. *)
Fixpoint refilled (s : Game) (i : nat) (ls ls' : list Layer.t) : Prop :=
  match ls, ls' with
  | [], [] => True
  | l :: ls, l' :: ls' =>
      Layer.speed l' = Layer.speed l /\ Layer.color l' = Layer.color l /\
      List.length (Layer.elements l') = (15 + i * 5)%nat /\
      Forall (freshElement s i) (Layer.elements l') /\
      refilled s (S i) ls ls'
  | _, _ => False
  end.

(** The number of elements [initParallax] makes for [n] layers starting
    with layer number [i]. *)
Fixpoint elementTotal (i n : nat) : nat :=
  match n with
  | O => O
  | S n' => (15 + i * 5 + elementTotal (S i) n')%nat
  end.

(** A block that stands on the ground line [g]. *)
Definition standsOn (g : Q) (o : Obstacle.t) : Prop :=
  Obstacle.y o + Obstacle.height o == g.

(** The sizes [createLevel] gives its blocks. *)
Definition smallBlock (o : Obstacle.t) : Prop :=
  30 <= Obstacle.width o <= 40 /\ 20 <= Obstacle.height o <= 40.

(** Blocks listed from left to right with at least [gap] between the right
    edge of one and the left edge of the next. *)
Fixpoint spaced (gap : Q) (os : list Obstacle.t) : Prop :=
  match os with
  | a :: (b :: _) as rest =>
      Obstacle.x a + Obstacle.width a + gap <= Obstacle.x b /\
      spaced gap rest
  | _ => True
  end.

(** ** Colour arithmetic of the renderer (game.js, [lightenColor] and
    [darkenColor])

    Both functions read a colour as one hexadecimal number, shift its three
    channels by [percent] and print the result.  [percent] is an integer
    (the renderer passes 30); the bitwise operators work on 32-bit signed
    integers. *)

(** [color.replace("#", "")]: the first ["#"] is removed. *)
Fixpoint removeHash (s : string) : string :=
  match s with
  | String c s' => if Ascii.eqb c "#" then s' else String c (removeHash s')
  | EmptyString => EmptyString
  end.

Definition hexValue (c : ascii) : option Z :=
  let n := nat_of_ascii c in
  if ((48 <=? n) && (n <=? 57))%nat then Some (Z.of_nat (n - 48))
  else if ((97 <=? n) && (n <=? 102))%nat then Some (Z.of_nat (n - 87))
  else if ((65 <=? n) && (n <=? 70))%nat then Some (Z.of_nat (n - 55))
  else None.

(** The longest prefix of hexadecimal digits of [s], as [parseDigits]. *)
Fixpoint parseHexDigits (s : string) (seen : bool) (acc : Z) : option Z :=
  match s with
  | String c s' =>
      match hexValue c with
      | Some d => parseHexDigits s' true (acc * 16 + d)%Z
      | None => if seen then Some acc else None
      end
  | EmptyString => if seen then Some acc else None
  end.

(** [parseInt(s, 16)]: skip leading white space, read an optional sign, skip
    an optional [0x] or [0X], read the longest prefix of hexadecimal digits;
    NaN when there is no digit. *)
Definition parseInt16 (s : string) : num :=
  let t := trimStart s in
  let '(sign, body) :=
    match t with
    | String "-" r => ((-1)%Z, r)
    | String "+" r => (1%Z, r)
    | _ => (1%Z, t)
    end in
  let body :=
    match body with
    | String "0" (String "x" r) => r
    | String "0" (String "X" r) => r
    | _ => body
    end in
  match parseHexDigits body false 0 with
  | Some v => Num (sign * v)
  | None => NaN
  end.

(** ToInt32 of an integer: reduction modulo 2^32 into the signed range. *)
Definition int32 (z : Z) : Z :=
  ((z + 2147483648) mod 4294967296 - 2147483648)%Z.

(** ToInt32 of a parsed number: NaN becomes 0. *)
Definition toInt32 (n : num) : Z :=
  match n with
  | Num z => int32 z
  | NaN => 0%Z
  end.

(** [a << k]. *)
Definition shl (a k : Z) : Z := int32 (Z.shiftl (int32 a) k).

Definition hexChar (d : Z) : ascii :=
  match String.get (Z.to_nat d) "0123456789abcdef" with
  | Some c => c
  | None => "0"%char
  end.

(** The hexadecimal digits of [n >= 0], most significant first, put before
    [acc]. *)
Fixpoint hexDigits (fuel : nat) (n : Z) (acc : string) : string :=
  match fuel with
  | O => acc
  | S fuel' =>
      let acc' := String (hexChar (n mod 16)) acc in
      if (n / 16 =? 0)%Z then acc' else hexDigits fuel' (n / 16) acc'
  end.

(** [z.toString(16)] for an integer. *)
Definition toString16 (z : Z) : string :=
  if (z <? 0)%Z
  then String "-" (hexDigits (S (Z.to_nat (Z.log2 (- z)))) (- z) "")
  else hexDigits (S (Z.to_nat (Z.log2 z))) z "".

(** [s.padStart(n, c)]. *)
Definition padStart (n : nat) (c : ascii) (s : string) : string :=
  string_of_list_ascii (repeat c (n - String.length s)) ++ s.

Definition lightenColor (color : string) (percent : Z) : string :=
  let num := parseInt16 (removeHash color) in
  let r := Z.min 255 (Z.shiftr (toInt32 num) 16 + percent) in
  let g := Z.min 255 (Z.land (Z.shiftr (toInt32 num) 8) 255 + percent) in
  let b := Z.min 255 (Z.land (toInt32 num) 255 + percent) in
  "#" ++ padStart 6 "0"
           (toString16 (Z.lor (Z.lor (shl r 16) (shl g 8)) (int32 b))).

Definition darkenColor (color : string) (percent : Z) : string :=
  let num := parseInt16 (removeHash color) in
  let r := Z.max 0 (Z.shiftr (toInt32 num) 16 - percent) in
  let g := Z.max 0 (Z.land (Z.shiftr (toInt32 num) 8) 255 - percent) in
  let b := Z.max 0 (Z.land (toInt32 num) 255 - percent) in
  "#" ++ padStart 6 "0"
           (toString16 (Z.lor (Z.lor (shl r 16) (shl g 8)) (int32 b))).

(** The two hexadecimal digits of a channel value, and the colour
    [#rrggbb] of three channel values. *)
Definition hex2 (v : Z) : string :=
  String (hexChar (v / 16)) (String (hexChar (v mod 16)) "").

Definition rgb (r g b : Z) : string := "#" ++ hex2 r ++ hex2 g ++ hex2 b.

Definition channel (v : Z) : Prop := (0 <= v <= 255)%Z.

(** The last [k] hexadecimal digits of [n], put before [acc]. *)
Fixpoint nibbles (k : nat) (n : Z) (acc : string) : string :=
  match k with
  | O => acc
  | S k' => nibbles k' (n / 16) (String (hexChar (n mod 16)) acc)
  end.

Definition zeros (n : nat) : string := string_of_list_ascii (repeat "0"%char n).

(** ** Runs on a resized canvas *)

(** A canvas that measures the same with both of its interfaces and has a
    size: the bounding rectangle is the offset box. *)
Definition plainCanvas (c : Canvas.t) : Prop :=
  Canvas.offsetWidth c <> 0%N /\ Canvas.offsetHeight c <> 0%N /\
  Canvas.rectWidth c == inject_Z (Z.of_N (Canvas.offsetWidth c)) /\
  Canvas.rectHeight c == inject_Z (Z.of_N (Canvas.offsetHeight c)).

(** The resting player passes every block: its ground line follows the
    canvas, the blocks stand on the line [g0], and the player's box on the
    ground line is entirely below [g0] or entirely above the tallest
    block. *)
Definition passing (g0 : Q) (s : Game) : Prop :=
  gameState s <> Dead /\
  Player.groundY (player s) == logicalHeight s - 80 /\
  (g0 <= Player.groundY (player s) \/
   Player.groundY (player s) + 30 <= g0 - 40) /\
  Forall (fun o => standsOn g0 o /\ 0 <= Obstacle.height o <= 40)
    (Level.obstacles (level s)) /\
  (gameState s = Playing ->
     Player.y (player s) = Player.groundY (player s) /\
     -16 <= Player.velocityY (player s)).

(** ** The high score over a run *)

(** From [s] to [s'] the high score and the storage are untouched, or the
    high score has become a score greater than it was. *)
Definition grows (s s' : Game) : Prop :=
  sameStore s s' \/
  exists z, highScore s' = Num z /\ gt_num z (highScore s) = true.

(** ** Sound *)

(** The calls that make a sound. *)
Definition sound (e : effect) : bool :=
  match e with
  | StartBackgroundMusic | PlayJumpSound | PlayDeathSound => true
  | _ => false
  end.

Definition sounds (s : Game) : list effect := filter sound (effects s).

(** From [s] to [s'] the audio context is the same and, if it was not
    usable, no sound has been made. *)
Definition quiet (s s' : Game) : Prop :=
  audioContext s' = audioContext s /\
  audioContextReady s' = audioContextReady s /\
  (audioUsable s = false -> sounds s' = sounds s).

(** The inputs other than the completion of [audioContext.resume()]. *)
Definition notResumed (i : input) : bool :=
  match i with
  | AudioResumed => false
  | _ => true
  end.

(** ** Score *)

(** The score is the distance, both are the tenth of the camera position
    rounded down, and the camera is at a whole number of scroll steps. *)
Definition scoreTracks (s : Game) : Prop :=
  score s = distance s /\
  score s = Math_floor (cameraX s / 10) /\
  exists k : nat, cameraX s == Qnat k * 5.

(** ** Rotation *)

(** The square's angle is within one turn and its spin is one of the two
    rates the game uses. *)
Definition spin (s : Game) : Prop :=
  0 <= Player.rotation (player s) < 360 /\
  (Player.rotationSpeed (player s) = 0 \/
   Player.rotationSpeed (player s) = 15).

(** ** The new-high-score banner *)

(** A call of [showGameOverScreen] that sets the banner's display to
    [block].  The page never resets it. *)
Definition banner (e : effect) : bool :=
  match e with
  | ShowGameOverScreen _ true => true
  | _ => false
  end.

Definition bannerCalls (s : Game) : list effect := filter banner (effects s).

Definition sameBanner (s s' : Game) : Prop := bannerCalls s' = bannerCalls s.

(** ** A storage that refuses writes *)

(** The high-score item is 3 and [setItem] throws. *)
Definition refusingStorage : Storage.t :=
  Storage.mk true false [(highScoreKey, "3")].

(** A game on that storage one tick before its first death, and, after
    that death and a restart, one tick before the second. *)
Definition firstRun : Game :=
  run (StartButton :: repeat (Frame false) 74)
    (construct sampleCanvas refusingStorage None (fun _ => 1 # 2) false).

Definition secondRun : Game :=
  run (Frame false :: RestartButton :: repeat (Frame false) 74) firstRun.
(** * Properties *)

(** ** Numbers and strings *)

Lemma Qltb_lt a b : Qltb a b = true <-> a < b.
Proof.
  unfold Qltb. rewrite negb_true_iff, <- not_true_iff_false, Qle_bool_iff.
  split; [apply Qnot_le_lt | apply Qlt_not_le].
Qed.

Lemma Qgeb_le a b : Qgeb a b = true <-> b <= a.
Proof. apply Qle_bool_iff. Qed.

Lemma Qgtb_lt a b : Qgtb a b = true <-> b < a.
Proof.
  unfold Qgtb. rewrite negb_true_iff, <- not_true_iff_false, Qle_bool_iff.
  split; [apply Qnot_le_lt | apply Qlt_not_le].
Qed.

Lemma Qltb_false a b : Qltb a b = false <-> b <= a.
Proof.
  unfold Qltb. rewrite negb_false_iff. apply Qle_bool_iff.
Qed.

Lemma Qgtb_false a b : Qgtb a b = false <-> a <= b.
Proof.
  unfold Qgtb. rewrite negb_false_iff. apply Qle_bool_iff.
Qed.

Lemma Qgeb_false a b : Qgeb a b = false <-> a < b.
Proof.
  unfold Qgeb. rewrite <- not_true_iff_false, Qle_bool_iff.
  split; [apply Qnot_le_lt | apply Qlt_not_le].
Qed.

Example parseInt10_42 : parseInt10 "42" = Num 42.
Proof. reflexivity. Qed.
Example parseInt10_prefix : parseInt10 "  -12px" = Num (-12).
Proof. reflexivity. Qed.
Example parseInt10_abc : parseInt10 "abc" = NaN.
Proof. reflexivity. Qed.
Example toString_1234 : toString 1234 = "1234".
Proof. reflexivity. Qed.
Example toString_0 : toString 0 = "0".
Proof. reflexivity. Qed.
Example toString_neg : toString (-7) = "-7".
Proof. reflexivity. Qed.

(** *** [parseInt] reads back what [toString] prints *)

Lemma parseDigits_string_of_uint d acc :
  parseDigits (NilEmpty.string_of_uint d) true acc = Some (uintValue d acc).
Proof.
  revert acc. induction d; intros acc; simpl; try reflexivity; apply IHd.
Qed.

Lemma parseDigits_first_digit d acc :
  d <> Decimal.Nil ->
  parseDigits (NilEmpty.string_of_uint d) false acc = Some (uintValue d acc).
Proof.
  destruct d; intros Hd; try congruence; simpl;
    apply parseDigits_string_of_uint.
Qed.

Lemma uintValue_pos d p :
  uintValue d (Zpos p) = Zpos (Pos.of_uint_acc d p).
Proof.
  revert p. induction d; intros p; cbn [uintValue Pos.of_uint_acc];
    try reflexivity; rewrite <- IHd; f_equal; lia.
Qed.

Lemma uintValue_0 d : uintValue d 0 = Z.of_N (Pos.of_uint d).
Proof.
  induction d; simpl; try reflexivity; try assumption;
    apply uintValue_pos.
Qed.

Lemma to_uint_nonnil p : Pos.to_uint p <> Decimal.Nil.
Proof.
  intros H. pose proof (DecimalPos.Unsigned.of_to p) as E.
  rewrite H in E. discriminate E.
Qed.

(** A printed digit sequence starts with neither white space nor a sign. *)
Lemma parseInt10_digits d :
  d <> Decimal.Nil ->
  parseInt10 (NilEmpty.string_of_uint d) = Num (uintValue d 0).
Proof.
  intros Hd. unfold parseInt10.
  destruct d; try congruence; simpl;
    rewrite parseDigits_string_of_uint; f_equal;
    match goal with |- context [uintValue ?l ?a] =>
      destruct (uintValue l a); reflexivity end.
Qed.

Lemma parseInt10_neg_digits d :
  d <> Decimal.Nil ->
  parseInt10 (String "-" (NilEmpty.string_of_uint d)) = Num (- uintValue d 0).
Proof.
  intros Hd. unfold parseInt10. simpl trimStart. cbv iota beta.
  rewrite (parseDigits_first_digit d 0 Hd).
  destruct (uintValue d 0); reflexivity.
Qed.

Lemma string_of_uint_nonnil d :
  d <> Decimal.Nil -> NilZero.string_of_uint d = NilEmpty.string_of_uint d.
Proof. destruct d; intros H; try congruence; reflexivity. Qed.

Lemma parseInt10_toString z : parseInt10 (toString z) = Num z.
Proof.
  unfold toString. destruct z as [|p|p]; [reflexivity| |];
    simpl Z.to_int; unfold NilZero.string_of_int;
    rewrite (string_of_uint_nonnil _ (to_uint_nonnil p)).
  - rewrite (parseInt10_digits _ (to_uint_nonnil p)), uintValue_0.
    now rewrite DecimalPos.Unsigned.of_to.
  - rewrite (parseInt10_neg_digits _ (to_uint_nonnil p)), uintValue_0.
    now rewrite DecimalPos.Unsigned.of_to.
Qed.

Lemma toString_nonempty z : toString z <> "".
Proof.
  intros H. pose proof (parseInt10_toString z) as E.
  rewrite H in E. discriminate E.
Qed.

Lemma lookup_replace k v l :
  Storage.lookup k (Storage.replace k v l) = Some v.
Proof.
  induction l as [|[k' v'] l IH]; simpl.
  - now rewrite String.eqb_refl.
  - destruct (String.eqb k k') eqn:E; simpl.
    + now rewrite String.eqb_refl.
    + now rewrite E.
Qed.

Lemma GameState_eqb_eq a b : GameState_eqb a b = true <-> a = b.
Proof. destruct a, b; simpl; split; congruence. Qed.

(** ** The collision test *)

Lemma checkCollision_spec x1 y1 w1 h1 x2 y2 w2 h2 :
  checkCollision x1 y1 w1 h1 x2 y2 w2 h2 = true <->
  x1 < x2 + w2 /\ x2 < x1 + w1 /\ y1 < y2 + h2 /\ y2 < y1 + h1.
Proof.
  unfold checkCollision.
  rewrite !andb_true_iff, !Qltb_lt, !Qgtb_lt. tauto.
Qed.

Lemma Qmid_between a b : a < b -> a < (a + b) / 2 /\ (a + b) / 2 < b.
Proof.
  intros H.
  assert (E : (a + b) / 2 == (a + b) * (1 # 2)) by (unfold Qdiv; reflexivity).
  rewrite E. split; lra.
Qed.

Lemma interval_meet a b c d :
  a < b -> c < d -> a < d -> c < b ->
  exists p, (a < p /\ p < b) /\ (c < p /\ p < d).
Proof.
  intros Hab Hcd Had Hcb.
  destruct (Qlt_le_dec a c) as [Hl|Hl], (Qlt_le_dec b d) as [Hu|Hu].
  - destruct (Qmid_between c b Hcb). exists ((c + b) / 2). lra.
  - destruct (Qmid_between c d Hcd). exists ((c + d) / 2). lra.
  - destruct (Qmid_between a b Hab). exists ((a + b) / 2). lra.
  - destruct (Qmid_between a d Had). exists ((a + d) / 2). lra.
Qed.

(** For rectangles of positive size the test decides whether the
    interiors meet. *)
Lemma checkCollision_overlap x1 y1 w1 h1 x2 y2 w2 h2 :
  0 < w1 -> 0 < h1 -> 0 < w2 -> 0 < h2 ->
  (checkCollision x1 y1 w1 h1 x2 y2 w2 h2 = true <->
   overlap x1 y1 w1 h1 x2 y2 w2 h2).
Proof.
  intros Hw1 Hh1 Hw2 Hh2. rewrite checkCollision_spec. split.
  - intros (A & B & C & D).
    destruct (interval_meet x1 (x1 + w1) x2 (x2 + w2)) as (px & X1 & X2);
      try lra.
    destruct (interval_meet y1 (y1 + h1) y2 (y2 + h2)) as (py & Y1 & Y2);
      try lra.
    exists px, py. tauto.
  - intros (px & py & (A1 & A2) & (B1 & B2) & (C1 & C2) & (D1 & D2)).
    repeat split; lra.
Qed.

(** For the test on exact numbers all four comparisons are strict:
    rectangles that only touch, along any of the four edges or at a
    corner, do not collide, and the answer does not depend on which
    rectangle is given first. *)
Lemma checkCollision_strict x1 y1 w1 h1 x2 y2 w2 h2 :
  (checkCollision x1 y1 w1 h1 x2 y2 w2 h2 = true <->
   x1 < x2 + w2 /\ x2 < x1 + w1 /\ y1 < y2 + h2 /\ y2 < y1 + h1) /\
  checkCollision x1 y1 w1 h1 (x1 + w1) y2 w2 h2 = false /\
  checkCollision (x2 + w2) y1 w1 h1 x2 y2 w2 h2 = false /\
  checkCollision x1 y1 w1 h1 x2 (y1 + h1) w2 h2 = false /\
  checkCollision x1 (y2 + h2) w1 h1 x2 y2 w2 h2 = false /\
  checkCollision x1 y1 w1 h1 (x1 + w1) (y1 + h1) w2 h2 = false /\
  checkCollision x1 y1 w1 h1 x2 y2 w2 h2 =
    checkCollision x2 y2 w2 h2 x1 y1 w1 h1.
Proof.
  split; [apply checkCollision_spec|].
  assert (F : forall a b c d e f g h,
             ~ (a < e + g /\ e < a + c /\ b < f + h /\ f < b + d) ->
             checkCollision a b c d e f g h = false).
  { intros a b c d e f g h N. apply not_true_iff_false.
    now rewrite checkCollision_spec. }
  repeat split; try (apply F; intros (A & B & C & D); lra).
  apply eq_true_iff_eq. rewrite !checkCollision_spec. tauto.
Qed.

(** *** The test on doubles *)

Lemma pow2_pred d : (0 < d)%Z -> (2 ^ d = 2 * 2 ^ (d - 1))%Z.
Proof.
  intros D. replace d with (Z.succ (d - 1)) at 1 by lia.
  apply Z.pow_succ_r. lia.
Qed.

(** A mantissa of [d] binary digits lies between [2^(d-1)] and [2^d]. *)
Lemma digits2_bounds m :
  (2 ^ (Zpos (SpecFloat.digits2_pos m) - 1) <= Zpos m
   < 2 ^ Zpos (SpecFloat.digits2_pos m))%Z.
Proof.
  induction m as [p IH|p IH|]; cbn [SpecFloat.digits2_pos].
  - change (PosDef.Pos.succ (SpecFloat.digits2_pos p))
      with (Pos.succ (SpecFloat.digits2_pos p)).
    rewrite Pos2Z.inj_succ. change (Zpos p~1) with (2 * Zpos p + 1)%Z.
    set (d := Zpos (SpecFloat.digits2_pos p)) in *.
    assert (D : (0 < d)%Z) by (subst d; lia).
    replace (Z.succ d - 1)%Z with d by lia.
    rewrite Z.pow_succ_r by lia.
    rewrite (pow2_pred d D) in *. lia.
  - change (PosDef.Pos.succ (SpecFloat.digits2_pos p))
      with (Pos.succ (SpecFloat.digits2_pos p)).
    rewrite Pos2Z.inj_succ. change (Zpos p~0) with (2 * Zpos p)%Z.
    set (d := Zpos (SpecFloat.digits2_pos p)) in *.
    assert (D : (0 < d)%Z) by (subst d; lia).
    replace (Z.succ d - 1)%Z with d by lia.
    rewrite Z.pow_succ_r by lia.
    rewrite (pow2_pred d D) in *. lia.
  - cbn. lia.
Qed.

(** A number of the format has its exponent between -1074 and 971 and at
    most 53 digits, exactly 53 unless the exponent is the least one. *)
Lemma bounded_facts m e :
  SpecFloat.bounded Float64.prec Float64.emax m e = true ->
  (-1074 <= e <= 971)%Z /\
  (Zpos (SpecFloat.digits2_pos m) <= 53)%Z /\
  ((-1074 < e)%Z -> Zpos (SpecFloat.digits2_pos m) = 53%Z).
Proof.
  unfold SpecFloat.bounded, SpecFloat.canonical_mantissa, SpecFloat.fexp,
    SpecFloat.emin, Float64.prec, Float64.emax.
  rewrite andb_true_iff, Z.eqb_eq, Z.leb_le. lia.
Qed.

(** Of two positive numbers the one with the smaller exponent is the
    smaller. *)
Lemma mag_lt m1 e1 m2 e2 :
  SpecFloat.bounded Float64.prec Float64.emax m1 e1 = true ->
  SpecFloat.bounded Float64.prec Float64.emax m2 e2 = true ->
  (e1 < e2)%Z ->
  (Zpos m1 * 2 ^ (e1 + 1074) < Zpos m2 * 2 ^ (e2 + 1074))%Z.
Proof.
  intros B1 B2 L.
  destruct (bounded_facts m1 e1 B1) as (E1 & D1 & _).
  destruct (bounded_facts m2 e2 B2) as (E2 & _ & D2).
  specialize (D2 ltac:(lia)).
  pose proof (digits2_bounds m1) as (_ & U1).
  pose proof (digits2_bounds m2) as (L2 & _).
  rewrite D2 in L2. change (2 ^ (53 - 1))%Z with (2 ^ 52)%Z in L2.
  assert (U : (Zpos m1 < 2 ^ 53)%Z).
  { eapply Z.lt_le_trans; [exact U1|]. apply Z.pow_le_mono_r; lia. }
  assert (P1 : (0 < 2 ^ (e1 + 1074))%Z) by (apply Z.pow_pos_nonneg; lia).
  assert (S : (2 * 2 ^ (e1 + 1074) <= 2 ^ (e2 + 1074))%Z).
  { rewrite <- Z.pow_succ_r by lia. apply Z.pow_le_mono_r; lia. }
  change (2 ^ 53)%Z with (2 * 2 ^ 52)%Z in U.
  set (a := (2 ^ (e1 + 1074))%Z) in *. set (b := (2 ^ (e2 + 1074))%Z) in *.
  set (c := (2 ^ 52)%Z) in *.
  assert (C : (0 < c)%Z) by (subst c; apply Z.pow_pos_nonneg; lia).
  clearbody a b c. nia.
Qed.

Lemma lt_scaled a b :
  Float64.number a = true -> Float64.number b = true ->
  (Float64.lt a b = true <-> (Float64.scaled a < Float64.scaled b)%Z).
Proof.
  unfold Float64.lt, SpecFloat.SFltb.
  destruct a as [sa|sa| |sa ma ea]; try discriminate;
    destruct b as [sb|sb| |sb mb eb]; try discriminate;
    cbn [Float64.number SpecFloat.SFcompare Float64.scaled]; intros A B.
  - split; [discriminate|lia].
  - destruct (bounded_facts mb eb B) as (E & _).
    assert (P : (0 < 2 ^ (eb + 1074))%Z) by (apply Z.pow_pos_nonneg; lia).
    destruct sb; split; try discriminate; try reflexivity; nia.
  - destruct (bounded_facts ma ea A) as (E & _).
    assert (P : (0 < 2 ^ (ea + 1074))%Z) by (apply Z.pow_pos_nonneg; lia).
    destruct sa; split; try discriminate; try reflexivity; nia.
  - destruct (bounded_facts ma ea A) as (Ea & _).
    destruct (bounded_facts mb eb B) as (Eb & _).
    assert (Pa : (0 < 2 ^ (ea + 1074))%Z) by (apply Z.pow_pos_nonneg; lia).
    assert (Pb : (0 < 2 ^ (eb + 1074))%Z) by (apply Z.pow_pos_nonneg; lia).
    change (PosDef.Pos.compare_cont Eq ma mb) with (Pos.compare ma mb).
    destruct (Z.compare_spec ea eb) as [->|L|L].
    + destruct (Pos.compare_spec ma mb) as [->|M|M];
        destruct sa, sb; cbn [CompOpp]; split;
          try discriminate; try reflexivity; try lia; nia.
    + pose proof (mag_lt ma ea mb eb A B L).
      destruct sa, sb; split; try discriminate; try reflexivity; nia.
    + pose proof (mag_lt mb eb ma ea B A L).
      destruct sa, sb; split; try discriminate; try reflexivity; nia.
Qed.

Lemma pos_pow_Z p : Zpos (2 ^ p) = (2 ^ Zpos p)%Z.
Proof. apply Pos2Z.inj_pow. Qed.

Lemma toQ_scaled a :
  Float64.number a = true ->
  Float64.toQ a == Float64.scaled a # (2 ^ 1074).
Proof.
  destruct a as [s|s| |s m e]; try discriminate;
    cbn [Float64.number Float64.toQ Float64.scaled]; intros B.
  - reflexivity.
  - destruct (bounded_facts m e B) as (E & _).
    cbv zeta. set (z := if s then Z.neg m else Z.pos m).
    unfold Qeq.
    destruct e as [|q|q]; cbn [Qnum Qden inject_Z].
    + rewrite pos_pow_Z. change (0 + 1074)%Z with 1074%Z.
      change (2 ^ 0)%Z with 1%Z. ring.
    + rewrite pos_pow_Z, Z.pow_add_r by lia. ring.
    + rewrite !pos_pow_Z.
      replace (2 ^ 1074)%Z
        with (2 ^ (Z.neg q + 1074) * 2 ^ Z.pos q)%Z.
      * ring.
      * rewrite <- Z.pow_add_r by lia. f_equal. lia.
Qed.

Lemma Qlt_same_den a b d : (a # d) < (b # d) <-> (a < b)%Z.
Proof.
  unfold Qlt. cbn [Qnum Qden]. split; intros H.
  - apply Z.mul_lt_mono_pos_r in H; [exact H|lia].
  - apply Z.mul_lt_mono_pos_r; [lia|exact H].
Qed.

(** On numbers of the format, [<] on doubles is [<] on what they stand
    for. *)
Lemma lt_toQ a b :
  Float64.number a = true -> Float64.number b = true ->
  (Float64.lt a b = true <-> Float64.toQ a < Float64.toQ b).
Proof.
  intros A B. rewrite (lt_scaled a b A B).
  rewrite (toQ_scaled a A), (toQ_scaled b B).
  symmetry. apply Qlt_same_den.
Qed.

(** C6.  [checkCollision] on doubles.  For two rectangles whose far edges
    [x + w] and [y + h] are computed without rounding, the test answers
    true exactly when the rectangles overlap strictly on both axes (all
    four comparisons strict), it agrees with the test on exact numbers,
    and rectangles that only touch along an edge ([x1 + w1 = x2],
    [x2 + w2 = x1], [y1 + h1 = y2] or [y2 + h2 = y1]) or at a corner do
    not collide. *)
Theorem checkCollision_exact_sums (x1 y1 w1 h1 x2 y2 w2 h2 : Float64.t) :
  Float64.exactRect x1 y1 w1 h1 -> Float64.exactRect x2 y2 w2 h2 ->
  let q := Float64.toQ in
  (Float64.checkCollision x1 y1 w1 h1 x2 y2 w2 h2 = true <->
   q x1 < q x2 + q w2 /\ q x2 < q x1 + q w1 /\
   q y1 < q y2 + q h2 /\ q y2 < q y1 + q h1) /\
  Float64.checkCollision x1 y1 w1 h1 x2 y2 w2 h2 =
    checkCollision (q x1) (q y1) (q w1) (q h1) (q x2) (q y2) (q w2) (q h2) /\
  (q x1 + q w1 == q x2 \/ q x2 + q w2 == q x1 \/
   q y1 + q h1 == q y2 \/ q y2 + q h2 == q y1 ->
   Float64.checkCollision x1 y1 w1 h1 x2 y2 w2 h2 = false).
Proof.
  intros (X1 & Y1 & (NX1 & EX1) & (NY1 & EY1))
         (X2 & Y2 & (NX2 & EX2) & (NY2 & EY2)).
  cbv zeta.
  assert (I : Float64.checkCollision x1 y1 w1 h1 x2 y2 w2 h2 = true <->
              Float64.toQ x1 < Float64.toQ x2 + Float64.toQ w2 /\
              Float64.toQ x2 < Float64.toQ x1 + Float64.toQ w1 /\
              Float64.toQ y1 < Float64.toQ y2 + Float64.toQ h2 /\
              Float64.toQ y2 < Float64.toQ y1 + Float64.toQ h1).
  { unfold Float64.checkCollision, Float64.gt.
    rewrite !andb_true_iff.
    rewrite (lt_toQ x1 _ X1 NX2), (lt_toQ x2 _ X2 NX1),
      (lt_toQ y1 _ Y1 NY2), (lt_toQ y2 _ Y2 NY1).
    rewrite EX1, EX2, EY1, EY2. tauto. }
  split; [exact I|]. split.
  - apply eq_true_iff_eq. rewrite I, checkCollision_spec. tauto.
  - intros T. apply not_true_iff_false. rewrite I.
    intros (A & B & C & D). destruct T as [T|[T|[T|T]]]; lra.
Qed.

Lemma checkCollision_exact_sums_witness :
  Float64.checkCollision
    (Float64.ofZ 100) (Float64.ofZ 520) (Float64.ofZ 30) (Float64.ofZ 30)
    (Float64.ofZ 125) (Float64.ofZ 525) (Float64.ofZ 35) (Float64.ofZ 25)
  = true /\
  Float64.checkCollision
    (Float64.ofZ 100) (Float64.ofZ 520) (Float64.ofZ 30) (Float64.ofZ 30)
    (Float64.ofZ 130) (Float64.ofZ 525) (Float64.ofZ 35) (Float64.ofZ 25)
  = false.
Proof.
  split.
  - destruct (checkCollision_exact_sums
                (Float64.ofZ 100) (Float64.ofZ 520) (Float64.ofZ 30)
                (Float64.ofZ 30) (Float64.ofZ 125) (Float64.ofZ 525)
                (Float64.ofZ 35) (Float64.ofZ 25)) as (I & _).
    + unfold Float64.exactRect, Float64.exactSum. vm_compute. repeat split.
    + unfold Float64.exactRect, Float64.exactSum. vm_compute. repeat split.
    + apply I. vm_compute. repeat split.
  - destruct (checkCollision_exact_sums
                (Float64.ofZ 100) (Float64.ofZ 520) (Float64.ofZ 30)
                (Float64.ofZ 30) (Float64.ofZ 130) (Float64.ofZ 525)
                (Float64.ofZ 35) (Float64.ofZ 25)) as (_ & _ & T).
    + unfold Float64.exactRect, Float64.exactSum. vm_compute. repeat split.
    + unfold Float64.exactRect, Float64.exactSum. vm_compute. repeat split.
    + apply T. left. vm_compute. reflexivity.
Defined.

(** C6 as stated fails when a sum is rounded.  The rectangles
    [(1, 0, 2^-53, 1)] and [(1, 0, 1, 1)] overlap strictly on both axes:
    [1 < 1 + 1], [1 < 1 + 2^-53], [0 < 0 + 1], [0 < 0 + 1].  But the double
    nearest to [1 + 2^-53] is 1, so the code's [x1 + w1 > x2] is [1 > 1] and
    the test answers false. *)
Lemma checkCollision_misses_thin_overlap :
  let one := Float64.ofZ 1 in
  let zero := Float64.ofZ 0 in
  let tiny := Float64.halfUlp in
  let q := Float64.toQ in
  (Float64.number one = true /\ Float64.number zero = true /\
   Float64.number tiny = true) /\
  (q one == 1 /\ q zero == 0 /\ q tiny == 1 # (2 ^ 53)) /\
  (q one < q one + q one /\ q one < q one + q tiny /\
   q zero < q zero + q one /\ q zero < q zero + q one) /\
  Float64.add one tiny = one /\
  Float64.checkCollision one zero tiny one one zero one one = false.
Proof. vm_compute. repeat split. Qed.

(** ** Frame lemmas: which fields a method leaves alone *)

Create HintDb tick discriminated.
Create HintDb fixed discriminated.

Lemma tickStable_refl s : tickStable s s.
Proof. repeat split. Qed.

Lemma samePlayerSize_refl p : samePlayerSize p p.
Proof. repeat split. Qed.

Lemma fixed_refl s : fixed s s.
Proof. repeat split. Qed.

Lemma fixed_trans s t u : fixed s t -> fixed t u -> fixed s u.
Proof.
  intros (A & (B1 & B2 & B3) & C & D & E) (A' & (B1' & B2' & B3') & C' & D' & E').
  repeat split; congruence.
Qed.

Lemma tickStable_trans s t u : tickStable s t -> tickStable t u -> tickStable s u.
Proof. intros (A & B & C) (A' & B' & C'). repeat split; congruence. Qed.

#[export] Hint Resolve tickStable_refl : tick.
#[export] Hint Resolve fixed_refl samePlayerSize_refl : fixed.

(** Setters of the player keep its size. *)
Lemma samePlayerSize_set_y p q v :
  samePlayerSize p q -> samePlayerSize p (Player.set_y v q).
Proof. now destruct q. Qed.
Lemma samePlayerSize_set_velocityY p q v :
  samePlayerSize p q -> samePlayerSize p (Player.set_velocityY v q).
Proof. now destruct q. Qed.
Lemma samePlayerSize_set_rotation p q v :
  samePlayerSize p q -> samePlayerSize p (Player.set_rotation v q).
Proof. now destruct q. Qed.
Lemma samePlayerSize_set_rotationSpeed p q v :
  samePlayerSize p q -> samePlayerSize p (Player.set_rotationSpeed v q).
Proof. now destruct q. Qed.
Lemma samePlayerSize_set_isJumping p q v :
  samePlayerSize p q -> samePlayerSize p (Player.set_isJumping v q).
Proof. now destruct q. Qed.
Lemma samePlayerSize_set_groundY p q v :
  samePlayerSize p q -> samePlayerSize p (Player.set_groundY v q).
Proof. now destruct q. Qed.
Lemma samePlayerSize_land p q v :
  samePlayerSize p q -> samePlayerSize p (land v q).
Proof. now destruct q. Qed.

#[export] Hint Resolve samePlayerSize_set_y samePlayerSize_set_velocityY
  samePlayerSize_set_rotation samePlayerSize_set_rotationSpeed
  samePlayerSize_set_isJumping samePlayerSize_set_groundY
  samePlayerSize_land : fixed.

(** Field assignments. *)
Ltac by_fields :=
  let s := fresh "s" in let t := fresh "t" in let H := fresh "H" in
  intros s t; intros; destruct t;
  repeat match goal with H : tickStable _ _ |- _ => destruct H as (? & ? & ?) end;
  repeat match goal with
         | H : fixed _ _ |- _ => destruct H as (? & (? & ? & ?) & ? & ? & ?)
         | H : samePlayerSize _ _ |- _ => destruct H as (? & ? & ?)
         end;
  simpl in *; repeat split; simpl; assumption.

Lemma tickStable_set_player s t v :
  tickStable s t -> tickStable s (set_player v t).
Proof. revert s t. by_fields. Qed.
Lemma tickStable_set_gameState s t v :
  tickStable s t -> tickStable s (set_gameState v t).
Proof. revert s t. by_fields. Qed.
Lemma tickStable_set_particles s t v :
  tickStable s t -> tickStable s (set_particles v t).
Proof. revert s t. by_fields. Qed.
Lemma tickStable_set_parallaxLayers s t v :
  tickStable s t -> tickStable s (set_parallaxLayers v t).
Proof. revert s t. by_fields. Qed.
Lemma tickStable_set_randomCalls s t v :
  tickStable s t -> tickStable s (set_randomCalls v t).
Proof. revert s t. by_fields. Qed.
Lemma tickStable_set_effects s t v :
  tickStable s t -> tickStable s (set_effects v t).
Proof. revert s t. by_fields. Qed.
Lemma tickStable_set_highScore s t v :
  tickStable s t -> tickStable s (set_highScore v t).
Proof. revert s t. by_fields. Qed.
Lemma tickStable_set_storage s t v :
  tickStable s t -> tickStable s (set_storage v t).
Proof. revert s t. by_fields. Qed.

#[export] Hint Resolve tickStable_set_player tickStable_set_gameState
  tickStable_set_particles tickStable_set_parallaxLayers
  tickStable_set_randomCalls tickStable_set_effects tickStable_set_highScore
  tickStable_set_storage : tick.

Lemma fixed_set_player s t v :
  fixed s t -> samePlayerSize (player t) v -> fixed s (set_player v t).
Proof.
  intros (A & (B1 & B2 & B3) & C) (D1 & D2 & D3).
  destruct t; simpl in *. repeat split; simpl; try congruence; tauto.
Qed.
Lemma fixed_set_gameState s t v : fixed s t -> fixed s (set_gameState v t).
Proof. revert s t. by_fields. Qed.
Lemma fixed_set_cameraX s t v : fixed s t -> fixed s (set_cameraX v t).
Proof. revert s t. by_fields. Qed.
Lemma fixed_set_jumpHeld s t v : fixed s t -> fixed s (set_jumpHeld v t).
Proof. revert s t. by_fields. Qed.
Lemma fixed_set_jumpHeldTime s t v : fixed s t -> fixed s (set_jumpHeldTime v t).
Proof. revert s t. by_fields. Qed.
Lemma fixed_set_canvas s t v : fixed s t -> fixed s (set_canvas v t).
Proof. revert s t. by_fields. Qed.
Lemma fixed_set_particles s t v : fixed s t -> fixed s (set_particles v t).
Proof. revert s t. by_fields. Qed.
Lemma fixed_set_parallaxLayers s t v :
  fixed s t -> fixed s (set_parallaxLayers v t).
Proof. revert s t. by_fields. Qed.
Lemma fixed_set_audioContext s t v : fixed s t -> fixed s (set_audioContext v t).
Proof. revert s t. by_fields. Qed.
Lemma fixed_set_audioContextReady s t v :
  fixed s t -> fixed s (set_audioContextReady v t).
Proof. revert s t. by_fields. Qed.
Lemma fixed_set_score s t v : fixed s t -> fixed s (set_score v t).
Proof. revert s t. by_fields. Qed.
Lemma fixed_set_distance s t v : fixed s t -> fixed s (set_distance v t).
Proof. revert s t. by_fields. Qed.
Lemma fixed_set_highScore s t v : fixed s t -> fixed s (set_highScore v t).
Proof. revert s t. by_fields. Qed.
Lemma fixed_set_randomCalls s t v : fixed s t -> fixed s (set_randomCalls v t).
Proof. revert s t. by_fields. Qed.
Lemma fixed_set_effects s t v : fixed s t -> fixed s (set_effects v t).
Proof. revert s t. by_fields. Qed.

#[export] Hint Resolve fixed_set_player fixed_set_gameState fixed_set_cameraX
  fixed_set_jumpHeld fixed_set_jumpHeldTime fixed_set_canvas
  fixed_set_particles fixed_set_parallaxLayers fixed_set_audioContext
  fixed_set_audioContextReady fixed_set_score fixed_set_distance
  fixed_set_highScore fixed_set_randomCalls fixed_set_effects : fixed.

(** Methods, from the leaves up. *)

Ltac branches :=
  repeat match goal with
         | |- context [if ?b then _ else _] => destruct b
         | |- context [match ?x with _ => _ end] => destruct x
         end.

Ltac tick_auto := cbv zeta; branches; auto 40 with tick.
Ltac fixed_auto := cbv zeta; branches; auto 40 with fixed.

Lemma tickStable_emit s t e : tickStable s t -> tickStable s (emit e t).
Proof. unfold emit. tick_auto. Qed.
Lemma fixed_emit s t e : fixed s t -> fixed s (emit e t).
Proof. unfold emit. fixed_auto. Qed.
#[export] Hint Resolve tickStable_emit : tick.
#[export] Hint Resolve fixed_emit : fixed.

Lemma tickStable_playDeathSound s t :
  tickStable s t -> tickStable s (playDeathSound t).
Proof. unfold playDeathSound. tick_auto. Qed.
Lemma fixed_playDeathSound s t : fixed s t -> fixed s (playDeathSound t).
Proof. unfold playDeathSound. fixed_auto. Qed.
Lemma fixed_playJumpSound s t : fixed s t -> fixed s (playJumpSound t).
Proof. unfold playJumpSound. fixed_auto. Qed.
Lemma fixed_startBackgroundMusic s t :
  fixed s t -> fixed s (startBackgroundMusic t).
Proof. unfold startBackgroundMusic. fixed_auto. Qed.
Lemma fixed_resumeAudioContext s t :
  fixed s t -> fixed s (resumeAudioContext t).
Proof. unfold resumeAudioContext. fixed_auto. Qed.
#[export] Hint Resolve tickStable_playDeathSound : tick.
#[export] Hint Resolve fixed_playDeathSound fixed_playJumpSound
  fixed_startBackgroundMusic fixed_resumeAudioContext : fixed.

Lemma fixed_audioResumed s t : fixed s t -> fixed s (audioResumed t).
Proof. unfold audioResumed. fixed_auto. Qed.
#[export] Hint Resolve fixed_audioResumed : fixed.

Lemma tickStable_pushDeathParticle s t :
  tickStable s t -> tickStable s (pushDeathParticle t).
Proof. unfold pushDeathParticle, Math_random. tick_auto. Qed.
Lemma fixed_pushDeathParticle s t :
  fixed s t -> fixed s (pushDeathParticle t).
Proof. unfold pushDeathParticle, Math_random. fixed_auto. Qed.
Lemma tickStable_pushTrailParticle s t :
  tickStable s t -> tickStable s (pushTrailParticle t).
Proof. unfold pushTrailParticle, Math_random. tick_auto. Qed.
Lemma fixed_pushTrailParticle s t :
  fixed s t -> fixed s (pushTrailParticle t).
Proof. unfold pushTrailParticle, Math_random. fixed_auto. Qed.
#[export] Hint Resolve tickStable_pushDeathParticle
  tickStable_pushTrailParticle : tick.
#[export] Hint Resolve fixed_pushDeathParticle fixed_pushTrailParticle : fixed.

(** A loop keeps what its body keeps. *)
Lemma iterate_keeps (R : Game -> Game -> Prop) (f : Game -> Game) :
  (forall s t, R s t -> R s (f t)) ->
  forall n s t, R s t -> R s (iterate n f t).
Proof.
  intros Hf n. induction n as [|n IH]; intros s t H; simpl; auto.
Qed.

Lemma fixed_set_storage s t st k v :
  fixed s t -> Storage.setItem (storage t) k v = Normal st ->
  fixed s (set_storage st t).
Proof.
  unfold Storage.setItem. intros (A & B & C & D & E) H.
  destruct (Storage.writable (storage t)) eqn:W; [|discriminate].
  injection H as <-. destruct B as (B1 & B2 & B3).
  destruct t; simpl in *. repeat split; simpl; congruence.
Qed.

Lemma tickStable_saveHighScore s t z :
  tickStable s t -> tickStable s (saveHighScore z t).
Proof. unfold saveHighScore. tick_auto. Qed.
Lemma fixed_saveHighScore s t z : fixed s t -> fixed s (saveHighScore z t).
Proof.
  unfold saveHighScore. cbv zeta. intros H.
  destruct (Storage.setItem _ _ _) eqn:E; auto with fixed.
  eapply fixed_set_storage; eauto with fixed.
Qed.
#[export] Hint Resolve tickStable_saveHighScore : tick.
#[export] Hint Resolve fixed_saveHighScore : fixed.

Lemma tickStable_checkHighScore s t :
  tickStable s t -> tickStable s (checkHighScore t).
Proof. unfold checkHighScore. tick_auto. Qed.
Lemma fixed_checkHighScore s t : fixed s t -> fixed s (checkHighScore t).
Proof. unfold checkHighScore. fixed_auto. Qed.
#[export] Hint Resolve tickStable_checkHighScore : tick.
#[export] Hint Resolve fixed_checkHighScore : fixed.

Lemma tickStable_die s t : tickStable s t -> tickStable s (die t).
Proof.
  unfold die, showGameOverScreen. intros H. cbv zeta.
  destruct (GameState_eqb _ _); auto.
  apply tickStable_emit, tickStable_checkHighScore.
  apply iterate_keeps; auto with tick.
Qed.
Lemma fixed_die s t : fixed s t -> fixed s (die t).
Proof.
  unfold die, showGameOverScreen. intros H. cbv zeta.
  destruct (GameState_eqb _ _); auto.
  apply fixed_emit, fixed_checkHighScore.
  apply iterate_keeps; auto with fixed.
Qed.
Lemma tickStable_win s t : tickStable s t -> tickStable s (win t).
Proof. unfold win. tick_auto. Qed.
Lemma fixed_win s t : fixed s t -> fixed s (win t).
Proof. unfold win. fixed_auto. Qed.
#[export] Hint Resolve tickStable_die tickStable_win : tick.
#[export] Hint Resolve fixed_die fixed_win : fixed.

Lemma fixed_startGame s t : fixed s t -> fixed s (startGame t).
Proof. unfold startGame, hideStartScreen. fixed_auto. Qed.
#[export] Hint Resolve fixed_startGame : fixed.
Lemma fixed_restart s t : fixed s t -> fixed s (restart t).
Proof. unfold restart, hideGameOverScreen. fixed_auto. Qed.
#[export] Hint Resolve fixed_restart : fixed.
Lemma fixed_handleJumpEnd s t : fixed s t -> fixed s (handleJumpEnd t).
Proof. unfold handleJumpEnd. fixed_auto. Qed.
#[export] Hint Resolve fixed_handleJumpEnd : fixed.

Lemma fixed_handleJumpStart s t : fixed s t -> fixed s (handleJumpStart t).
Proof.
  unfold handleJumpStart. cbv zeta. intros H.
  match goal with
  | |- fixed s (match gameState ?u with _ => _ end) =>
      assert (H' : fixed s u) by (destruct (_ && _); auto with fixed);
      generalize dependent u
  end.
  intros t' H'. branches; auto 40 with fixed.
Qed.
#[export] Hint Resolve fixed_handleJumpStart : fixed.

Lemma fixed_advanceCamera s t : fixed s t -> fixed s (advanceCamera t).
Proof. unfold advanceCamera. fixed_auto. Qed.

Lemma tickStable_integrate s t : tickStable s t -> tickStable s (integrate t).
Proof. unfold integrate. tick_auto. Qed.
Lemma fixed_integrate s t : fixed s t -> fixed s (integrate t).
Proof. unfold integrate. fixed_auto. Qed.

Lemma tickStable_rotate s t : tickStable s t -> tickStable s (rotate t).
Proof. unfold rotate. tick_auto. Qed.
Lemma fixed_rotate s t : fixed s t -> fixed s (rotate t).
Proof. unfold rotate. fixed_auto. Qed.

Lemma tickStable_groundCollision s t :
  tickStable s t -> tickStable s (groundCollision t).
Proof. unfold groundCollision. tick_auto. Qed.
Lemma fixed_groundCollision s t : fixed s t -> fixed s (groundCollision t).
Proof. unfold groundCollision. fixed_auto. Qed.

Lemma tickStable_platformCollision s t r :
  tickStable s t -> tickStable s (platformCollision t r).
Proof. unfold platformCollision. tick_auto. Qed.
Lemma fixed_platformCollision s t r :
  fixed s t -> fixed s (platformCollision t r).
Proof. unfold platformCollision. fixed_auto. Qed.

Lemma fold_left_keeps (R : Game -> Game -> Prop) {A : Type}
    (f : Game -> A -> Game) :
  (forall s t a, R s t -> R s (f t a)) ->
  forall l s t, R s t -> R s (fold_left f l t).
Proof.
  intros Hf l. induction l as [|a l IH]; intros s t H; simpl; auto.
Qed.

Lemma tickStable_platformCollisions s t :
  tickStable s t -> tickStable s (platformCollisions t).
Proof.
  unfold platformCollisions. apply fold_left_keeps.
  intros; now apply tickStable_platformCollision.
Qed.
Lemma fixed_platformCollisions s t :
  fixed s t -> fixed s (platformCollisions t).
Proof.
  unfold platformCollisions. apply fold_left_keeps.
  intros; now apply fixed_platformCollision.
Qed.

Lemma tickStable_ceilingCollision s t :
  tickStable s t -> tickStable s (ceilingCollision t).
Proof. unfold ceilingCollision. tick_auto. Qed.
Lemma fixed_ceilingCollision s t : fixed s t -> fixed s (ceilingCollision t).
Proof. unfold ceilingCollision. fixed_auto. Qed.

#[export] Hint Resolve tickStable_integrate tickStable_rotate
  tickStable_groundCollision tickStable_platformCollisions
  tickStable_ceilingCollision : tick.
#[export] Hint Resolve fixed_advanceCamera fixed_integrate fixed_rotate
  fixed_groundCollision fixed_platformCollisions fixed_ceilingCollision
  : fixed.

Lemma tickStable_movePlayer s t : tickStable s t -> tickStable s (movePlayer t).
Proof. unfold movePlayer. auto 10 with tick. Qed.
Lemma fixed_movePlayer s t : fixed s t -> fixed s (movePlayer t).
Proof. unfold movePlayer. auto 10 with fixed. Qed.
#[export] Hint Resolve tickStable_movePlayer : tick.
#[export] Hint Resolve fixed_movePlayer : fixed.

Lemma tickStable_updateParticles s t :
  tickStable s t -> tickStable s (updateParticles t).
Proof. unfold updateParticles. tick_auto. Qed.
Lemma fixed_updateParticles s t : fixed s t -> fixed s (updateParticles t).
Proof. unfold updateParticles. fixed_auto. Qed.
#[export] Hint Resolve tickStable_updateParticles : tick.
#[export] Hint Resolve fixed_updateParticles : fixed.

Lemma updateElements_keeps (R : Game -> Game -> Prop) :
  (forall s t n, R s t -> R s (set_randomCalls n t)) ->
  forall speed es s t, R s t -> R s (snd (updateElements speed es t)).
Proof.
  intros HR speed es. induction es as [|e es IH]; intros s t H; simpl; auto.
  destruct (Qltb _ _); simpl.
  - specialize (IH s (set_randomCalls (S (randomCalls t)) t)
                  (HR _ _ _ H)).
    destruct (updateElements speed es _); exact IH.
  - specialize (IH s t H). destruct (updateElements speed es _); exact IH.
Qed.

Lemma updateLayers_keeps (R : Game -> Game -> Prop) :
  (forall s t n, R s t -> R s (set_randomCalls n t)) ->
  forall ls s t, R s t -> R s (snd (updateLayers ls t)).
Proof.
  intros HR ls. induction ls as [|l ls IH]; intros s t H; simpl; auto.
  pose proof (updateElements_keeps R HR (Layer.speed l) (Layer.elements l)
                s t H) as H1.
  destruct (updateElements _ _ _) as [es t1]; simpl in H1.
  specialize (IH s t1 H1). destruct (updateLayers ls t1); exact IH.
Qed.

Lemma tickStable_updateParallax s t :
  tickStable s t -> tickStable s (updateParallax t).
Proof.
  intros H. unfold updateParallax.
  pose proof (updateLayers_keeps tickStable tickStable_set_randomCalls
                (parallaxLayers t) s t H) as H1.
  destruct (updateLayers _ _); simpl in H1. auto with tick.
Qed.
Lemma fixed_updateParallax s t : fixed s t -> fixed s (updateParallax t).
Proof.
  intros H. unfold updateParallax.
  pose proof (updateLayers_keeps fixed fixed_set_randomCalls
                (parallaxLayers t) s t H) as H1.
  destruct (updateLayers _ _); simpl in H1. auto with fixed.
Qed.
#[export] Hint Resolve tickStable_updateParallax : tick.
#[export] Hint Resolve fixed_updateParallax : fixed.

(** The rest of the tick after the camera has advanced. *)
Lemma tickStable_after_advance s :
  gameState s = Playing -> tickStable (advanceCamera s) (update s).
Proof.
  intros H. unfold update. rewrite H.
  change (negb (GameState_eqb Playing Playing)) with false.
  cbv iota. tick_auto.
Qed.

Lemma fixed_update s t : fixed s t -> fixed s (update t).
Proof. unfold update. fixed_auto. Qed.
#[export] Hint Resolve fixed_update : fixed.

Lemma fixed_resizeCanvas s t : fixed s t -> fixed s (resizeCanvas t).
Proof. unfold resizeCanvas, measure. intros H. cbv zeta.
  destruct (_ || _); fixed_auto. Qed.
#[export] Hint Resolve fixed_resizeCanvas : fixed.

Lemma fixed_handle i s : fixed s (handle i s).
Proof. destruct i; simpl; fixed_auto. Qed.

(** ** The camera *)

Lemma iterate_succ {A : Type} (f : A -> A) n a :
  iterate (S n) f a = f (iterate n f a).
Proof.
  revert a. induction n as [|n IH]; intros a; [reflexivity|].
  change (iterate (S (S n)) f a) with (iterate (S n) f (f a)).
  rewrite IH. reflexivity.
Qed.

Lemma update_not_playing s : gameState s <> Playing -> update s = s.
Proof.
  intros H. unfold update.
  destruct (GameState_eqb (gameState s) Playing) eqn:E; [|reflexivity].
  apply GameState_eqb_eq in E. contradiction.
Qed.

Lemma update_cameraX s :
  gameState s = Playing -> cameraX (update s) = cameraX s + scrollSpeed.
Proof.
  intros H. destruct (tickStable_after_advance s H) as (A & _). rewrite A.
  now destruct s.
Qed.

Lemma update_cameraX_le s : cameraX s <= cameraX (update s).
Proof.
  destruct (GameState_eqb (gameState s) Playing) eqn:E.
  - apply GameState_eqb_eq in E. rewrite (update_cameraX s E).
    unfold scrollSpeed. lra.
  - rewrite update_not_playing; [lra|].
    intros H. apply GameState_eqb_eq in H. congruence.
Qed.

Lemma iterate_update_monotone n m s :
  (n <= m)%nat ->
  cameraX (iterate n update s) <= cameraX (iterate m update s).
Proof.
  induction 1 as [|m Hle IH]; [lra|].
  rewrite iterate_succ. eapply Qle_trans; [exact IH|apply update_cameraX_le].
Qed.

Lemma iterate_update_playing n s :
  (forall k, (k < n)%nat -> gameState (iterate k update s) = Playing) ->
  cameraX (iterate n update s) == cameraX s + Qnat n * scrollSpeed.
Proof.
  induction n as [|n IH]; intros H.
  - unfold Qnat, scrollSpeed, inject_Z. simpl. lra.
  - rewrite iterate_succ, update_cameraX by (apply H; lia).
    rewrite IH by (intros k Hk; apply H; lia).
    unfold Qnat, scrollSpeed.
    rewrite Nat2Z.inj_succ, <- Z.add_1_r, inject_Z_plus.
    change (inject_Z 1) with 1. lra.
Qed.

(** C5.  A tick that starts in [Playing] moves the camera by exactly the
    scroll speed, which is 5, and leaves [distance] equal to the floor of
    a tenth of the new camera position and [score] equal to [distance].
    Over any number of ticks the camera never moves back, and after [n]
    ticks that all started in [Playing] it has moved by [5 n]. *)
Theorem update_scrolls_camera (s : Game) :
  gameState s = Playing ->
  cameraX (update s) = cameraX s + scrollSpeed /\
  scrollSpeed = 5 /\
  distance (update s) = Math_floor (cameraX (update s) / 10) /\
  score (update s) = distance (update s) /\
  (forall n m, (n <= m)%nat ->
     cameraX (iterate n update s) <= cameraX (iterate m update s)) /\
  (forall n,
     (forall k, (k < n)%nat -> gameState (iterate k update s) = Playing) ->
     cameraX (iterate n update s) == cameraX s + Qnat n * 5).
Proof.
  intros H. destruct (tickStable_after_advance s H) as (A & B & C).
  repeat split.
  - now apply update_cameraX.
  - rewrite B, A. now destruct s.
  - rewrite C, B. now destruct s.
  - intros n m. apply iterate_update_monotone.
  - intros n. apply iterate_update_playing.
Qed.

Lemma update_scrolls_camera_witness :
  cameraX (update running) = cameraX running + scrollSpeed /\
  score (update running) = distance (update running).
Proof.
  destruct (update_scrolls_camera running) as (A & _ & _ & B & _).
  - vm_compute. reflexivity.
  - split; [exact A | exact B].
Defined.

(** ** Jumping *)

(** The audio prelude of [handleJumpStart] only adds to the call log. *)
Lemma resume_prelude s (b : bool) :
  exists es, (if b then resumeAudioContext s else s) = set_effects es s.
Proof.
  destruct b; unfold resumeAudioContext, emit.
  - destruct (audioContext s) as [[|]|]; eauto;
      exists (effects s); now destruct s.
  - exists (effects s); now destruct s.
Qed.

Lemma isOnGround_set_effects es s : isOnGround (set_effects es s) = isOnGround s.
Proof. now destruct s. Qed.

Lemma handleJumpStart_jumps s :
  gameState s = Playing ->
  isOnGround s = true ->
  Player.isJumping (player s) = false ->
  Player.velocityY (player (handleJumpStart s)) = jumpPower /\
  Player.isJumping (player (handleJumpStart s)) = true.
Proof.
  intros Hp Hg Hj. unfold handleJumpStart. cbv zeta.
  destruct (resume_prelude s
              (negb (audioContextReady s) &&
               match audioContext s with Some _ => true | None => false end))
    as [es ->].
  rewrite isOnGround_set_effects.
  replace (gameState (set_effects es s)) with Playing by now destruct s.
  replace (Player.isJumping (player (set_effects es s))) with false
    by now destruct s.
  rewrite Hg. simpl. unfold playJumpSound.
  split; destruct (negb _); now destruct s as [? ? ? []].
Qed.

(** C7.  In [Playing], with the player on the ground and not jumping,
    [handleJumpStart] sets the vertical velocity to the jump power, which
    is negative (-16), and sets [isJumping]. *)
Theorem handleJumpStart_impulse (s : Game) :
  gameState s = Playing ->
  isOnGround s = true ->
  Player.isJumping (player s) = false ->
  Player.velocityY (player (handleJumpStart s)) = jumpPower /\
  jumpPower < 0 /\
  Player.isJumping (player (handleJumpStart s)) = true.
Proof.
  intros Hp Hg Hj. unfold handleJumpStart. cbv zeta.
  destruct (resume_prelude s
              (negb (audioContextReady s) &&
               match audioContext s with Some _ => true | None => false end))
    as [es ->].
  rewrite isOnGround_set_effects.
  replace (gameState (set_effects es s)) with Playing by now destruct s.
  replace (Player.isJumping (player (set_effects es s))) with false
    by now destruct s.
  rewrite Hg. simpl. unfold playJumpSound.
  split; [|split; [reflexivity|]];
    destruct (negb _); now destruct s as [? ? ? []].
Qed.

Lemma handleJumpStart_impulse_witness :
  Player.velocityY (player (handleJumpStart running)) = -16 /\
  Player.isJumping (player (handleJumpStart running)) = true.
Proof.
  destruct (handleJumpStart_impulse running) as (A & _ & B);
    try (vm_compute; reflexivity).
  split; [exact A | exact B].
Defined.

(** ** Death *)

Lemma gameState_checkHighScore s :
  gameState (checkHighScore s) = gameState s.
Proof.
  unfold checkHighScore, saveHighScore, emit. cbv zeta.
  branches; now destruct s.
Qed.

Lemma gameState_death_particles n s :
  gameState (iterate n pushDeathParticle s) = gameState s.
Proof.
  revert s. induction n as [|n IH]; intros s; simpl; [reflexivity|].
  rewrite IH. now destruct s.
Qed.

Lemma gameState_die s : gameState (die s) = Dead.
Proof.
  unfold die. destruct (GameState_eqb (gameState s) Dead) eqn:E.
  - now apply GameState_eqb_eq.
  - cbv zeta. unfold showGameOverScreen, emit.
    transitivity (gameState (checkHighScore
      (iterate 20 pushDeathParticle (playDeathSound (set_gameState Dead s)))));
      [now destruct (checkHighScore _)|].
    rewrite gameState_checkHighScore, gameState_death_particles.
    unfold playDeathSound, emit. branches; now destruct s.
Qed.

Lemma die_dead s : gameState s = Dead -> die s = s.
Proof. intros H. unfold die. now rewrite H. Qed.

Lemma update_dead s : gameState s = Dead -> update s = s.
Proof. intros H. apply update_not_playing. congruence. Qed.

Lemma iterate_fixpoint {A : Type} (f : A -> A) a n :
  f a = a -> iterate n f a = a.
Proof. intros H. induction n as [|n IH]; simpl; [|rewrite H]; auto. Qed.

(** C8.  [die] is idempotent.  On a state that is already [Dead] it returns
    the state unchanged, call log, particles, storage and all; so do the
    frame tick and any number of ticks.  After any call of [die] the state
    is [Dead], hence a second call and all later ticks change nothing: the
    effects of dying happen once. *)
Theorem die_idempotent (s : Game) :
  (gameState s = Dead ->
   die s = s /\ update s = s /\ forall n, iterate n update s = s) /\
  gameState (die s) = Dead /\
  die (die s) = die s /\
  (forall n, iterate n update (die s) = die s) /\
  (forall n, die (iterate n update (die s)) = die s).
Proof.
  assert (D : forall t, gameState t = Dead ->
                        die t = t /\ update t = t /\
                        forall n, iterate n update t = t).
  { intros t H. split; [now apply die_dead|].
    split; [now apply update_dead|].
    intros n. apply iterate_fixpoint. now apply update_dead. }
  split; [apply D|].
  pose proof (gameState_die s) as H.
  destruct (D (die s) H) as (A & B & C).
  repeat split; auto. intros n. now rewrite C.
Qed.

Lemma die_idempotent_witness :
  die (die running) = die running /\
  effects (update (die running)) = effects (die running).
Proof.
  destruct (die_idempotent (die running)) as (A & _).
  destruct A as (B & C & _); [vm_compute; reflexivity|].
  split; [exact B | now rewrite C].
Defined.

(** *** The high score and the storage *)

Create HintDb store discriminated.

Lemma sameStore_refl s : sameStore s s.
Proof. split; reflexivity. Qed.

Lemma sameStore_trans s t u : sameStore s t -> sameStore t u -> sameStore s u.
Proof. intros (A & B) (A' & B'). split; congruence. Qed.

#[export] Hint Resolve sameStore_refl : store.

Lemma sameStore_set_player s t v :
  sameStore s t -> sameStore s (set_player v t).
Proof. intros (A & B). now destruct t. Qed.
Lemma sameStore_set_gameState s t v :
  sameStore s t -> sameStore s (set_gameState v t).
Proof. intros (A & B). now destruct t. Qed.
Lemma sameStore_set_cameraX s t v :
  sameStore s t -> sameStore s (set_cameraX v t).
Proof. intros (A & B). now destruct t. Qed.
Lemma sameStore_set_jumpHeld s t v :
  sameStore s t -> sameStore s (set_jumpHeld v t).
Proof. intros (A & B). now destruct t. Qed.
Lemma sameStore_set_jumpHeldTime s t v :
  sameStore s t -> sameStore s (set_jumpHeldTime v t).
Proof. intros (A & B). now destruct t. Qed.
Lemma sameStore_set_canvas s t v :
  sameStore s t -> sameStore s (set_canvas v t).
Proof. intros (A & B). now destruct t. Qed.
Lemma sameStore_set_particles s t v :
  sameStore s t -> sameStore s (set_particles v t).
Proof. intros (A & B). now destruct t. Qed.
Lemma sameStore_set_parallaxLayers s t v :
  sameStore s t -> sameStore s (set_parallaxLayers v t).
Proof. intros (A & B). now destruct t. Qed.
Lemma sameStore_set_audioContext s t v :
  sameStore s t -> sameStore s (set_audioContext v t).
Proof. intros (A & B). now destruct t. Qed.
Lemma sameStore_set_audioContextReady s t v :
  sameStore s t -> sameStore s (set_audioContextReady v t).
Proof. intros (A & B). now destruct t. Qed.
Lemma sameStore_set_score s t v :
  sameStore s t -> sameStore s (set_score v t).
Proof. intros (A & B). now destruct t. Qed.
Lemma sameStore_set_distance s t v :
  sameStore s t -> sameStore s (set_distance v t).
Proof. intros (A & B). now destruct t. Qed.
Lemma sameStore_set_randomCalls s t v :
  sameStore s t -> sameStore s (set_randomCalls v t).
Proof. intros (A & B). now destruct t. Qed.
Lemma sameStore_set_effects s t v :
  sameStore s t -> sameStore s (set_effects v t).
Proof. intros (A & B). now destruct t. Qed.

#[export] Hint Resolve sameStore_set_player sameStore_set_gameState sameStore_set_cameraX
  sameStore_set_jumpHeld sameStore_set_jumpHeldTime sameStore_set_canvas
  sameStore_set_particles sameStore_set_parallaxLayers sameStore_set_audioContext
  sameStore_set_audioContextReady sameStore_set_score sameStore_set_distance
  sameStore_set_randomCalls sameStore_set_effects : store.

Ltac store_auto := cbv zeta; branches; auto 40 with store.

Lemma sameStore_emit s t e : sameStore s t -> sameStore s (emit e t).
Proof. unfold emit. store_auto. Qed.
#[export] Hint Resolve sameStore_emit : store.

Lemma sameStore_playDeathSound s t :
  sameStore s t -> sameStore s (playDeathSound t).
Proof. unfold playDeathSound. store_auto. Qed.
Lemma sameStore_playJumpSound s t :
  sameStore s t -> sameStore s (playJumpSound t).
Proof. unfold playJumpSound. store_auto. Qed.
Lemma sameStore_startBackgroundMusic s t :
  sameStore s t -> sameStore s (startBackgroundMusic t).
Proof. unfold startBackgroundMusic. store_auto. Qed.
Lemma sameStore_resumeAudioContext s t :
  sameStore s t -> sameStore s (resumeAudioContext t).
Proof. unfold resumeAudioContext. store_auto. Qed.
Lemma sameStore_audioResumed s t :
  sameStore s t -> sameStore s (audioResumed t).
Proof. unfold audioResumed, startBackgroundMusic. store_auto. Qed.
Lemma sameStore_pushDeathParticle s t :
  sameStore s t -> sameStore s (pushDeathParticle t).
Proof. unfold pushDeathParticle, Math_random. store_auto. Qed.
Lemma sameStore_pushTrailParticle s t :
  sameStore s t -> sameStore s (pushTrailParticle t).
Proof. unfold pushTrailParticle, Math_random. store_auto. Qed.
#[export] Hint Resolve sameStore_playDeathSound sameStore_playJumpSound
  sameStore_startBackgroundMusic sameStore_resumeAudioContext
  sameStore_audioResumed sameStore_pushDeathParticle
  sameStore_pushTrailParticle : store.

Lemma sameStore_startGame s t : sameStore s t -> sameStore s (startGame t).
Proof. unfold startGame, hideStartScreen. store_auto. Qed.
#[export] Hint Resolve sameStore_startGame : store.
Lemma sameStore_restart s t : sameStore s t -> sameStore s (restart t).
Proof. unfold restart, hideGameOverScreen. store_auto. Qed.
Lemma sameStore_handleJumpEnd s t :
  sameStore s t -> sameStore s (handleJumpEnd t).
Proof. unfold handleJumpEnd. store_auto. Qed.
#[export] Hint Resolve sameStore_restart sameStore_handleJumpEnd : store.

Lemma sameStore_handleJumpStart s t :
  sameStore s t -> sameStore s (handleJumpStart t).
Proof.
  unfold handleJumpStart. cbv zeta. intros H.
  match goal with
  | |- sameStore s (match gameState ?u with _ => _ end) =>
      assert (H' : sameStore s u) by (destruct (_ && _); auto with store);
      generalize dependent u
  end.
  intros t' H'. branches; auto 40 with store.
Qed.
#[export] Hint Resolve sameStore_handleJumpStart : store.

Lemma sameStore_advanceCamera s t :
  sameStore s t -> sameStore s (advanceCamera t).
Proof. unfold advanceCamera. store_auto. Qed.

Lemma sameStore_movePlayer s t : sameStore s t -> sameStore s (movePlayer t).
Proof.
  intros H. unfold movePlayer, ceilingCollision, platformCollisions.
  assert (G : sameStore s (groundCollision (rotate (integrate t)))).
  { unfold groundCollision, rotate, integrate. store_auto. }
  revert G. generalize (groundCollision (rotate (integrate t))). intros g G.
  assert (P : sameStore s (fold_left platformCollision
                             (Level.platforms (level g)) g)).
  { apply fold_left_keeps; [|assumption].
    intros. unfold platformCollision. store_auto. }
  store_auto.
Qed.

Lemma sameStore_updateParticles s t :
  sameStore s t -> sameStore s (updateParticles t).
Proof. unfold updateParticles. store_auto. Qed.

Lemma sameStore_updateParallax s t :
  sameStore s t -> sameStore s (updateParallax t).
Proof.
  intros H. unfold updateParallax.
  pose proof (updateLayers_keeps sameStore sameStore_set_randomCalls
                (parallaxLayers t) s t H) as H1.
  destruct (updateLayers _ _); simpl in H1. auto with store.
Qed.
#[export] Hint Resolve sameStore_advanceCamera sameStore_movePlayer
  sameStore_updateParticles sameStore_updateParallax : store.

Lemma sameStore_resizeCanvas s t :
  sameStore s t -> sameStore s (resizeCanvas t).
Proof.
  unfold resizeCanvas, measure. intros H. cbv zeta.
  destruct (_ || _); store_auto.
Qed.
#[export] Hint Resolve sameStore_resizeCanvas : store.


(** *** Construction *)

Lemma pushElement_keeps (R : Game -> Game -> Prop) :
  (forall s t n, R s t -> R s (set_randomCalls n t)) ->
  forall i s acc, R s (snd acc) -> R s (snd (pushElement i acc)).
Proof.
  intros HR i s [es t] H. unfold pushElement, Math_random.
  cbn [snd] in *. auto.
Qed.

Lemma initLayers_keeps (R : Game -> Game -> Prop) :
  (forall s t n, R s t -> R s (set_randomCalls n t)) ->
  forall ls i s t, R s t -> R s (snd (initLayers i ls t)).
Proof.
  intros HR ls. induction ls as [|l ls IH]; intros i s t H;
    [exact H|].
  assert (H1 : forall n acc, R s (snd acc) ->
                 R s (snd (iterate n (pushElement i) acc))).
  { intros n. induction n as [|n IHn]; intros acc Hacc; [exact Hacc|].
    apply IHn. now apply pushElement_keeps. }
  specialize (H1 (15 + i * 5)%nat ([], t) H).
  cbn [initLayers]. cbv zeta.
  destruct (iterate (15 + i * 5) (pushElement i) ([], t)) as [es t1].
  cbn [snd] in H1.
  specialize (IH (S i) s t1 H1). destruct (initLayers (S i) ls t1) as [r t2].
  exact IH.
Qed.

Lemma fixed_initParallax s t : fixed s t -> fixed s (initParallax t).
Proof.
  intros H. unfold initParallax.
  pose proof (initLayers_keeps fixed fixed_set_randomCalls
                (parallaxLayers t) 0%nat s t H) as H1.
  destruct (initLayers _ _ _); cbn [snd] in H1. auto with fixed.
Qed.

Lemma sameStore_initParallax s t :
  sameStore s t -> sameStore s (initParallax t).
Proof.
  intros H. unfold initParallax.
  pose proof (initLayers_keeps sameStore sameStore_set_randomCalls
                (parallaxLayers t) 0%nat s t H) as H1.
  destruct (initLayers _ _ _); cbn [snd] in H1. auto with store.
Qed.

Lemma fixed_initAudio s t a : fixed s t -> fixed s (initAudio a t).
Proof. unfold initAudio. fixed_auto. Qed.
Lemma sameStore_initAudio s t a : sameStore s t -> sameStore s (initAudio a t).
Proof. unfold initAudio. store_auto. Qed.

Lemma sameStore_createLevel s : sameStore s (createLevel s).
Proof. destruct s. split; reflexivity. Qed.

Lemma construct_unfold c st audio rnd hidden :
  exists es,
    construct c st audio rnd hidden =
    let s := initAudio audio
               (initParallax (createLevel (beforeLevel c st rnd es))) in
    if hidden then s else update s.
Proof.
  unfold construct, measure. cbv zeta.
  destruct (_ || _); eexists; reflexivity.
Qed.

Lemma construct_fixed c st audio rnd hidden :
  exists es,
    fixed (createLevel (beforeLevel c st rnd es))
      (construct c st audio rnd hidden).
Proof.
  destruct (construct_unfold c st audio rnd hidden) as [es ->].
  exists es. cbv zeta.
  assert (F : fixed (createLevel (beforeLevel c st rnd es))
                (initAudio audio
                   (initParallax (createLevel (beforeLevel c st rnd es)))))
    by apply fixed_initAudio, fixed_initParallax, fixed_refl.
  destruct hidden; auto with fixed.
Qed.

(** The level and the player's box right after construction. *)
Lemma construct_built c st audio rnd hidden :
  let s := construct c st audio rnd hidden in
  Level.platforms (level s) = [] /\ Level.spikes (level s) = [] /\
  Level.groundHeight (level s) = 50 /\ Level.width (level s) = 4255 /\
  Player.x (player s) = 100 /\ Player.width (player s) = 30 /\
  Player.height (player s) = 30.
Proof.
  cbv zeta.
  destruct (construct_fixed c st audio rnd hidden)
    as (es & L & (P1 & P2 & P3) & _).
  rewrite L, P1, P2, P3. vm_compute. repeat split.
Qed.

(** ** Reachable states *)

Lemma reachable_fixed s :
  reachable s ->
  exists c st audio rnd hidden, fixed (construct c st audio rnd hidden) s.
Proof.
  induction 1 as [c st audio rnd hidden | i s _ (c & st & a & r & h & F)].
  - exists c, st, audio, rnd, hidden. apply fixed_refl.
  - exists c, st, a, r, h. eapply fixed_trans; [exact F|apply fixed_handle].
Qed.

Lemma reachable_built s :
  reachable s ->
  Level.platforms (level s) = [] /\ Level.spikes (level s) = [] /\
  Level.groundHeight (level s) = 50 /\ Level.width (level s) = 4255 /\
  Player.x (player s) = 100 /\ Player.width (player s) = 30 /\
  Player.height (player s) = 30.
Proof.
  intros H. destruct (reachable_fixed s H) as (c & st & a & r & h & F).
  destruct F as (L & (P1 & P2 & P3) & _).
  rewrite L, P1, P2, P3. apply construct_built.
Qed.

Lemma reachable_run inputs s : reachable s -> reachable (run inputs s).
Proof.
  revert s. induction inputs as [|i inputs IH]; intros s H; simpl; auto.
  apply IH. now constructor.
Qed.

(** ** Platforms and spikes *)

(** C9.  In every reachable state, the freshly constructed one included,
    the level has no platform and no spike.  So, in any state with that
    level, the platform loop of the tick returns the state as it is, the
    spike loop finds no hit, and [isOnGround] is the ground test alone. *)
Theorem level_has_no_platforms_or_spikes (s : Game) :
  reachable s ->
  Level.platforms (level s) = [] /\
  Level.spikes (level s) = [] /\
  (forall t, level t = level s ->
     platformCollisions t = t /\
     existsb (hitsSpike t) (Level.spikes (level t)) = false /\
     existsb (onPlatform t) (Level.platforms (level t)) = false /\
     isOnGround t =
       Qgeb (Player.y (player t) + Player.height (player t))
            (Player.groundY (player t) - 2)) /\
  movePlayer (advanceCamera s) =
    ceilingCollision (groundCollision (rotate (integrate (advanceCamera s)))).
Proof.
  intros H. destruct (reachable_built s H) as (P & S & _).
  assert (G : forall t, level t = level s ->
     platformCollisions t = t /\
     existsb (hitsSpike t) (Level.spikes (level t)) = false /\
     existsb (onPlatform t) (Level.platforms (level t)) = false /\
     isOnGround t =
       Qgeb (Player.y (player t) + Player.height (player t))
            (Player.groundY (player t) - 2)).
  { intros t E. unfold platformCollisions, isOnGround.
    rewrite E, P, S. simpl. repeat split. now destruct (Qgeb _ _). }
  repeat split; try assumption; try (now apply G).
  unfold movePlayer. f_equal. apply G.
  assert (F : fixed s (groundCollision (rotate (integrate (advanceCamera s)))))
    by auto 10 with fixed.
  apply F.
Qed.

Lemma level_has_no_platforms_or_spikes_witness :
  Level.platforms (level running) = [] /\ Level.spikes (level running) = [].
Proof.
  destruct (level_has_no_platforms_or_spikes running) as (A & B & _).
  - unfold running. apply (reachable_handle StartButton). apply reachable_construct.
  - split; [exact A | exact B].
Defined.


(** ** The fall test *)

Lemma logicalHeight_pos s : 0 < logicalHeight s.
Proof.
  unfold logicalHeight.
  destruct (Canvas.offsetHeight (canvas s)) as [|p]; simpl; [reflexivity|].
  unfold Qlt. simpl. lia.
Qed.

(** The ground clamp leaves the player at or above the ground line. *)
Lemma groundCollision_y s :
  0 <= Player.height (player s) ->
  Player.y (player (groundCollision s)) <= Player.groundY (player s) /\
  Player.groundY (player (groundCollision s)) = Player.groundY (player s) /\
  canvas (groundCollision s) = canvas s.
Proof.
  intros Hh. unfold groundCollision. cbv zeta.
  destruct (Qgeb _ _) eqn:E.
  - destruct s as [? ? ? []]; simpl. repeat split. lra.
  - apply Qgeb_false in E. repeat split. lra.
Qed.

(** Landing on a platform never lowers the player. *)
Lemma platformCollision_y s r :
  Player.y (player (platformCollision s r)) <= Player.y (player s) /\
  Player.groundY (player (platformCollision s r)) = Player.groundY (player s) /\
  canvas (platformCollision s r) = canvas s.
Proof.
  unfold platformCollision. cbv zeta.
  destruct (_ && _) eqn:E; [|repeat split; lra].
  destruct (Qle_bool _ _); [|repeat split; lra].
  rewrite !andb_true_iff in E. destruct E as ((((_ & _) & E) & _) & _).
  apply Qgtb_lt in E.
  destruct s as [? ? ? []]; simpl in *. repeat split. lra.
Qed.

Lemma platformCollisions_y s :
  Player.y (player (platformCollisions s)) <= Player.y (player s) /\
  Player.groundY (player (platformCollisions s)) = Player.groundY (player s) /\
  canvas (platformCollisions s) = canvas s.
Proof.
  unfold platformCollisions. generalize (Level.platforms (level s)).
  intros l. revert s. induction l as [|r l IH]; intros s; simpl.
  - repeat split. lra.
  - destruct (IH (platformCollision s r)) as (A & B & C).
    destruct (platformCollision_y s r) as (A' & B' & C').
    repeat split; try congruence. lra.
Qed.

Lemma ceilingCollision_y s :
  (Player.y (player (ceilingCollision s)) = Player.y (player s) \/
   Player.y (player (ceilingCollision s)) = 0) /\
  Player.groundY (player (ceilingCollision s)) = Player.groundY (player s) /\
  canvas (ceilingCollision s) = canvas s.
Proof.
  unfold ceilingCollision. cbv zeta. destruct (Qltb _ _).
  - destruct s as [? ? ? []]; simpl. auto.
  - auto.
Qed.

(** Before the ground clamp the tick changes neither the ground line, the
    player's height nor the canvas. *)
Lemma before_ground s :
  let t := rotate (integrate (advanceCamera s)) in
  Player.groundY (player t) = Player.groundY (player s) /\
  Player.height (player t) = Player.height (player s) /\
  canvas t = canvas s /\ level t = level s.
Proof.
  unfold rotate, integrate, advanceCamera. cbv zeta.
  destruct (Player.isJumping _); destruct s as [? ? ? []]; simpl; auto.
Qed.

Lemma logicalHeight_canvas s t : canvas t = canvas s ->
  logicalHeight t = logicalHeight s.
Proof. unfold logicalHeight. now intros ->. Qed.

(** After the three clamps the player is at or above the ground line, or
    at the ceiling. *)
Lemma movePlayer_y s :
  0 <= Player.height (player s) ->
  let t := movePlayer (advanceCamera s) in
  (Player.y (player t) <= Player.groundY (player s) \/
   Player.y (player t) = 0) /\
  logicalHeight t = logicalHeight s.
Proof.
  intros Hh. cbv zeta. unfold movePlayer.
  destruct (before_ground s) as (G0 & H0 & C0 & _).
  set (t0 := rotate (integrate (advanceCamera s))) in *.
  destruct (groundCollision_y t0) as (Y1 & G1 & C1); [now rewrite H0|].
  set (t1 := groundCollision t0) in *.
  destruct (platformCollisions_y t1) as (Y2 & G2 & C2).
  set (t2 := platformCollisions t1) in *.
  destruct (ceilingCollision_y t2) as ([Y3|Y3] & G3 & C3).
  - split; [left; rewrite Y3, <- G0; lra|].
    apply logicalHeight_canvas. congruence.
  - split; [now right|]. apply logicalHeight_canvas. congruence.
Qed.

(** C10.  Take a reachable state whose ground line was computed from the
    canvas height the tick reads: [groundY = logicalHeight - groundHeight -
    player height].  Then in a tick the ground clamp leaves the player at or
    above the ground line, which is above the bottom of the canvas
    ([groundY < logicalHeight]); when the fall test runs the player is
    still at or above the ground line or has been put at the ceiling
    [y = 0]; so [player.y > logicalHeight] is false and the tick is the tick
    without the fall branch: [die] is never called from it. *)
Theorem fall_off_screen_unreachable (s : Game) :
  reachable s ->
  Player.groundY (player s) ==
    logicalHeight s - Level.groundHeight (level s) - Player.height (player s) ->
  let t := movePlayer (advanceCamera s) in
  Player.y (player (groundCollision (rotate (integrate (advanceCamera s)))))
    <= Player.groundY (player s) /\
  Player.groundY (player s) < logicalHeight s /\
  (Player.y (player t) <= Player.groundY (player s) \/
   Player.y (player t) = 0) /\
  logicalHeight t = logicalHeight s /\
  fellOffScreen t = false /\
  update s =
    if negb (GameState_eqb (gameState s) Playing) then s
    else if existsb (hitsObstacle t) (Level.obstacles (level t)) then die t
    else if existsb (hitsSpike t) (Level.spikes (level t)) then die t
    else if reachedEnd t then win t
    else updateParallax (updateParticles t).
Proof.
  intros R G. cbv zeta.
  destruct (reachable_built s R) as (_ & _ & GH & _ & _ & _ & PH).
  assert (Hh : 0 <= Player.height (player s)) by (rewrite PH; lra).
  destruct (before_ground s) as (G0 & H0 & _).
  assert (Y1 : Player.y (player (groundCollision
                 (rotate (integrate (advanceCamera s)))))
               <= Player.groundY (player s)).
  { rewrite <- G0. apply groundCollision_y. now rewrite H0. }
  assert (GL : Player.groundY (player s) < logicalHeight s).
  { rewrite G, GH, PH. lra. }
  destruct (movePlayer_y s Hh) as (Y & L).
  assert (F : fellOffScreen (movePlayer (advanceCamera s)) = false).
  { unfold fellOffScreen. apply Qgtb_false. rewrite L.
    pose proof (logicalHeight_pos s). destruct Y as [Y|Y]; [lra|].
    rewrite Y. lra. }
  repeat split; try assumption.
  unfold update. cbv zeta. rewrite F. reflexivity.
Qed.

Lemma fall_off_screen_unreachable_witness :
  fellOffScreen (movePlayer (advanceCamera running)) = false.
Proof.
  destruct (fall_off_screen_unreachable running) as (_ & _ & _ & _ & A & _).
  - unfold running. apply (reachable_handle StartButton).
    apply reachable_construct.
  - vm_compute. reflexivity.
  - exact A.
Defined.


(** ** The high-score check *)

Lemma loadHighScoreFrom_replace st z :
  Storage.readable st = true ->
  loadHighScoreFrom
    (Storage.mk (Storage.readable st) (Storage.writable st)
       (Storage.replace highScoreKey (toString z) (Storage.items st)))
  = Num z.
Proof.
  intros Hr. unfold loadHighScoreFrom, Storage.getItem. simpl.
  rewrite Hr, lookup_replace.
  destruct (String.eqb (toString z) "") eqn:E.
  - apply String.eqb_eq in E. now apply toString_nonempty in E.
  - apply parseInt10_toString.
Qed.

Lemma sameCommit_refl s : sameCommit s s.
Proof. repeat split. Qed.

Lemma sameCommit_pushDeathParticle s t :
  sameCommit s t -> sameCommit s (pushDeathParticle t).
Proof. intros (A & (B & C) & D). now destruct t. Qed.

Lemma sameCommit_die_prefix s :
  sameCommit s
    (iterate 20 pushDeathParticle (playDeathSound (set_gameState Dead s))).
Proof.
  apply iterate_keeps; [apply sameCommit_pushDeathParticle|].
  unfold playDeathSound, emit. destruct (negb _); now destruct s.
Qed.

Lemma sameCommit_set_gameState s g : sameCommit s (set_gameState g s).
Proof. now destruct s. Qed.

(** What the check does, in terms of the state it starts from. *)
Lemma checkHighScore_gt s :
  gt_num (score s) (highScore s) = true ->
  highScore (checkHighScore s) = Num (score s) /\
  attemptedWrites (checkHighScore s) = toString (score s) :: attemptedWrites s /\
  storage (checkHighScore s) =
    (if Storage.writable (storage s)
     then Storage.mk (Storage.readable (storage s))
            (Storage.writable (storage s))
            (Storage.replace highScoreKey (toString (score s))
               (Storage.items (storage s)))
     else storage s).
Proof.
  intros H. unfold checkHighScore, saveHighScore, Storage.setItem, emit.
  rewrite H. cbv zeta.
  replace (Storage.writable (storage _)) with (Storage.writable (storage s))
    by now destruct s.
  destruct (Storage.writable (storage s)); now destruct s.
Qed.

Lemma checkHighScore_le s :
  gt_num (score s) (highScore s) = false -> checkHighScore s = s.
Proof. intros H. unfold checkHighScore. now rewrite H. Qed.

Lemma storeInvariant_sameStore s t :
  storeInvariant s -> sameStore s t -> storeInvariant t.
Proof.
  unfold storeInvariant, coherent. intros I (A & B). rewrite A, B. exact I.
Qed.

Lemma storeInvariant_checkHighScore s :
  storeInvariant s -> storeInvariant (checkHighScore s).
Proof.
  intros I. destruct (gt_num (score s) (highScore s)) eqn:E.
  - destruct (checkHighScore_gt s E) as (A & _ & C).
    unfold storeInvariant, coherent. rewrite A, C.
    destruct (Storage.writable (storage s)) eqn:W; simpl.
    + intros Hr _. symmetry. now apply loadHighScoreFrom_replace.
    + congruence.
  - now rewrite checkHighScore_le.
Qed.

Lemma storeInvariant_die s : storeInvariant s -> storeInvariant (die s).
Proof.
  intros I. unfold die. destruct (GameState_eqb _ _); [assumption|].
  cbv zeta. unfold showGameOverScreen.
  eapply storeInvariant_sameStore; [|apply sameStore_emit, sameStore_refl].
  apply storeInvariant_checkHighScore.
  eapply storeInvariant_sameStore; [exact I|].
  apply (sameCommit_die_prefix s).
Qed.

Lemma storeInvariant_win s : storeInvariant s -> storeInvariant (win s).
Proof.
  intros I. unfold win. cbv zeta. apply storeInvariant_checkHighScore.
  eapply storeInvariant_sameStore; [exact I|]. auto with store.
Qed.

Lemma storeInvariant_update s : storeInvariant s -> storeInvariant (update s).
Proof.
  intros I. unfold update. destruct (negb _); [assumption|]. cbv zeta.
  assert (T : storeInvariant (movePlayer (advanceCamera s))).
  { eapply storeInvariant_sameStore; [exact I|]. auto with store. }
  branches; auto using storeInvariant_die, storeInvariant_win.
  eapply storeInvariant_sameStore; [exact T|]. auto with store.
Qed.

Lemma storeInvariant_handle i s :
  storeInvariant s -> storeInvariant (handle i s).
Proof.
  intros I. destruct i; simpl;
    try (eapply storeInvariant_sameStore; [exact I|]; auto with store; fail).
  - destruct hidden; [assumption|now apply storeInvariant_update].
  - eapply storeInvariant_sameStore; [exact I|].
    destruct (gameState s); auto with store.
Qed.

Lemma storeInvariant_construct c st audio rnd hidden :
  storeInvariant (construct c st audio rnd hidden).
Proof.
  destruct (construct_unfold c st audio rnd hidden) as [es ->]. cbv zeta.
  assert (I : storeInvariant
                (initAudio audio
                   (initParallax (createLevel (beforeLevel c st rnd es))))).
  { eapply storeInvariant_sameStore;
      [|apply sameStore_initAudio, sameStore_initParallax,
          sameStore_createLevel].
    unfold storeInvariant, coherent. reflexivity. }
  destruct hidden; [assumption|now apply storeInvariant_update].
Qed.

Lemma reachable_storeInvariant s : reachable s -> storeInvariant s.
Proof.
  induction 1; [apply storeInvariant_construct|now apply storeInvariant_handle].
Qed.


Lemma gt_num_false_max z h : gt_num z (Num h) = false -> Z.max h z = h.
Proof. simpl. intros H. apply Z.ltb_ge in H. lia. Qed.

Lemma gt_num_true_max z h : gt_num z (Num h) = true -> Z.max h z = z.
Proof. simpl. intros H. apply Z.ltb_lt in H. lia. Qed.

Lemma checkHighScore_committed s u :
  sameCommit s u -> committed s (checkHighScore u).
Proof.
  intros (Sc & (Hs & St) & Aw). unfold committed.
  rewrite <- Sc, <- Hs, <- St, <- Aw. split; [|split].
  - intros G. destruct (checkHighScore_gt u G) as (A & B & C).
    repeat split; try assumption.
    intros W. rewrite C, W. simpl. apply lookup_replace.
  - intros G. rewrite (checkHighScore_le u G). repeat split.
  - rewrite Hs, St. intros R Hr Hw.
    pose proof (reachable_storeInvariant s R Hr Hw) as Co.
    unfold coherent in Co. split; [exact Co|]. intros h Hh.
    rewrite <- Hs, <- St in *. rewrite Hh in Co.
    destruct (gt_num (score u) (highScore u)) eqn:G.
    + destruct (checkHighScore_gt u G) as (_ & _ & C). rewrite C, Hw.
      rewrite Co in G. rewrite (gt_num_true_max _ _ G).
      now apply loadHighScoreFrom_replace.
    + rewrite (checkHighScore_le u G), Hh.
      rewrite Co in G. now rewrite (gt_num_false_max _ _ G).
Qed.

Lemma committed_showGameOverScreen s t :
  committed s t -> committed s (showGameOverScreen t).
Proof.
  unfold committed, showGameOverScreen, emit, attemptedWrites.
  intros H. destruct t. simpl in *. exact H.
Qed.

(** C4.  The high-score check of [die] (when the state is not yet [Dead])
    and of [win].  If the score exceeds the remembered high score, the game
    asks the storage to keep exactly the score's decimal string, and a
    writable storage then holds it; otherwise nothing is written and the
    storage is the same.  In a reachable state whose storage can be read
    and written the remembered high score is the stored one, and after the
    check the stored value is the maximum of the value stored before and
    the score. *)
Theorem highScore_commit (s : Game) :
  (gameState s <> Dead -> committed s (die s)) /\ committed s (win s).
Proof.
  split.
  - intros H. unfold die.
    destruct (GameState_eqb (gameState s) Dead) eqn:E;
      [apply GameState_eqb_eq in E; contradiction|].
    cbv zeta. apply committed_showGameOverScreen, checkHighScore_committed.
    apply sameCommit_die_prefix.
  - unfold win. cbv zeta. apply checkHighScore_committed.
    apply sameCommit_set_gameState.
Qed.

Lemma reachable_iterate i n s :
  reachable s -> reachable (iterate n (handle i) s).
Proof.
  revert s. induction n as [|n IH]; intros s H; simpl; auto.
  apply IH. now constructor.
Qed.

Lemma highScore_commit_witness :
  attemptedWrites (die midRun) = ["10"] /\
  loadHighScoreFrom (storage (die midRun)) = Num 10.
Proof.
  destruct (highScore_commit midRun) as (A & _).
  destruct A as (B & _ & C); [vm_compute; discriminate|].
  destruct B as (_ & B & _); [vm_compute; reflexivity|].
  destruct C as (_ & C); try (vm_compute; reflexivity).
  - unfold midRun, running. apply reachable_iterate.
    apply (reachable_handle StartButton). apply reachable_construct.
  - split; [exact B|]. apply (C 0%Z). vm_compute. reflexivity.
Defined.

(** C4 as stated fails on a storage that refuses writes.  [firstRun] is
    reachable with the score 37 above the stored 3: [die] asks for "37" to
    be written, the storage refuses, and the stored value stays 3, not the
    maximum.  [secondRun] is reachable, again with the score 37 above the
    stored 3, but the remembered high score is now 37: [die] does not
    write at all. *)
Lemma highScore_commit_refused :
  (reachable firstRun /\ gameState firstRun = Playing /\
   score firstRun = 37%Z /\
   loadHighScoreFrom (storage firstRun) = Num 3 /\
   attemptedWrites (die firstRun) = ["37"] /\
   loadHighScoreFrom (storage (die firstRun)) = Num 3) /\
  (reachable secondRun /\ gameState secondRun = Playing /\
   score secondRun = 37%Z /\
   loadHighScoreFrom (storage secondRun) = Num 3 /\
   highScore secondRun = Num 37 /\
   attemptedWrites (die secondRun) = attemptedWrites secondRun /\
   loadHighScoreFrom (storage (die secondRun)) = Num 3).
Proof.
  assert (R1 : reachable firstRun)
    by (unfold firstRun; apply reachable_run, reachable_construct).
  assert (R2 : reachable secondRun)
    by (unfold secondRun; apply reachable_run, R1).
  split; (split; [assumption|]); vm_compute; repeat split.
Qed.


(** ** Loading the high score *)

(** What [loadHighScore] does return 0 for: a storage that throws, a
    missing item and an empty item; and it reads back what [saveHighScore]
    wrote. *)
Lemma loadHighScore_defaults st :
  (Storage.readable st = false -> loadHighScoreFrom st = Num 0) /\
  (Storage.readable st = true ->
   Storage.lookup highScoreKey (Storage.items st) = None ->
   loadHighScoreFrom st = Num 0) /\
  (Storage.readable st = true ->
   Storage.lookup highScoreKey (Storage.items st) = Some "" ->
   loadHighScoreFrom st = Num 0) /\
  (forall z, Storage.readable st = true ->
   Storage.lookup highScoreKey (Storage.items st) = Some (toString z) ->
   loadHighScoreFrom st = Num z).
Proof.
  unfold loadHighScoreFrom, Storage.getItem.
  repeat split; intros; repeat match goal with H : _ = _ |- _ => rewrite H end;
    try reflexivity.
  destruct (String.eqb (toString z) "") eqn:E.
  - apply String.eqb_eq in E. now apply toString_nonempty in E.
  - apply parseInt10_toString.
Qed.

(** C3, at the failing input.  With the item ["abc"] in the storage
    [loadHighScore] returns NaN, not an integer.  A game constructed on
    that storage remembers NaN as its high score, and since no score is
    greater than NaN a crash with score 10 writes nothing: the item stays
    ["abc"]. *)
Theorem loadHighScore_corrupted :
  loadHighScoreFrom corruptedStorage = NaN /\
  (let s := construct sampleCanvas corruptedStorage None (fun _ => 1 # 2) false
   in
   highScore s = NaN /\
   let s' := die (iterate 20 (handle (Frame false)) (startGame s)) in
   score s' = 10%Z /\ highScore s' = NaN /\ storage s' = corruptedStorage /\
   attemptedWrites s' = []).
Proof. vm_compute. repeat split. Qed.


(** ** The end of the level *)

Lemma reachedEnd_movePlayer s :
  reachedEnd (movePlayer (advanceCamera s)) =
  Qgeb (cameraX s + scrollSpeed) (Level.width (level s)).
Proof.
  unfold reachedEnd.
  destruct (tickStable_movePlayer _ _ (tickStable_refl (advanceCamera s)))
    as (A & _).
  destruct (fixed_movePlayer _ _ (fixed_refl (advanceCamera s))) as (L & _).
  rewrite A, L. now destruct s.
Qed.

Lemma gameState_win s : gameState (win s) = Win.
Proof.
  unfold win. cbv zeta. rewrite gameState_checkHighScore. now destruct s.
Qed.

(** The obstacles of the authored level all end at or left of 3917. *)
Lemma construct_obstacles c st audio rnd hidden :
  forallb (endsBefore 3917)
    (Level.obstacles (level (construct c st audio rnd hidden))) = true.
Proof.
  destruct (construct_fixed c st audio rnd hidden) as (es & L & _).
  rewrite L. vm_compute. reflexivity.
Qed.

Lemma reachable_obstacles s :
  reachable s -> forallb (endsBefore 3917) (Level.obstacles (level s)) = true.
Proof.
  intros H. destruct (reachable_fixed s H) as (c & st & a & r & h & F).
  destruct F as (L & _). rewrite L. apply construct_obstacles.
Qed.

(** Past the end of the authored level every obstacle is left of the
    player. *)
Lemma no_obstacle_at_level_end s t :
  reachable s -> level t = level s ->
  Player.x (player t) = Player.x (player s) ->
  reachedEnd t = true ->
  existsb (hitsObstacle t) (Level.obstacles (level t)) = false.
Proof.
  intros R L X E. unfold reachedEnd in E. apply Qgeb_le in E.
  destruct (reachable_built s R) as (_ & _ & _ & W & PX & _).
  rewrite L, W in E. rewrite L.
  pose proof (reachable_obstacles s R) as O.
  induction (Level.obstacles (level s)) as [|o os IH]; [reflexivity|].
  simpl in O. apply andb_true_iff in O. destruct O as (O1 & O2).
  simpl. rewrite (IH O2), orb_false_r.
  unfold hitsObstacle. cbv zeta. apply not_true_iff_false.
  rewrite checkCollision_spec. rewrite X, PX.
  apply Qle_bool_iff in O1. intros (A & _). lra.
Qed.

Lemma update_playing s :
  gameState s = Playing ->
  update s =
    let t := movePlayer (advanceCamera s) in
    if existsb (hitsObstacle t) (Level.obstacles (level t)) then die t
    else if existsb (hitsSpike t) (Level.spikes (level t)) then die t
    else if fellOffScreen t then die t
    else if reachedEnd t then win t
    else updateParallax (updateParticles t).
Proof. intros H. unfold update. rewrite H. reflexivity. Qed.

Lemma update_at_end s :
  gameState s = Playing ->
  Qgeb (cameraX s + scrollSpeed) (Level.width (level s)) = true ->
  update s =
    let t := movePlayer (advanceCamera s) in
    if existsb (hitsObstacle t) (Level.obstacles (level t)) then die t
    else if existsb (hitsSpike t) (Level.spikes (level t)) then die t
    else if fellOffScreen t then die t
    else win t.
Proof.
  intros P E. rewrite <- reachedEnd_movePlayer in E.
  rewrite (update_playing s P). cbv zeta. rewrite E. reflexivity.
Qed.

(** C2, as the code has it.  Take a tick that starts in [Playing] and whose
    advance brings the camera to the level's width or beyond.  The obstacle
    test, the spike test and the fall test run first, in that order, on the
    player as moved by this tick: if one of them fires the state becomes
    [Dead]; if none does the tick is [win] and the state becomes [Win].  In
    a reachable state no obstacle and no spike overlaps the player at the
    end of the level, so there the tick ends in [Win] unless the fall test
    fires. *)
Theorem update_at_level_end (s : Game) :
  gameState s = Playing ->
  Qgeb (cameraX s + scrollSpeed) (Level.width (level s)) = true ->
  let t := movePlayer (advanceCamera s) in
  let hit := existsb (hitsObstacle t) (Level.obstacles (level t)) ||
             existsb (hitsSpike t) (Level.spikes (level t)) ||
             fellOffScreen t in
  (hit = true -> update s = die t /\ gameState (update s) = Dead) /\
  (hit = false -> update s = win t /\ gameState (update s) = Win) /\
  (reachable s ->
   existsb (hitsObstacle t) (Level.obstacles (level t)) = false /\
   existsb (hitsSpike t) (Level.spikes (level t)) = false /\
   (fellOffScreen t = false -> gameState (update s) = Win)).
Proof.
  intros P E. cbv zeta.
  pose proof (update_at_end s P E) as U. cbv zeta in U.
  rewrite <- reachedEnd_movePlayer in E.
  assert (F : fixed s (movePlayer (advanceCamera s))) by auto 10 with fixed.
  revert U E F. generalize (movePlayer (advanceCamera s)). intros t U E F.
  split; [|split].
  - intros H. rewrite U.
    destruct (existsb (hitsObstacle t) _);
      [split; [reflexivity|apply gameState_die]|].
    destruct (existsb (hitsSpike t) _);
      [split; [reflexivity|apply gameState_die]|].
    cbn [orb] in H. rewrite H. split; [reflexivity|apply gameState_die].
  - intros H. rewrite U.
    apply orb_false_iff in H. destruct H as (H & H3).
    apply orb_false_iff in H. destruct H as (H1 & H2).
    rewrite H1, H2, H3. split; [reflexivity|apply gameState_win].
  - intros R. destruct F as (L & (X & _) & _).
    assert (H1 : existsb (hitsObstacle t) (Level.obstacles (level t)) = false).
    { exact (no_obstacle_at_level_end s t R L X E). }
    assert (H2 : existsb (hitsSpike t) (Level.spikes (level t)) = false).
    { destruct (reachable_built s R) as (_ & S & _). now rewrite L, S. }
    repeat split; try assumption.
    intros H3. rewrite U, H1, H2, H3. apply gameState_win.
Qed.

Lemma update_at_level_end_witness :
  gameState (update lastTick) = Win /\ gameState (update blockedEnd) = Dead.
Proof.
  split.
  - destruct (update_at_level_end lastTick) as (_ & A & _).
    + vm_compute. reflexivity.
    + vm_compute. reflexivity.
    + apply A. vm_compute. reflexivity.
  - destruct (update_at_level_end blockedEnd) as (A & _).
    + vm_compute. reflexivity.
    + vm_compute. reflexivity.
    + apply A. vm_compute. reflexivity.
Defined.

(** C2 as stated fails: [blockedEnd] is [Playing], the advance of its tick
    brings the camera to the level's width, the player overlaps an obstacle
    there, and the tick ends in [Dead], not in [Win]. *)
Lemma update_dead_at_level_end :
  gameState blockedEnd = Playing /\
  cameraX (advanceCamera blockedEnd) == Level.width (level blockedEnd) /\
  reachedEnd (movePlayer (advanceCamera blockedEnd)) = true /\
  existsb (hitsObstacle (movePlayer (advanceCamera blockedEnd)))
    (Level.obstacles (level blockedEnd)) = true /\
  gameState (update blockedEnd) = Dead /\
  gameState (update blockedEnd) <> Win.
Proof. vm_compute. repeat split; discriminate. Qed.

(** ** The source text of [update] *)

(** C1.  The body of [update] declares [const logicalHeight] twice in its
    own statement list, on lines 520 and 582, and that is its only early
    error; the other four operations have none.  The script therefore has
    an early error, it is rejected before it runs, and none of [update],
    [handleJumpStart], [die], [win] and [startGame] can be called. *)
Theorem update_declares_logicalHeight_twice :
  functionErrors update_body = [("logicalHeight", 520%nat, 582%nat)] /\
  In ("logicalHeight", 520%nat) (declared update_body) /\
  In ("logicalHeight", 582%nat) (declared update_body) /\
  functionErrors handleJumpStart_body = [] /\
  functionErrors startGame_body = [] /\
  functionErrors die_body = [] /\
  functionErrors win_body = [] /\
  scriptErrors <> [] /\
  (forall name, callable name = false) /\
  map fst methods = ["handleJumpStart"; "update"; "startGame"; "die"; "win"].
Proof.
  repeat split; try reflexivity.
  - simpl. tauto.
  - simpl. tauto.
  - discriminate.
Qed.

(** * Further properties of the engine *)

(** ** The score store (game.js, [loadHighScore] / [saveHighScore]) *)

Lemma lookup_replace_other k k' v l :
  k' <> k -> Storage.lookup k' (Storage.replace k v l) = Storage.lookup k' l.
Proof.
  intros N. induction l as [|[k0 v0] l IH]; simpl.
  - destruct (String.eqb k' k) eqn:E; [apply String.eqb_eq in E; contradiction|].
    reflexivity.
  - destruct (String.eqb k k0) eqn:E; simpl.
    + apply String.eqb_eq in E. subst k0.
      destruct (String.eqb k' k) eqn:E'; [apply String.eqb_eq in E'; contradiction|].
      reflexivity.
    + destruct (String.eqb k' k0); [reflexivity|exact IH].
Qed.

Lemma storage_saveHighScore z s :
  storage (saveHighScore z s) =
    if Storage.writable (storage s)
    then Storage.mk (Storage.readable (storage s)) (Storage.writable (storage s))
           (Storage.replace highScoreKey (toString z) (Storage.items (storage s)))
    else storage s.
Proof.
  unfold saveHighScore, Storage.setItem, emit. cbv zeta.
  replace (Storage.writable (storage _)) with (Storage.writable (storage s))
    by now destruct s.
  destruct (Storage.writable (storage s)); now destruct s.
Qed.

(** X1.  Saving then loading gives back the saved number when the storage
    can be read and written, whatever was stored before: the last write
    wins, a lower score overwrites a higher one.  Items under other keys
    are untouched. *)
Theorem save_then_load (s : Game) (a z : Z) :
  Storage.readable (storage s) = true ->
  Storage.writable (storage s) = true ->
  loadHighScore (saveHighScore z s) = Num z /\
  loadHighScore (saveHighScore z (saveHighScore a s)) = Num z /\
  (forall k, k <> highScoreKey ->
     Storage.getItem (storage (saveHighScore z s)) k =
     Storage.getItem (storage s) k).
Proof.
  intros Hr Hw.
  assert (L : forall t y, Storage.readable (storage t) = true ->
                          Storage.writable (storage t) = true ->
                          loadHighScore (saveHighScore y t) = Num y).
  { intros t y Hr' Hw'. unfold loadHighScore.
    rewrite storage_saveHighScore, Hw'. now apply loadHighScoreFrom_replace. }
  split; [now apply L|]. split.
  - apply L; rewrite storage_saveHighScore, Hw; cbn [Storage.readable Storage.writable]; auto.
  - intros k N. rewrite storage_saveHighScore, Hw.
    unfold Storage.getItem. simpl. rewrite Hr.
    now rewrite lookup_replace_other.
Qed.

Lemma save_then_load_witness :
  loadHighScore (saveHighScore 10 (saveHighScore 42 running)) = Num 10.
Proof.
  destruct (save_then_load running 42 10) as (_ & A & _).
  - vm_compute. reflexivity.
  - vm_compute. reflexivity.
  - exact A.
Defined.

(** X2.  A storage that refuses the write: [saveHighScore] swallows the
    exception.  The storage and every field of the game stay as they were,
    only the call is on record, and a later load returns what it returned
    before. *)
Theorem save_refused (s : Game) (z : Z) :
  Storage.writable (storage s) = false ->
  saveHighScore z s = emit (SetItem highScoreKey (toString z)) s /\
  storage (saveHighScore z s) = storage s /\
  loadHighScore (saveHighScore z s) = loadHighScore s.
Proof.
  intros Hw.
  assert (E : saveHighScore z s = emit (SetItem highScoreKey (toString z)) s).
  { unfold saveHighScore, Storage.setItem. cbv zeta.
    replace (Storage.writable (storage (emit _ s)))
      with (Storage.writable (storage s)) by now destruct s.
    now rewrite Hw. }
  rewrite E. unfold loadHighScore. repeat split; now destruct s.
Qed.

Lemma save_refused_witness :
  loadHighScore
    (saveHighScore 42 (set_storage (Storage.mk true false []) running))
  = Num 0.
Proof.
  destruct (save_refused (set_storage (Storage.mk true false []) running) 42)
    as (_ & _ & A).
  - reflexivity.
  - rewrite A. reflexivity.
Defined.

(** X3.  What [loadHighScore] returns without parsing: 0 when reading the
    storage throws, when the item is missing and when it is the empty
    string; and for an item written by [toString] the number written. *)
Theorem loadHighScore_fallbacks (st : Storage.t) (z : Z) :
  (Storage.readable st = false -> loadHighScoreFrom st = Num 0) /\
  (Storage.readable st = true ->
   (Storage.lookup highScoreKey (Storage.items st) = None ->
    loadHighScoreFrom st = Num 0) /\
   (Storage.lookup highScoreKey (Storage.items st) = Some "" ->
    loadHighScoreFrom st = Num 0) /\
   (Storage.lookup highScoreKey (Storage.items st) = Some (toString z) ->
    loadHighScoreFrom st = Num z)).
Proof.
  destruct (loadHighScore_defaults st) as (A & B & C & D).
  split; [exact A|]. intros Hr. repeat split; auto.
Qed.

Lemma loadHighScore_fallbacks_witness :
  loadHighScoreFrom (Storage.mk false true [(highScoreKey, "42")]) = Num 0 /\
  loadHighScoreFrom (Storage.mk true true [("other", "7")]) = Num 0.
Proof.
  split.
  - destruct (loadHighScore_fallbacks
                (Storage.mk false true [(highScoreKey, "42")]) 0) as (A & _).
    apply A. reflexivity.
  - destruct (loadHighScore_fallbacks
                (Storage.mk true true [("other", "7")]) 0) as (_ & B).
    destruct B as (B & _); [reflexivity|]. apply B. reflexivity.
Defined.

(** ** Starting and restarting (game.js, [startGame], [restart]) *)

Lemma startGame_fields s :
  gameState s <> Playing ->
  let t := startGame s in
  gameState t = Playing /\ cameraX t = 0 /\ score t = 0%Z /\
  distance t = 0%Z /\ particles t = [] /\
  player t =
    Player.set_rotation 0
      (Player.set_isJumping false
         (Player.set_velocityY 0
            (Player.set_y (Player.groundY (player s)) (player s)))) /\
  highScore t = highScore s /\ storage t = storage s /\
  level t = level s /\ canvas t = canvas s /\
  jumpHeld t = jumpHeld s /\ jumpHeldTime t = jumpHeldTime s.
Proof.
  intros H. cbv zeta. unfold startGame.
  destruct (GameState_eqb (gameState s) Playing) eqn:E;
    [apply GameState_eqb_eq in E; contradiction|].
  unfold hideStartScreen, startBackgroundMusic, emit, audioUsable. cbv zeta.
  destruct s as [? ? ? [] ? ? ? ? ? [a|] r]; cbn; try destruct r; cbn;
    repeat split.
Qed.

Lemma restart_startGame s :
  exists es, restart s = set_effects es (startGame s).
Proof. unfold restart, hideGameOverScreen, emit. eauto. Qed.

Lemma new_run_fields (s : Game) :
  (gameState s <> Playing ->
   forall t, t = startGame s \/ t = restart s ->
     gameState t = Playing /\ cameraX t = 0 /\ score t = 0%Z /\
     distance t = 0%Z /\ particles t = [] /\
     Player.y (player t) = Player.groundY (player s) /\
     Player.velocityY (player t) = 0 /\
     Player.isJumping (player t) = false /\
     Player.rotation (player t) = 0 /\
     Player.groundY (player t) = Player.groundY (player s) /\
     Player.rotationSpeed (player t) = Player.rotationSpeed (player s) /\
     highScore t = highScore s /\ storage t = storage s /\
     level t = level s /\
     jumpHeld t = jumpHeld s /\ jumpHeldTime t = jumpHeldTime s) /\
  (gameState s = Playing -> startGame s = s).
Proof.
  split.
  - intros H t Ht.
    destruct (startGame_fields s H)
      as (A1 & A2 & A3 & A4 & A5 & A6 & A7 & A8 & A9 & A10 & A11 & A12).
    assert (P : player t = player (startGame s) /\
                gameState t = gameState (startGame s) /\
                cameraX t = cameraX (startGame s) /\
                score t = score (startGame s) /\
                distance t = distance (startGame s) /\
                particles t = particles (startGame s) /\
                highScore t = highScore (startGame s) /\
                storage t = storage (startGame s) /\
                level t = level (startGame s) /\
                jumpHeld t = jumpHeld (startGame s) /\
                jumpHeldTime t = jumpHeldTime (startGame s)).
    { destruct Ht as [->| ->]; [repeat split|].
      destruct (restart_startGame s) as [es ->].
      destruct (startGame s); repeat split. }
    destruct P as (P1 & P2 & P3 & P4 & P5 & P6 & P7 & P8 & P9 & P10 & P11).
    rewrite P1, P2, P3, P4, P5, P6, P7, P8, P9, P10, P11, A6.
    destruct (player s); repeat split; assumption.
  - intros H. unfold startGame. now rewrite H.
Qed.

(** X4.  From any state but [Playing], [startGame] and [restart] begin a
    new run: the state is [Playing], the camera, the score and the distance
    are 0, there are no particles, the player rests on the ground line with
    no vertical speed, not jumping and not rotated.  The high score, the
    storage and the level are kept; so are the jump-held flag, its counter
    and the spin rate, which a new run inherits.  In [Playing],
    [startGame] changes nothing. *)
Theorem restart_resets (s : Game) :
  (gameState s <> Playing ->
   forall t, t = startGame s \/ t = restart s ->
     gameState t = Playing /\ cameraX t = 0 /\ score t = 0%Z /\
     distance t = 0%Z /\ particles t = [] /\
     Player.y (player t) = Player.groundY (player s) /\
     Player.velocityY (player t) = 0 /\
     Player.isJumping (player t) = false /\
     Player.rotation (player t) = 0 /\
     Player.groundY (player t) = Player.groundY (player s) /\
     Player.rotationSpeed (player t) = Player.rotationSpeed (player s) /\
     highScore t = highScore s /\ storage t = storage s /\
     level t = level s /\
     jumpHeld t = jumpHeld s /\ jumpHeldTime t = jumpHeldTime s) /\
  (gameState s = Playing -> startGame s = s).
Proof. exact (new_run_fields s). Qed.

Lemma restart_resets_witness :
  gameState (restart crashed) = Playing /\ cameraX (restart crashed) = 0 /\
  particles (restart crashed) = [].
Proof.
  destruct (restart_resets crashed) as (A & _).
  destruct (A ltac:(vm_compute; discriminate) (restart crashed)
              (or_intror eq_refl))
    as (B & C & _ & _ & D & _).
  repeat split; assumption.
Defined.

(** ** The jump key (game.js, [handleJumpStart], [handleJumpEnd]) *)

Lemma handleJumpStart_prelude s :
  exists es,
    handleJumpStart s =
    let s := set_effects es s in
    match gameState s with
    | Start => startGame s
    | Dead => restart s
    | Win => s
    | Playing =>
        if negb (Player.isJumping (player s)) && isOnGround s then
          let s := set_player (Player.set_velocityY jumpPower (player s)) s in
          let s := set_player (Player.set_isJumping true (player s)) s in
          let s := set_jumpHeld true s in
          let s := set_jumpHeldTime 0 s in
          let s := set_player (Player.set_rotationSpeed 15 (player s)) s in
          playJumpSound s
        else if Player.isJumping (player s) && jumpHeld s then
          let s := set_jumpHeldTime (jumpHeldTime s + 1) s in
          if Qltb (jumpHeldTime s) (maxJumpHold / 16) then
            set_player
              (Player.set_velocityY
                 (Player.velocityY (player s) + holdJumpBonus) (player s)) s
          else s
        else s
    end.
Proof.
  unfold handleJumpStart.
  destruct (resume_prelude s
              (negb (audioContextReady s) &&
               match audioContext s with Some _ => true | None => false end))
    as [es E].
  exists es. cbv zeta. rewrite E. reflexivity.
Qed.

Lemma handleJumpStart_by_state (s : Game) :
  (gameState s = Start \/ gameState s = Dead ->
   gameState (handleJumpStart s) = Playing /\
   cameraX (handleJumpStart s) = 0 /\
   score (handleJumpStart s) = 0%Z /\
   Player.y (player (handleJumpStart s)) = Player.groundY (player s) /\
   Player.velocityY (player (handleJumpStart s)) = 0) /\
  (gameState s = Win ->
   gameState (handleJumpStart s) = Win /\
   player (handleJumpStart s) = player s /\
   cameraX (handleJumpStart s) = cameraX s /\
   score (handleJumpStart s) = score s /\
   particles (handleJumpStart s) = particles s /\
   highScore (handleJumpStart s) = highScore s /\
   storage (handleJumpStart s) = storage s) /\
  (gameState s = Playing ->
   gameState (handleJumpStart s) = Playing /\
   cameraX (handleJumpStart s) = cameraX s /\
   score (handleJumpStart s) = score s /\
   Player.y (player (handleJumpStart s)) = Player.y (player s) /\
   Player.groundY (player (handleJumpStart s)) = Player.groundY (player s)).
Proof.
  destruct (handleJumpStart_prelude s) as [es E]. rewrite E. cbv zeta.
  replace (gameState (set_effects es s)) with (gameState s) by now destruct s.
  split; [|split].
  - intros H.
    assert (N : gameState (set_effects es s) <> Playing).
    { replace (gameState (set_effects es s)) with (gameState s)
        by now destruct s.
      destruct H as [H|H]; rewrite H; discriminate. }
    destruct (new_run_fields (set_effects es s)) as (R & _).
    assert (G : Player.groundY (player (set_effects es s)) =
                Player.groundY (player s)) by now destruct s.
    destruct H as [H|H]; rewrite H.
    + destruct (R N (startGame (set_effects es s)) (or_introl eq_refl))
        as (A1 & A2 & A3 & _ & _ & A6 & A7 & _).
      rewrite G in A6. auto.
    + destruct (R N (restart (set_effects es s)) (or_intror eq_refl))
        as (A1 & A2 & A3 & _ & _ & A6 & A7 & _).
      rewrite G in A6. auto.
  - intros H. rewrite H. now destruct s.
  - intros H. rewrite H. unfold playJumpSound, emit.
    destruct (_ && _); [destruct (negb _); now destruct s as [? ? ? []]|].
    destruct (_ && _); [|now destruct s].
    cbv zeta. destruct (Qltb _ _); now destruct s as [? ? ? []].
Qed.

(** X5.  What the jump key does outside a jump.  In [Start] and in [Dead]
    it begins a new run.  In [Win] it is ignored: the state stays [Win] and
    the player, the camera, the score, the particles, the high score and
    the storage are untouched.  In [Playing] it never moves the player or
    the camera and never changes the state or the score. *)
Theorem jump_key_by_state (s : Game) :
  (gameState s = Start \/ gameState s = Dead ->
   gameState (handleJumpStart s) = Playing /\
   cameraX (handleJumpStart s) = 0 /\
   score (handleJumpStart s) = 0%Z /\
   Player.y (player (handleJumpStart s)) = Player.groundY (player s) /\
   Player.velocityY (player (handleJumpStart s)) = 0) /\
  (gameState s = Win ->
   gameState (handleJumpStart s) = Win /\
   player (handleJumpStart s) = player s /\
   cameraX (handleJumpStart s) = cameraX s /\
   score (handleJumpStart s) = score s /\
   particles (handleJumpStart s) = particles s /\
   highScore (handleJumpStart s) = highScore s /\
   storage (handleJumpStart s) = storage s) /\
  (gameState s = Playing ->
   gameState (handleJumpStart s) = Playing /\
   cameraX (handleJumpStart s) = cameraX s /\
   score (handleJumpStart s) = score s /\
   Player.y (player (handleJumpStart s)) = Player.y (player s) /\
   Player.groundY (player (handleJumpStart s)) = Player.groundY (player s)).
Proof. exact (handleJumpStart_by_state s). Qed.

Lemma jump_key_by_state_witness :
  gameState (handleJumpStart crashed) = Playing /\
  gameState (handleJumpStart (win running)) = Win.
Proof.
  destruct (jump_key_by_state crashed) as (A & _).
  destruct A as (A & _); [right; vm_compute; reflexivity|].
  destruct (jump_key_by_state (win running)) as (_ & B & _).
  destruct B as (B & _); [vm_compute; reflexivity|].
  split; assumption.
Defined.

Lemma hold_step s :
  gameState s = Playing ->
  Player.isJumping (player s) = true ->
  jumpHeld s = true ->
  let t := handleJumpStart s in
  gameState t = Playing /\ Player.isJumping (player t) = true /\
  jumpHeld t = true /\ jumpHeldTime t = jumpHeldTime s + 1 /\
  Player.velocityY (player t) =
    (if Qltb (jumpHeldTime s + 1) (maxJumpHold / 16)
     then Player.velocityY (player s) + holdJumpBonus
     else Player.velocityY (player s)) /\
  Player.y (player t) = Player.y (player s).
Proof.
  intros P J H. cbv zeta.
  destruct (handleJumpStart_prelude s) as [es E]. rewrite E. cbv zeta.
  replace (gameState (set_effects es s)) with Playing by now destruct s.
  replace (Player.isJumping (player (set_effects es s))) with true
    by now destruct s.
  replace (jumpHeld (set_effects es s)) with true by now destruct s.
  cbn [negb andb].
  replace (jumpHeldTime (set_jumpHeldTime _ _))
    with (jumpHeldTime s + 1) by now destruct s.
  destruct (Qltb (jumpHeldTime s + 1) (maxJumpHold / 16));
    destruct s as [? ? ? []]; cbn in *; subst; repeat split.
Qed.

Lemma Qnat_S n : Qnat (S n) == Qnat n + 1.
Proof.
  unfold Qnat. rewrite Nat2Z.inj_succ, <- Z.add_1_r, inject_Z_plus.
  reflexivity.
Qed.

Lemma Qnat_le n m : (n <= m)%nat -> Qnat n <= Qnat m.
Proof. intros H. unfold Qnat. rewrite <- Zle_Qle. lia. Qed.

Lemma iterate_bonus k v :
  iterate k (fun v => v + holdJumpBonus) v == v + Qnat k * holdJumpBonus.
Proof.
  induction k as [|k IH].
  - cbn [iterate]. change (Qnat 0) with 0. lra.
  - rewrite iterate_succ, IH, Qnat_S. lra.
Qed.

(** X6.  Holding the jump key.  While the player is jumping and the key is
    held, each further call of [handleJumpStart] counts one more held step
    and, for the first 18 steps only ([300 / 16 = 18.75]), adds
    [holdJumpBonus] to the vertical velocity; the position is not touched.
    After [n] calls the velocity is the one the hold started with, with
    [holdJumpBonus] added [min n 18] times one after the other, as the code
    adds it; it is never below the starting velocity and never more than
    6.3 above it. *)
Theorem hold_bonus_capped (s : Game) (n : nat) :
  gameState s = Playing ->
  Player.isJumping (player s) = true ->
  jumpHeld s = true ->
  jumpHeldTime s == 0 ->
  let t := iterate n handleJumpStart s in
  let bonus := fun v => v + holdJumpBonus in
  jumpHeldTime t == Qnat n /\
  Player.velocityY (player t) =
    iterate (Nat.min n 18) bonus (Player.velocityY (player s)) /\
  Player.velocityY (player s) <= Player.velocityY (player t) /\
  Player.velocityY (player t) <= Player.velocityY (player s) + (63 # 10) /\
  Player.y (player t) = Player.y (player s) /\
  gameState t = Playing.
Proof.
  intros P J H T0. cbv zeta.
  assert (I : jumpHeldTime (iterate n handleJumpStart s) == Qnat n /\
              Player.velocityY (player (iterate n handleJumpStart s)) =
                iterate (Nat.min n 18) (fun v => v + holdJumpBonus)
                  (Player.velocityY (player s)) /\
              Player.y (player (iterate n handleJumpStart s)) =
                Player.y (player s) /\
              gameState (iterate n handleJumpStart s) = Playing /\
              Player.isJumping (player (iterate n handleJumpStart s)) = true /\
              jumpHeld (iterate n handleJumpStart s) = true).
  { induction n as [|n IH].
    - cbn [iterate Nat.min]. repeat split; assumption.
    - destruct IH as (I1 & I2 & I3 & I4 & I5 & I6).
      rewrite iterate_succ.
      destruct (hold_step _ I4 I5 I6) as (S1 & S2 & S3 & S4 & S5 & S6).
      repeat split; try assumption; try congruence.
      + rewrite S4, I1, Qnat_S. reflexivity.
      + rewrite S5. destruct (Qltb _ _) eqn:C.
        * apply Qltb_lt in C. rewrite I1 in C.
          assert (L : (n < 18)%nat).
          { destruct (Nat.lt_ge_cases n 18) as [L|L]; [exact L|].
            apply Qnat_le in L.
            change (maxJumpHold / 16) with (300 # 16) in C.
            change (Qnat 18) with 18 in L. lra. }
          replace (Nat.min (S n) 18) with (S (Nat.min n 18)) by lia.
          rewrite iterate_succ, I2. reflexivity.
        * apply Qltb_false in C. rewrite I1 in C.
          assert (L : (18 <= n)%nat).
          { destruct (Nat.lt_ge_cases n 18) as [L|L]; [|exact L].
            assert (L' : (n <= 17)%nat) by lia.
            apply Qnat_le in L'.
            change (maxJumpHold / 16) with (300 # 16) in C.
            change (Qnat 17) with 17 in L'. lra. }
          replace (Nat.min (S n) 18) with (Nat.min n 18) by lia.
          exact I2. }
  destruct I as (I1 & I2 & I3 & I4 & _).
  assert (B0 : 0 <= Qnat (Nat.min n 18)).
  { change 0 with (Qnat 0). apply Qnat_le. lia. }
  assert (B1 : Qnat (Nat.min n 18) <= 18).
  { change 18 with (Qnat 18). apply Qnat_le. lia. }
  pose proof (iterate_bonus (Nat.min n 18) (Player.velocityY (player s)))
    as E1.
  unfold holdJumpBonus in *.
  repeat split; try assumption; rewrite I2, E1; nra.
Qed.

Lemma hold_bonus_capped_witness :
  Player.velocityY
    (player (iterate 30 handleJumpStart (handleJumpStart running))) =
  iterate 18 (fun v => v + holdJumpBonus) (-16).
Proof.
  destruct (hold_bonus_capped (handleJumpStart running) 30) as (_ & A & _).
  - vm_compute. reflexivity.
  - vm_compute. reflexivity.
  - vm_compute. reflexivity.
  - vm_compute. reflexivity.
  - rewrite A. vm_compute. reflexivity.
Defined.

(** X7.  Releasing the key ends the hold: after [handleJumpEnd] the held
    counter is 0 and the flag is off, and while the player is still jumping
    further jump keys change neither its velocity nor its position. *)
Theorem release_ends_hold (s : Game) :
  gameState s = Playing ->
  Player.isJumping (player s) = true ->
  let r := handleJumpEnd s in
  jumpHeld r = false /\ jumpHeldTime r = 0 /\ player r = player s /\
  player (handleJumpStart r) = player s /\
  jumpHeld (handleJumpStart r) = false.
Proof.
  intros P J. cbv zeta.
  destruct (handleJumpStart_prelude (handleJumpEnd s)) as [es E].
  rewrite E. cbv zeta. unfold handleJumpEnd.
  destruct s as [? ? ? []]; cbn in *; subst. repeat split.
Qed.

Lemma release_ends_hold_witness :
  player (handleJumpStart (handleJumpEnd (handleJumpStart running))) =
  player (handleJumpStart running).
Proof.
  destruct (release_ends_hold (handleJumpStart running)) as (_ & _ & _ & A & _).
  - vm_compute. reflexivity.
  - vm_compute. reflexivity.
  - exact A.
Defined.

(** ** What the end of a tick leaves alone *)

Lemma sameMotion_refl s : sameMotion s s.
Proof. repeat split. Qed.

Lemma sameMotion_trans s t u :
  sameMotion s t -> sameMotion t u -> sameMotion s u.
Proof.
  intros (A1 & A2 & A3 & A4 & A5 & A6 & A7) (B1 & B2 & B3 & B4 & B5 & B6 & B7).
  repeat split; congruence.
Qed.

Ltac motion_fields :=
  let H := fresh in
  intros H; destruct H as (? & ? & ? & ? & ? & ? & ?);
  match goal with |- sameMotion _ (_ ?t) => destruct t end;
  cbn in *; repeat split; assumption.

Lemma sameMotion_set_particles s t v :
  sameMotion s t -> sameMotion s (set_particles v t).
Proof. motion_fields. Qed.
Lemma sameMotion_set_parallaxLayers s t v :
  sameMotion s t -> sameMotion s (set_parallaxLayers v t).
Proof. motion_fields. Qed.
Lemma sameMotion_set_randomCalls s t v :
  sameMotion s t -> sameMotion s (set_randomCalls v t).
Proof. motion_fields. Qed.
Lemma sameMotion_set_effects s t v :
  sameMotion s t -> sameMotion s (set_effects v t).
Proof. motion_fields. Qed.
Lemma sameMotion_set_highScore s t v :
  sameMotion s t -> sameMotion s (set_highScore v t).
Proof. motion_fields. Qed.
Lemma sameMotion_set_storage s t v :
  sameMotion s t -> sameMotion s (set_storage v t).
Proof. motion_fields. Qed.
Lemma sameMotion_set_audioContext s t v :
  sameMotion s t -> sameMotion s (set_audioContext v t).
Proof. motion_fields. Qed.
Lemma sameMotion_set_audioContextReady s t v :
  sameMotion s t -> sameMotion s (set_audioContextReady v t).
Proof. motion_fields. Qed.
Lemma sameMotion_set_jumpHeld s t v :
  sameMotion s t -> sameMotion s (set_jumpHeld v t).
Proof. motion_fields. Qed.
Lemma sameMotion_set_jumpHeldTime s t v :
  sameMotion s t -> sameMotion s (set_jumpHeldTime v t).
Proof. motion_fields. Qed.

Create HintDb motion discriminated.
#[export] Hint Resolve sameMotion_refl sameMotion_set_particles
  sameMotion_set_parallaxLayers sameMotion_set_randomCalls
  sameMotion_set_effects sameMotion_set_highScore sameMotion_set_storage
  sameMotion_set_audioContext sameMotion_set_audioContextReady
  sameMotion_set_jumpHeld sameMotion_set_jumpHeldTime : motion.

Ltac motion_auto := cbv zeta; branches; auto 40 with motion.

Lemma sameMotion_emit s t e : sameMotion s t -> sameMotion s (emit e t).
Proof. unfold emit. motion_auto. Qed.
#[export] Hint Resolve sameMotion_emit : motion.

Lemma sameMotion_playDeathSound s t :
  sameMotion s t -> sameMotion s (playDeathSound t).
Proof. unfold playDeathSound. motion_auto. Qed.
Lemma sameMotion_pushDeathParticle s t :
  sameMotion s t -> sameMotion s (pushDeathParticle t).
Proof. unfold pushDeathParticle, Math_random. motion_auto. Qed.
Lemma sameMotion_pushTrailParticle s t :
  sameMotion s t -> sameMotion s (pushTrailParticle t).
Proof. unfold pushTrailParticle, Math_random. motion_auto. Qed.
Lemma sameMotion_saveHighScore s t z :
  sameMotion s t -> sameMotion s (saveHighScore z t).
Proof. unfold saveHighScore. motion_auto. Qed.
#[export] Hint Resolve sameMotion_playDeathSound sameMotion_pushDeathParticle
  sameMotion_pushTrailParticle sameMotion_saveHighScore : motion.

Lemma sameMotion_checkHighScore s t :
  sameMotion s t -> sameMotion s (checkHighScore t).
Proof. unfold checkHighScore. motion_auto. Qed.
Lemma sameMotion_updateParticles s t :
  sameMotion s t -> sameMotion s (updateParticles t).
Proof. unfold updateParticles. motion_auto. Qed.
Lemma sameMotion_updateParallax s t :
  sameMotion s t -> sameMotion s (updateParallax t).
Proof.
  intros H. unfold updateParallax.
  pose proof (updateLayers_keeps sameMotion sameMotion_set_randomCalls
                (parallaxLayers t) s t H) as H1.
  destruct (updateLayers _ _); cbn [snd] in H1. auto with motion.
Qed.
Lemma sameMotion_audioResumed s t :
  sameMotion s t -> sameMotion s (audioResumed t).
Proof. unfold audioResumed, startBackgroundMusic. motion_auto. Qed.
Lemma sameMotion_handleJumpEnd s t :
  sameMotion s t -> sameMotion s (handleJumpEnd t).
Proof. unfold handleJumpEnd. motion_auto. Qed.
#[export] Hint Resolve sameMotion_checkHighScore sameMotion_updateParticles
  sameMotion_updateParallax sameMotion_audioResumed sameMotion_handleJumpEnd
  : motion.

(** Dying and winning only change the state among these. *)
Lemma die_motion t :
  gameState t <> Dead -> sameMotion (set_gameState Dead t) (die t).
Proof.
  intros H. unfold die.
  destruct (GameState_eqb (gameState t) Dead) eqn:E;
    [apply GameState_eqb_eq in E; contradiction|].
  cbv zeta. unfold showGameOverScreen.
  apply sameMotion_emit, sameMotion_checkHighScore.
  apply iterate_keeps; auto with motion.
Qed.

Lemma win_motion t : sameMotion (set_gameState Win t) (win t).
Proof. unfold win. cbv zeta. auto with motion. Qed.

(** ** Jumping against the ground clamp (game.js, [update], lines 501-527) *)

Lemma platformCollisions_none u :
  Level.platforms (level u) = [] -> platformCollisions u = u.
Proof. unfold platformCollisions. now intros ->. Qed.

(** The ground clamp fires whenever the player's box, moved by the new
    velocity, reaches the rest position [groundY]; the player then rests. *)
Lemma movePlayer_lands u :
  Level.platforms (level u) = [] ->
  Player.groundY (player u)
    <= Player.y (player u) + (Player.velocityY (player u) + gravity)
       + Player.height (player u) ->
  0 <= Player.groundY (player u) ->
  let t := movePlayer (advanceCamera u) in
  Player.y (player t) = Player.groundY (player u) /\
  Player.velocityY (player t) = 0 /\
  Player.isJumping (player t) = false /\
  Player.rotationSpeed (player t) = 0 /\
  Player.groundY (player t) = Player.groundY (player u) /\
  samePlayerSize (player u) (player t).
Proof.
  intros Pl G C. cbv zeta. unfold movePlayer.
  set (g := groundCollision (rotate (integrate (advanceCamera u)))).
  assert (Lg : level g = level u).
  { assert (F : fixed u g) by (subst g; auto 10 with fixed). apply F. }
  rewrite platformCollisions_none by now rewrite Lg.
  assert (E : player g =
              land (Player.groundY (player u))
                (player (rotate (integrate (advanceCamera u))))).
  { subst g. unfold groundCollision. cbv zeta.
    destruct (before_ground u) as (G0 & H0 & _).
    assert (Y : Player.y (player (rotate (integrate (advanceCamera u)))) =
                Player.y (player u) + (Player.velocityY (player u) + gravity)).
    { unfold rotate, integrate, advanceCamera. cbv zeta.
      destruct (Player.isJumping _); now destruct u as [? ? ? []]. }
    rewrite Y, G0, H0.
    apply Qgeb_le in G. rewrite G.
    now destruct u as [? ? ? []]. }
  unfold ceilingCollision. cbv zeta.
  assert (Pg : Player.y (player g) = Player.groundY (player u)).
  { rewrite E. now destruct (player (rotate _)). }
  rewrite Pg. apply Qltb_false in C. rewrite C.
  destruct (before_ground u) as (G0 & H0 & _).
  assert (F : fixed u (rotate (integrate (advanceCamera u))))
    by auto 10 with fixed.
  destruct F as (_ & (X1 & X2 & X3) & _).
  rewrite E. destruct (player (rotate _)); cbn in *.
  repeat split; assumption.
Qed.

(** X8.  The ground clamp undoes a jump.  Let the player rest on the
    ground line at or below the top of the canvas ([0 <= groundY]) in a
    reachable [Playing] state.  The jump key gives it the velocity -16 and
    sets [isJumping]; but the tick that follows tests [y + height >=
    groundY] with [groundY] the player's own rest position, which holds 30
    pixels (the player's height) too early, so the same tick puts the
    player back on the ground line with velocity 0 and [isJumping] off.
    The player is never drawn off the ground. *)
Theorem jump_undone_by_ground_clamp (s : Game) :
  reachable s ->
  gameState s = Playing ->
  Player.isJumping (player s) = false ->
  Player.y (player s) = Player.groundY (player s) ->
  0 <= Player.groundY (player s) ->
  let j := handleJumpStart s in
  let t := movePlayer (advanceCamera j) in
  Player.velocityY (player j) = jumpPower /\
  Player.isJumping (player j) = true /\
  Player.y (player t) = Player.groundY (player s) /\
  Player.velocityY (player t) = 0 /\
  Player.isJumping (player t) = false /\
  Player.y (player (update j)) = Player.groundY (player s) /\
  Player.isJumping (player (update j)) = false.
Proof.
  intros R P J Y G. cbv zeta.
  destruct (reachable_built s R) as (_ & _ & _ & _ & _ & _ & PH).
  assert (OG : isOnGround s = true).
  { unfold isOnGround. cbv zeta. rewrite Y, PH.
    replace (Qgeb _ _) with true; [reflexivity|].
    symmetry. apply Qgeb_le. lra. }
  destruct (handleJumpStart_jumps s P OG J) as (V & IJ).
  destruct (handleJumpStart_by_state s) as (_ & _ & K).
  destruct (K P) as (KP & _ & _ & KY & KG).
  set (j := handleJumpStart s) in *.
  assert (Rj : reachable j) by (subst j; apply (reachable_handle JumpKeyDown _ R)).
  destruct (reachable_built j Rj) as (Pl & _ & _ & _ & _ & _ & PHj).
  destruct (movePlayer_lands j Pl) as (L1 & L2 & L3 & _ & _ & _).
  { rewrite KG, KY, V, Y, PHj. unfold jumpPower, gravity. lra. }
  { now rewrite KG. }
  rewrite KG in L1.
  assert (U : player (update j) = player (movePlayer (advanceCamera j)) ).
  { rewrite (update_playing j KP). cbv zeta.
    set (t := movePlayer (advanceCamera j)).
    assert (D : player (die t) = player t).
    { destruct (GameState_eqb (gameState t) Dead) eqn:E.
      - apply GameState_eqb_eq in E. now rewrite die_dead.
      - destruct (die_motion t) as (A & _).
        + intros H. apply GameState_eqb_eq in H. congruence.
        + rewrite A. now destruct t. }
    assert (W : player (win t) = player t).
    { destruct (win_motion t) as (A & _). rewrite A. now destruct t. }
    assert (N : player (updateParallax (updateParticles t)) = player t).
    { assert (M : sameMotion t (updateParallax (updateParticles t)))
        by auto with motion.
      apply M. }
    branches; assumption. }
  rewrite U. repeat split; assumption.
Qed.

Lemma jump_undone_by_ground_clamp_witness :
  Player.y (player (update (handleJumpStart running))) = 520 /\
  Player.isJumping (player (update (handleJumpStart running))) = false.
Proof.
  destruct (jump_undone_by_ground_clamp running)
    as (_ & _ & _ & _ & _ & A & B).
  - unfold running. apply (reachable_handle StartButton).
    apply reachable_construct.
  - vm_compute. reflexivity.
  - vm_compute. reflexivity.
  - vm_compute. reflexivity.
  - vm_compute. discriminate.
  - split; [rewrite A; vm_compute; reflexivity|exact B].
Defined.

(** ** Runs on a canvas that is never resized *)

Lemma onlyPlayer_refl s : onlyPlayer s s.
Proof. unfold onlyPlayer. now destruct s. Qed.

Lemma onlyPlayer_set_player s t p :
  onlyPlayer s t -> onlyPlayer s (set_player p t).
Proof. unfold onlyPlayer. intros ->. now destruct s. Qed.

Lemma onlyPlayer_movePlayer s : onlyPlayer s (movePlayer s).
Proof.
  unfold movePlayer.
  assert (I : onlyPlayer s (integrate s)).
  { unfold integrate. cbv zeta.
    apply onlyPlayer_set_player, onlyPlayer_set_player, onlyPlayer_refl. }
  assert (R : onlyPlayer s (rotate (integrate s))).
  { unfold rotate. cbv zeta.
    destruct (Player.isJumping _); now apply onlyPlayer_set_player. }
  assert (G : onlyPlayer s (groundCollision (rotate (integrate s)))).
  { unfold groundCollision. cbv zeta.
    destruct (Qgeb _ _); [now apply onlyPlayer_set_player|assumption]. }
  assert (P : onlyPlayer s
                (platformCollisions (groundCollision (rotate (integrate s))))).
  { unfold platformCollisions. apply fold_left_keeps; [|assumption].
    intros u t a H. unfold platformCollision. cbv zeta.
    destruct (_ && _); [|assumption].
    destruct (Qle_bool _ _); [now apply onlyPlayer_set_player|assumption]. }
  unfold ceilingCollision. cbv zeta.
  destruct (Qltb _ _); [now apply onlyPlayer_set_player|assumption].
Qed.

(** The movement of a tick changes the camera, the distance, the score and
    the player. *)
Lemma moved_fields s :
  let t := movePlayer (advanceCamera s) in
  gameState t = gameState s /\ canvas t = canvas s /\ level t = level s /\
  cameraX t = cameraX s + scrollSpeed /\
  score t = Math_floor ((cameraX s + scrollSpeed) / 10) /\
  highScore t = highScore s /\ storage t = storage s /\
  particles t = particles s /\ effects t = effects s.
Proof.
  cbv zeta. rewrite (onlyPlayer_movePlayer (advanceCamera s)).
  now destruct s.
Qed.

Lemma sameMotion_initParallax s t :
  sameMotion s t -> sameMotion s (initParallax t).
Proof.
  intros H. unfold initParallax.
  pose proof (initLayers_keeps sameMotion sameMotion_set_randomCalls
                (parallaxLayers t) 0%nat s t H) as H1.
  destruct (initLayers _ _ _); cbn [snd] in H1. auto with motion.
Qed.

Lemma sameMotion_initAudio s t a :
  sameMotion s t -> sameMotion s (initAudio a t).
Proof. unfold initAudio. motion_auto. Qed.

Lemma construct_motion c st audio rnd hidden :
  exists es,
    sameMotion (createLevel (beforeLevel c st rnd es))
      (construct c st audio rnd hidden).
Proof.
  destruct (construct_unfold c st audio rnd hidden) as [es ->].
  exists es. cbv zeta.
  assert (M : sameMotion (createLevel (beforeLevel c st rnd es))
                (initAudio audio
                   (initParallax (createLevel (beforeLevel c st rnd es)))))
    by apply sameMotion_initAudio, sameMotion_initParallax, sameMotion_refl.
  destruct hidden; [exact M|].
  rewrite update_not_playing; [exact M|].
  destruct M as (_ & _ & _ & _ & _ & _ & G). rewrite G. discriminate.
Qed.

Lemma logicalHeight_ge_1 s : 1 <= logicalHeight s.
Proof.
  unfold logicalHeight.
  destruct (Canvas.offsetHeight (canvas s)) as [|p]; cbn; [lra|].
  unfold Qle. cbn. lia.
Qed.

Lemma createLevel_beforeLevel c st rnd es :
  let b := createLevel (beforeLevel c st rnd es) in
  let H := logicalHeight (beforeLevel c st rnd es) in
  gameState b = Start /\ cameraX b = 0 /\ score b = 0%Z /\ canvas b = c /\
  Player.groundY (player b) = H - 50 - 30 /\
  exists rest,
    Level.obstacles (level b) =
    Obstacle.mk (500 + Qnat 0 * 120) (H - 50 - 25) 35 25 "#d0d0d0" :: rest.
Proof. cbv zeta. repeat split. eexists. reflexivity. Qed.

Lemma onTrack_construct c st audio rnd hidden :
  onTrack (construct c st audio rnd hidden).
Proof.
  destruct (construct_motion c st audio rnd hidden)
    as (es & P & C & S & _ & L & V & G).
  destruct (createLevel_beforeLevel c st rnd es)
    as (B1 & B2 & B3 & B4 & B5 & (rest & B6)).
  assert (E : logicalHeight (construct c st audio rnd hidden) =
              logicalHeight (beforeLevel c st rnd es)).
  { unfold logicalHeight. rewrite V, B4. reflexivity. }
  unfold onTrack. rewrite E, P, C, S, L, G, B1, B2, B3, B5, B6.
  split; [discriminate|]. split; [lra|]. split; [lia|].
  split; [lra|]. split; [|discriminate].
  eexists. eexists. split; [reflexivity|]. cbn [Obstacle.x Obstacle.y
    Obstacle.width Obstacle.height].
  change (Qnat 0) with 0. repeat split; lra.
Qed.

Lemma die_fields t :
  gameState t <> Dead ->
  gameState (die t) = Dead /\ player (die t) = player t /\
  cameraX (die t) = cameraX t /\ score (die t) = score t /\
  level (die t) = level t /\ canvas (die t) = canvas t.
Proof.
  intros H. destruct (die_motion t H) as (A1 & A2 & A3 & _ & A5 & A6 & _).
  split; [apply gameState_die|]. rewrite A1, A2, A3, A5, A6.
  now destruct t.
Qed.

Lemma first_obstacle_hits t o rest :
  Level.obstacles (level t) = o :: rest ->
  Obstacle.x o == 500 -> Obstacle.width o == 35 ->
  Obstacle.height o == 25 -> Obstacle.y o == logicalHeight t - 75 ->
  Player.x (player t) = 100 -> Player.width (player t) = 30 ->
  Player.height (player t) = 30 ->
  Player.y (player t) == logicalHeight t - 80 ->
  cameraX t == 375 ->
  existsb (hitsObstacle t) (Level.obstacles (level t)) = true.
Proof.
  intros L X W H Y PX PW PH PY C. rewrite L. cbn [existsb].
  apply orb_true_iff. left. unfold hitsObstacle. cbv zeta.
  apply checkCollision_spec. rewrite PX, PW, PH. repeat split; lra.
Qed.

Lemma score_bound x : x <= 375 -> (Math_floor (x / 10) <= 37)%Z.
Proof.
  intros H. unfold Math_floor.
  apply Z.le_trans with (Qfloor (375 # 10)).
  - apply Qfloor_resp_le. unfold Qdiv. change (/ 10) with (1 # 10). lra.
  - vm_compute. discriminate.
Qed.

(** The outcome of a tick, given where its movement left the player. *)
Lemma onTrack_outcome s t k :
  80 <= logicalHeight s ->
  onTrack s ->
  Level.width (level s) = 4255 ->
  Player.x (player s) = 100 -> Player.width (player s) = 30 ->
  Player.height (player s) = 30 ->
  (k <= 74)%nat -> cameraX s == Qnat k * 5 ->
  gameState t = Playing -> canvas t = canvas s -> level t = level s ->
  cameraX t = cameraX s + scrollSpeed ->
  score t = Math_floor ((cameraX s + scrollSpeed) / 10) ->
  Player.y (player t) = Player.groundY (player s) ->
  Player.velocityY (player t) = 0 ->
  Player.groundY (player t) = Player.groundY (player s) ->
  samePlayerSize (player s) (player t) ->
  let r :=
    if existsb (hitsObstacle t) (Level.obstacles (level t)) then die t
    else if existsb (hitsSpike t) (Level.spikes (level t)) then die t
    else if fellOffScreen t then die t
    else if reachedEnd t then win t
    else updateParallax (updateParticles t) in
  onTrack r /\ logicalHeight r = logicalHeight s.
Proof.
  intros H80 (NW & CX & SC & GY & OB & PL) W PX PW PH Hk Ck
         M1 M2 M3 M4 M5 L1 L2 L5 (L6 & L7 & L8).
  cbv zeta.
  assert (LH : logicalHeight t = logicalHeight s)
    by (unfold logicalHeight; now rewrite M2).
  assert (CT : cameraX t == Qnat (S k) * 5).
  { rewrite M4, Ck, Qnat_S. unfold scrollSpeed. lra. }
  assert (K75 : Qnat (S k) <= 75).
  { change 75 with (Qnat 75). apply Qnat_le. lia. }
  assert (CT375 : cameraX t <= 375) by (rewrite CT; lra).
  assert (ST : (score t <= 37)%Z).
  { rewrite M5. apply score_bound. rewrite <- M4. exact CT375. }
  assert (GT : Player.groundY (player t) == logicalHeight t - 80)
    by (rewrite L5, LH; exact GY).
  assert (OT : exists o rest,
             Level.obstacles (level t) = o :: rest /\
             Obstacle.x o == 500 /\ Obstacle.width o == 35 /\
             Obstacle.height o == 25 /\
             Obstacle.y o == logicalHeight t - 75)
    by (rewrite M3, LH; exact OB).
  assert (D : onTrack (die t) /\ logicalHeight (die t) = logicalHeight s).
  { destruct (die_fields t) as (D1 & D2 & D3 & D4 & D5 & D6);
      [rewrite M1; discriminate|].
    assert (LD : logicalHeight (die t) = logicalHeight t)
      by (unfold logicalHeight; now rewrite D6).
    split; [|congruence].
    unfold onTrack. rewrite LD, D1, D2, D3, D4, D5.
    repeat split; try assumption; discriminate. }
  destruct (existsb (hitsObstacle t) (Level.obstacles (level t))) eqn:HO;
    [exact D|].
  destruct (existsb (hitsSpike t) (Level.spikes (level t))); [exact D|].
  destruct (fellOffScreen t); [exact D|].
  destruct (reachedEnd t) eqn:RE.
  { exfalso. unfold reachedEnd in RE. apply Qgeb_le in RE.
    rewrite M3, W in RE. lra. }
  assert (M : sameMotion t (updateParallax (updateParticles t)))
    by auto with motion.
  destruct M as (U1 & U2 & U3 & _ & U5 & U6 & U7).
  assert (LU : logicalHeight (updateParallax (updateParticles t)) =
               logicalHeight t)
    by (unfold logicalHeight; now rewrite U6).
  split; [|congruence].
  unfold onTrack. rewrite LU, U1, U2, U3, U5, U7, M1.
  split; [discriminate|]. repeat split; try assumption.
  - exists (S k). split; [|exact CT].
    destruct (Nat.eq_dec k 74) as [->|N]; [|lia].
    exfalso. destruct OT as (o & rest & O1 & O2 & O3 & O4 & O5).
    assert (PY : Player.y (player t) == logicalHeight t - 80).
    { rewrite L1. rewrite L5 in GT. exact GT. }
    assert (C375 : cameraX t == 375) by (rewrite CT; reflexivity).
    assert (HT : existsb (hitsObstacle t) (Level.obstacles (level t)) = true).
    { apply (first_obstacle_hits t o rest O1 O2 O3 O4 O5); congruence. }
    congruence.
  - congruence.
  - rewrite L2. lra.
Qed.

Lemma onTrack_update s :
  reachable s -> 80 <= logicalHeight s -> onTrack s ->
  onTrack (update s) /\ logicalHeight (update s) = logicalHeight s.
Proof.
  intros R H80 T.
  destruct (GameState_eqb (gameState s) Playing) eqn:E.
  2: { rewrite update_not_playing; [now split|].
       intros H. apply GameState_eqb_eq in H. congruence. }
  apply GameState_eqb_eq in E.
  pose proof T as (_ & _ & _ & GY & _ & PL).
  destruct (PL E) as ((k & Hk & Ck) & Yk & Vk).
  destruct (reachable_built s R) as (Pl & Sp & GH & W & PX & PW & PH).
  destruct (moved_fields s) as (M1 & M2 & M3 & M4 & M5 & _).
  destruct (movePlayer_lands s Pl) as (L1 & L2 & L3 & L4 & L5 & L6).
  { rewrite Yk, PH. unfold gravity. lra. }
  { rewrite GY. lra. }
  rewrite (update_playing s E).
  apply (onTrack_outcome s (movePlayer (advanceCamera s)) k); try assumption.
  congruence.
Qed.

Lemma onTrack_sameMotion s t :
  onTrack s -> sameMotion s t ->
  onTrack t /\ logicalHeight t = logicalHeight s.
Proof.
  intros T (A1 & A2 & A3 & _ & A5 & A6 & A7).
  assert (L : logicalHeight t = logicalHeight s)
    by (unfold logicalHeight; now rewrite A6).
  split; [|exact L]. unfold onTrack. rewrite L, A1, A2, A3, A5, A7. exact T.
Qed.

Lemma onTrack_startGame s :
  onTrack s -> onTrack (startGame s) /\
               logicalHeight (startGame s) = logicalHeight s.
Proof.
  intros T. destruct (GameState_eqb (gameState s) Playing) eqn:E.
  { apply GameState_eqb_eq in E. unfold startGame.
    rewrite E. cbn [GameState_eqb]. now split. }
  assert (N : gameState s <> Playing).
  { intros H. apply GameState_eqb_eq in H. congruence. }
  destruct (startGame_fields s N)
    as (A1 & A2 & A3 & _ & _ & A6 & _ & _ & A9 & A10 & _).
  destruct T as (_ & _ & _ & GY & OB & _).
  remember (startGame s) as t eqn:Et. clear Et.
  assert (L : logicalHeight t = logicalHeight s)
    by (unfold logicalHeight; now rewrite A10).
  split; [|exact L]. unfold onTrack. rewrite L, A1, A2, A3, A6, A9.
  destruct (player s); cbn in *.
  split; [discriminate|]. split; [lra|]. split; [lia|].
  repeat split; try assumption; try lra.
  exists 0%nat. split; [lia|]. change (Qnat 0) with 0. lra.
Qed.

Lemma onTrack_restart s :
  onTrack s -> onTrack (restart s) /\
               logicalHeight (restart s) = logicalHeight s.
Proof.
  intros T. destruct (onTrack_startGame s T) as (A & B).
  destruct (restart_startGame s) as [es ->].
  destruct (onTrack_sameMotion (startGame s) (set_effects es (startGame s)) A)
    as (C & D); [auto with motion|].
  split; [exact C|congruence].
Qed.

Lemma handleJumpStart_playing s :
  gameState s = Playing ->
  canvas (handleJumpStart s) = canvas s /\
  level (handleJumpStart s) = level s /\
  (Player.velocityY (player (handleJumpStart s)) = jumpPower \/
   Player.velocityY (player (handleJumpStart s)) =
     Player.velocityY (player s) + holdJumpBonus \/
   Player.velocityY (player (handleJumpStart s)) =
     Player.velocityY (player s)).
Proof.
  intros H. destruct (handleJumpStart_prelude s) as [es E]. rewrite E.
  cbv zeta.
  replace (gameState (set_effects es s)) with Playing by now destruct s.
  unfold playJumpSound, emit.
  destruct (_ && _); [destruct (negb _); destruct s as [? ? ? []]; cbn; auto|].
  destruct (_ && _); [|destruct s as [? ? ? []]; cbn; auto].
  cbv zeta. destruct (Qltb _ _); destruct s as [? ? ? []]; cbn; auto.
Qed.

Lemma onTrack_handleJumpStart s :
  onTrack s -> onTrack (handleJumpStart s) /\
               logicalHeight (handleJumpStart s) = logicalHeight s.
Proof.
  intros T. destruct (gameState s) eqn:G.
  - (* Start *)
    destruct (handleJumpStart_prelude s) as [es E]. rewrite E. cbv zeta.
    replace (gameState (set_effects es s)) with Start by now destruct s.
    destruct (onTrack_sameMotion s (set_effects es s) T) as (A & B);
      [auto with motion|].
    destruct (onTrack_startGame _ A) as (C & D). split; [exact C|congruence].
  - (* Playing *)
    destruct (handleJumpStart_by_state s) as (_ & _ & K).
    destruct (K G) as (K1 & K2 & K3 & K4 & K5).
    destruct (handleJumpStart_playing s G) as (C & L & V).
    destruct T as (NW & CX & SC & GY & OB & PL).
    destruct (PL G) as (PK & PY & PV).
    remember (handleJumpStart s) as t eqn:Et. clear Et.
    assert (LH : logicalHeight t = logicalHeight s)
      by (unfold logicalHeight; now rewrite C).
    split; [|exact LH]. unfold onTrack. rewrite LH, K1, K2, K3, K5, L.
    split; [discriminate|]. repeat split; try assumption.
    + congruence.
    + unfold jumpPower, holdJumpBonus in V.
      destruct V as [V|[V|V]]; rewrite V; lra.
  - (* Dead *)
    destruct (handleJumpStart_prelude s) as [es E]. rewrite E. cbv zeta.
    replace (gameState (set_effects es s)) with Dead by now destruct s.
    destruct (onTrack_sameMotion s (set_effects es s) T) as (A & B);
      [auto with motion|].
    destruct (onTrack_restart _ A) as (C & D). split; [exact C|congruence].
  - (* Win *)
    destruct T as (NW & _). contradiction.
Qed.

Lemma onTrack_handle i s :
  reachable s -> 80 <= logicalHeight s -> onTrack s -> noResize i = true ->
  onTrack (handle i s) /\ logicalHeight (handle i s) = logicalHeight s.
Proof.
  intros R H T N. destruct i; cbn [handle]; try discriminate.
  - destruct hidden; [now split|now apply onTrack_update].
  - now apply onTrack_handleJumpStart.
  - apply onTrack_sameMotion; auto with motion.
  - destruct (gameState s);
      (now apply onTrack_startGame) || (now apply onTrack_handleJumpStart).
  - now apply onTrack_startGame.
  - now apply onTrack_restart.
  - apply onTrack_sameMotion; auto with motion.
Qed.

Lemma onTrack_run inputs s :
  reachable s -> 80 <= logicalHeight s -> onTrack s ->
  forallb noResize inputs = true ->
  onTrack (run inputs s).
Proof.
  revert s. induction inputs as [|i inputs IH]; intros s R H T N;
    [exact T|].
  cbn [forallb] in N. apply andb_true_iff in N. destruct N as (N1 & N2).
  destruct (onTrack_handle i s R H T N1) as (A & B).
  change (run (i :: inputs) s) with (run inputs (handle i s)).
  apply IH; try assumption.
  - now constructor.
  - now rewrite B.
Qed.

(** X9.  No run gets past the first obstacle.  On a canvas at least 80
    pixels high that is never resized, whatever the player does (jump keys,
    mouse, start and restart buttons, any number of frames, hidden or
    not), the camera never goes beyond 375, the score never beyond 37, and
    the state is never [Win]: every jump is undone by the ground clamp, and
    at camera position 375 the resting player overlaps the first
    obstacle.  (The retry of [resizeCanvas] that the constructor schedules
    when the canvas has no size yet counts as a resize.) *)
Theorem no_run_passes_first_obstacle
    (c : Canvas.t) (st : Storage.t) (audio : option AudioState)
    (rnd : nat -> Q) (hidden : bool) (inputs : list input) :
  80 <= logicalHeight (construct c st audio rnd hidden) ->
  forallb noResize inputs = true ->
  let s := run inputs (construct c st audio rnd hidden) in
  cameraX s <= 375 /\ (score s <= 37)%Z /\ gameState s <> Win.
Proof.
  intros H N. cbv zeta.
  destruct (onTrack_run inputs (construct c st audio rnd hidden))
    as (A & B & C & _); try assumption.
  - apply reachable_construct.
  - apply onTrack_construct.
  - auto.
Qed.

Lemma no_run_passes_first_obstacle_witness :
  cameraX (run (repeat JumpKeyDown 3 ++ repeat (Frame false) 200)
             (construct sampleCanvas emptyStorage None (fun _ => 1 # 2) false))
  <= 375.
Proof.
  destruct (no_run_passes_first_obstacle sampleCanvas emptyStorage None
              (fun _ => 1 # 2) false
              (repeat JumpKeyDown 3 ++ repeat (Frame false) 200))
    as (A & _).
  - vm_compute. discriminate.
  - vm_compute. reflexivity.
  - exact A.
Defined.

Lemma construct_obstacles_start c st audio rnd hidden :
  forallb (startsFrom 500)
    (Level.obstacles (level (construct c st audio rnd hidden))) = true.
Proof.
  destruct (construct_fixed c st audio rnd hidden) as (es & L & _).
  rewrite L. vm_compute. reflexivity.
Qed.

Lemma reachable_obstacles_start s :
  reachable s -> forallb (startsFrom 500) (Level.obstacles (level s)) = true.
Proof.
  intros H. destruct (reachable_fixed s H) as (c & st & a & r & h & F).
  destruct F as (L & _). rewrite L. apply construct_obstacles_start.
Qed.

(** Until the camera passes 370 every obstacle is right of the player. *)
Lemma no_hit_before_first_obstacle s t :
  reachable s -> level t = level s ->
  Player.x (player t) = 100 -> Player.width (player t) = 30 ->
  cameraX t <= 370 ->
  existsb (hitsObstacle t) (Level.obstacles (level t)) = false.
Proof.
  intros R L PX PW C. rewrite L.
  pose proof (reachable_obstacles_start s R) as O.
  induction (Level.obstacles (level s)) as [|o os IH]; [reflexivity|].
  cbn [forallb] in O. apply andb_true_iff in O. destruct O as (O1 & O2).
  cbn [existsb]. rewrite (IH O2), orb_false_r.
  unfold hitsObstacle. cbv zeta. apply not_true_iff_false.
  rewrite checkCollision_spec, PX, PW.
  apply Qle_bool_iff in O1. intros (_ & A & _). lra.
Qed.

(** The outcome of a tick of a player at rest, by camera position. *)
Lemma idle_outcome s t k :
  reachable s -> 80 <= logicalHeight s -> onTrack s ->
  cameraX s == Qnat k * 5 ->
  gameState t = Playing -> canvas t = canvas s -> level t = level s ->
  cameraX t = cameraX s + scrollSpeed ->
  score t = Math_floor ((cameraX s + scrollSpeed) / 10) ->
  Player.y (player t) = Player.groundY (player s) ->
  Player.groundY (player t) = Player.groundY (player s) ->
  samePlayerSize (player s) (player t) ->
  let r :=
    if existsb (hitsObstacle t) (Level.obstacles (level t)) then die t
    else if existsb (hitsSpike t) (Level.spikes (level t)) then die t
    else if fellOffScreen t then die t
    else if reachedEnd t then win t
    else updateParallax (updateParticles t) in
  ((k <= 73)%nat ->
     gameState r = Playing /\ cameraX r == Qnat (S k) * 5) /\
  (k = 74%nat ->
     gameState r = Dead /\ cameraX r == 375 /\ score r = 37%Z).
Proof.
  intros R H80 (NW & CX & SC & GY & OB & PL) Ck M1 M2 M3 M4 M5 L1 L5
         (L6 & L7 & L8).
  destruct (reachable_built s R) as (Pl & Sp & GH & W & PX & PW & PH).
  cbv zeta.
  assert (LH : logicalHeight t = logicalHeight s)
    by (unfold logicalHeight; now rewrite M2).
  assert (CT : cameraX t == Qnat (S k) * 5).
  { rewrite M4, Ck, Qnat_S. unfold scrollSpeed. lra. }
  assert (PY : Player.y (player t) == logicalHeight t - 80).
  { rewrite L1, LH. exact GY. }
  split.
  - intros Hk.
    assert (K74 : Qnat (S k) <= 74).
    { change 74 with (Qnat 74). apply Qnat_le. lia. }
    rewrite (no_hit_before_first_obstacle s t R M3); try congruence;
      [|rewrite CT; lra].
    replace (existsb (hitsSpike t) (Level.spikes (level t))) with false
      by (rewrite M3, Sp; reflexivity).
    replace (fellOffScreen t) with false.
    2: { symmetry. unfold fellOffScreen. apply Qgtb_false. rewrite PY. lra. }
    replace (reachedEnd t) with false.
    2: { symmetry. unfold reachedEnd. apply Qgeb_false.
         rewrite M3, W, CT. lra. }
    assert (M : sameMotion t (updateParallax (updateParticles t)))
      by auto with motion.
    destruct M as (_ & U2 & _ & _ & _ & _ & U7).
    rewrite U2, U7. split; [exact M1|exact CT].
  - intros ->.
    destruct OB as (o & rest & O1 & O2 & O3 & O4 & O5).
    assert (C375 : cameraX t == 375) by (rewrite CT; reflexivity).
    assert (HT : existsb (hitsObstacle t) (Level.obstacles (level t)) = true).
    { apply (first_obstacle_hits t o rest); congruence. }
    rewrite HT.
    destruct (die_fields t) as (D1 & _ & D3 & D4 & _);
      [rewrite M1; discriminate|].
    rewrite D1, D3, D4. split; [reflexivity|]. split; [exact C375|].
    rewrite M5. unfold Math_floor.
    assert (E : (cameraX s + scrollSpeed) / 10 == 375 # 10).
    { rewrite <- M4, C375. reflexivity. }
    rewrite E. reflexivity.
Qed.

Lemma idle_tick s k :
  reachable s -> 80 <= logicalHeight s -> onTrack s ->
  gameState s = Playing -> cameraX s == Qnat k * 5 ->
  ((k <= 73)%nat ->
     gameState (update s) = Playing /\ cameraX (update s) == Qnat (S k) * 5) /\
  (k = 74%nat ->
     gameState (update s) = Dead /\ cameraX (update s) == 375 /\
     score (update s) = 37%Z).
Proof.
  intros R H80 T E Ck.
  pose proof T as (_ & _ & _ & GY & _ & PL).
  destruct (PL E) as (_ & Yk & Vk).
  destruct (reachable_built s R) as (Pl & Sp & GH & W & PX & PW & PH).
  destruct (moved_fields s) as (M1 & M2 & M3 & M4 & M5 & _).
  destruct (movePlayer_lands s Pl) as (L1 & L2 & L3 & L4 & L5 & L6).
  { rewrite Yk, PH. unfold gravity. lra. }
  { rewrite GY. lra. }
  rewrite (update_playing s E).
  apply (idle_outcome s (movePlayer (advanceCamera s)) k); try assumption.
  congruence.
Qed.

(** X10.  A run without any input.  On a canvas at least 80 pixels high,
    start the game and let frames pass.  For the first 74 ticks the game is
    [Playing] and the camera is at [5 n] after [n] ticks; the 75th tick
    brings the camera to 375, where the player overlaps the first obstacle,
    and from then on the state is [Dead] with the camera at 375 and the
    score 37. *)
Theorem idle_run_dies_at_first_obstacle
    (c : Canvas.t) (st : Storage.t) (audio : option AudioState)
    (rnd : nat -> Q) (hidden : bool) (n : nat) :
  80 <= logicalHeight (construct c st audio rnd hidden) ->
  let s := iterate n update (startGame (construct c st audio rnd hidden)) in
  ((n <= 74)%nat -> gameState s = Playing /\ cameraX s == Qnat n * 5) /\
  ((75 <= n)%nat ->
     gameState s = Dead /\ cameraX s == 375 /\ score s = 37%Z).
Proof.
  intros H. cbv zeta.
  set (s0 := startGame (construct c st audio rnd hidden)).
  assert (R0 : reachable s0).
  { subst s0. apply (reachable_handle StartButton). apply reachable_construct. }
  destruct (onTrack_startGame _ (onTrack_construct c st audio rnd hidden))
    as (T0 & L0). fold s0 in T0, L0.
  assert (P0 : gameState s0 = Playing /\ cameraX s0 = 0).
  { destruct (startGame_fields (construct c st audio rnd hidden))
      as (A & B & _); [|now split].
    destruct (construct_motion c st audio rnd hidden)
      as (es & _ & _ & _ & _ & _ & _ & G).
    rewrite G. discriminate. }
  clearbody s0.
  assert (I : forall m,
    let s := iterate m update s0 in
    reachable s /\ logicalHeight s = logicalHeight s0 /\ onTrack s /\
    ((m <= 74)%nat -> gameState s = Playing /\ cameraX s == Qnat m * 5) /\
    ((75 <= m)%nat ->
       gameState s = Dead /\ cameraX s == 375 /\ score s = 37%Z)).
  { induction m as [|m IH]; cbv zeta.
    - cbn [iterate]. destruct P0 as (P1 & P2).
      split; [exact R0|]. split; [reflexivity|]. split; [exact T0|].
      split; [|intros; lia].
      intros _. split; [exact P1|].
      rewrite P2. change (Qnat 0) with 0. lra.
    - cbv zeta in IH. destruct IH as (R & L & T & A & B).
      rewrite iterate_succ.
      remember (iterate m update s0) as s eqn:Es. clear Es.
      assert (H80 : 80 <= logicalHeight s) by (rewrite L, L0; exact H).
      destruct (onTrack_update s R H80 T) as (T' & L').
      split; [apply (reachable_handle (Frame false) _ R)|].
      split; [congruence|]. split; [exact T'|].
      destruct (Nat.le_gt_cases m 74) as [Hm|Hm].
      + destruct (A Hm) as (A1 & A2).
        destruct (idle_tick s m R H80 T A1 A2) as (I1 & I2).
        split.
        * intros Hm'. apply I1. lia.
        * intros Hm'. apply I2. lia.
      + destruct (B Hm) as (B1 & B2 & B3).
        rewrite (update_dead s B1).
        split; [intros; lia|]. intros _. auto. }
  destruct (I n) as (_ & _ & _ & A & B). split; assumption.
Qed.

Lemma idle_run_dies_at_first_obstacle_witness :
  gameState (iterate 100 update running) = Dead /\
  score (iterate 100 update running) = 37%Z.
Proof.
  destruct (idle_run_dies_at_first_obstacle sampleCanvas emptyStorage
              (Some Suspended) (fun _ => 1 # 2) false 100) as (_ & A).
  - vm_compute. discriminate.
  - destruct A as (A & _ & B); [lia|]. split; [exact A|exact B].
Defined.

(** ** Particles (game.js, [updateParticles], [die]) *)

Lemma Forall_skipn {A : Type} (P : A -> Prop) n (l : list A) :
  Forall P l -> Forall P (skipn n l).
Proof.
  revert l. induction n as [|n IH]; intros l H; [exact H|].
  destruct l as [|a l]; [constructor|]. cbn [skipn].
  apply IH. now inversion H.
Qed.

Lemma In_skipn {A : Type} n (l : list A) x : In x (skipn n l) -> In x l.
Proof.
  revert l. induction n as [|n IH]; intros l H; [exact H|].
  destruct l as [|a l]; [exact H|]. right. now apply IH.
Qed.

Lemma particles_updateParticles s :
  exists ps,
    particles (updateParticles s) =
      (let l := filter alive (map ageParticle ps) in
       if (50 <? List.length l)%nat
       then skipn (List.length l - 50) l else l) /\
    ps = particles (if GameState_eqb (gameState s) Playing
                    then pushTrailParticle s else s).
Proof.
  eexists. split; [|reflexivity].
  unfold updateParticles. cbv zeta.
  generalize (if GameState_eqb (gameState s) Playing
              then pushTrailParticle s else s).
  intros u. destruct u as [? ? ? ? ? ? ? ? ps]. cbn.
  match goal with |- context [if ?b then _ else _] => destruct b end;
    reflexivity.
Qed.

Lemma updateParticles_cap (s : Game) :
  (List.length (particles (updateParticles s)) <= 50)%nat /\
  Forall (fun q => 0 < Particle.life q) (particles (updateParticles s)) /\
  (forall q', In q' (particles (updateParticles s)) ->
     exists q,
       In q (particles (if GameState_eqb (gameState s) Playing
                        then pushTrailParticle s else s)) /\
       q' = ageParticle q /\
       Particle.life q' = Particle.life q - 1) /\
  (gameState s <> Playing ->
   (List.length (particles (updateParticles s))
    <= List.length (particles s))%nat).
Proof.
  destruct (particles_updateParticles s) as (ps & E & Eps).
  rewrite E. cbv zeta. clear E.
  set (l := filter alive (map ageParticle ps)).
  assert (A : Forall (fun q => 0 < Particle.life q) l).
  { apply Forall_forall. intros q Hq. subst l.
    apply filter_In in Hq. destruct Hq as (_ & Hq).
    unfold alive in Hq. now apply Qgtb_lt in Hq. }
  assert (B : forall q', In q' l ->
                exists q, In q ps /\ q' = ageParticle q /\
                          Particle.life q' = Particle.life q - 1).
  { intros q' Hq. subst l. apply filter_In in Hq. destruct Hq as (Hq & _).
    apply in_map_iff in Hq. destruct Hq as (q & <- & Hq).
    exists q. repeat split. exact Hq. }
  assert (C : (List.length l <= List.length ps)%nat).
  { subst l. eapply Nat.le_trans; [apply filter_length_le|].
    now rewrite length_map. }
  rewrite <- Eps.
  destruct (50 <? List.length l)%nat eqn:L.
  - apply Nat.ltb_lt in L. repeat split.
    + rewrite length_skipn. lia.
    + now apply Forall_skipn.
    + intros q' Hq. apply B. eapply In_skipn. exact Hq.
    + intros N. rewrite length_skipn.
      destruct (GameState_eqb (gameState s) Playing) eqn:G;
        [apply GameState_eqb_eq in G; contradiction|].
      rewrite Eps in C. lia.
  - apply Nat.ltb_ge in L. repeat split; try assumption.
    intros N.
    destruct (GameState_eqb (gameState s) Playing) eqn:G;
      [apply GameState_eqb_eq in G; contradiction|].
    now rewrite Eps in C.
Qed.

(** X11.  After [updateParticles] there are at most 50 particles, each
    with a positive remaining life, and each is an old particle (or, while
    playing, the new trail particle) aged by one step: moved by its
    velocity, slowed to 95%, its life one less.  Particles whose life
    reaches 0 are gone, and when more than 50 remain the oldest are
    dropped. *)
Theorem updateParticles_bounded (s : Game) :
  (List.length (particles (updateParticles s)) <= 50)%nat /\
  Forall (fun q => 0 < Particle.life q) (particles (updateParticles s)) /\
  (forall q', In q' (particles (updateParticles s)) ->
     exists q,
       In q (particles (if GameState_eqb (gameState s) Playing
                        then pushTrailParticle s else s)) /\
       q' = ageParticle q /\
       Particle.life q' = Particle.life q - 1) /\
  (gameState s <> Playing ->
   (List.length (particles (updateParticles s))
    <= List.length (particles s))%nat).
Proof. exact (updateParticles_cap s). Qed.

Lemma updateParticles_bounded_witness :
  (List.length (particles (updateParticles crashed))
   <= List.length (particles crashed))%nat.
Proof.
  destruct (updateParticles_bounded crashed) as (_ & _ & _ & A).
  apply A. vm_compute. discriminate.
Defined.

Lemma death_particles n u :
  exists burst,
    particles (iterate n pushDeathParticle u) = (particles u ++ burst)%list /\
    List.length burst = n /\
    Forall (deathParticle (player u)) burst /\
    randomCalls (iterate n pushDeathParticle u) = (randomCalls u + 3 * n)%nat /\
    player (iterate n pushDeathParticle u) = player u.
Proof.
  revert u. induction n as [|n IH]; intros u.
  - exists []. cbn [iterate]. rewrite app_nil_r. repeat split; auto.
  - cbn [iterate].
    destruct (IH (pushDeathParticle u)) as (b & A & B & C & D & E).
    assert (P : player (pushDeathParticle u) = player u) by now destruct u.
    assert (Q : exists q, particles (pushDeathParticle u)
                          = (particles u ++ [q])%list /\
                          deathParticle (player u) q).
    { clear. unfold pushDeathParticle, Math_random. destruct u. cbn.
      eexists. split; [reflexivity|]. repeat split. }
    destruct Q as (q & Q1 & Q2).
    exists (q :: b). rewrite A, Q1, <- app_assoc. cbn [app].
    split; [reflexivity|]. split; [cbn; lia|].
    split; [constructor; [exact Q2|now rewrite <- P]|].
    split; [rewrite D; destruct u; cbn; lia|congruence].
Qed.

Lemma checkHighScore_particles t :
  particles (checkHighScore t) = particles t /\
  randomCalls (checkHighScore t) = randomCalls t.
Proof.
  unfold checkHighScore, saveHighScore, emit. cbv zeta.
  branches; now destruct t.
Qed.

Lemma death_prelude_fields s :
  let u := playDeathSound (set_gameState Dead s) in
  particles u = particles s /\ randomCalls u = randomCalls s /\
  player u = player s.
Proof.
  cbv zeta. unfold playDeathSound, emit. destruct (negb _); now destruct s.
Qed.

Lemma emit_particles e t :
  particles (emit e t) = particles t /\ randomCalls (emit e t) = randomCalls t.
Proof. now destruct t. Qed.

Lemma die_burst (s : Game) :
  gameState s <> Dead ->
  exists burst,
    particles (die s) = (particles s ++ burst)%list /\
    List.length burst = 20%nat /\
    Forall (deathParticle (player s)) burst /\
    randomCalls (die s) = (randomCalls s + 60)%nat.
Proof.
  intros H. unfold die.
  destruct (GameState_eqb (gameState s) Dead) eqn:E;
    [apply GameState_eqb_eq in E; contradiction|].
  cbv zeta. unfold showGameOverScreen.
  destruct (death_particles 20 (playDeathSound (set_gameState Dead s)))
    as (b & A & B & C & D & _).
  destruct (death_prelude_fields s) as (F1 & F2 & F3).
  rewrite F1 in A. rewrite F2 in D. rewrite F3 in C.
  remember (iterate 20 pushDeathParticle
              (playDeathSound (set_gameState Dead s))) as u eqn:Eu.
  clear Eu.
  destruct (checkHighScore_particles u) as (P1 & P2).
  destruct (emit_particles
              (ShowGameOverScreen (distance (checkHighScore u))
                 (gt_num (score (checkHighScore u))
                    (loadHighScore (checkHighScore u))))
              (checkHighScore u)) as (E1 & E2).
  exists b. rewrite E1, E2, P1, P2. repeat split; assumption.
Qed.

(** X12.  Dying from a state that is not yet [Dead] appends exactly 20
    particles to the collection, all at the centre of the player's box,
    white, with 30 steps to live, and draws exactly 60 random values (two
    velocities and a size each). *)
Theorem die_spawns_burst (s : Game) :
  gameState s <> Dead ->
  exists burst,
    particles (die s) = (particles s ++ burst)%list /\
    List.length burst = 20%nat /\
    Forall (deathParticle (player s)) burst /\
    randomCalls (die s) = (randomCalls s + 60)%nat.
Proof. exact (die_burst s). Qed.

Lemma die_spawns_burst_witness :
  List.length (particles (die midRun)) = (List.length (particles midRun) + 20)%nat.
Proof.
  destruct (die_spawns_burst midRun) as (b & A & B & _).
  - vm_compute. discriminate.
  - rewrite A, length_app, B. reflexivity.
Defined.

Lemma particlesBounded_same s t :
  particlesBounded s -> particles t = particles s ->
  gameState t = gameState s -> particlesBounded t.
Proof. unfold particlesBounded. intros H -> ->. exact H. Qed.

Lemma particlesBounded_empty u : particles u = [] -> particlesBounded u.
Proof.
  intros E. unfold particlesBounded. rewrite E. cbn [List.length].
  split; [intros _|]; lia.
Qed.

Lemma particlesBounded_startGame s :
  particlesBounded s -> particlesBounded (startGame s).
Proof.
  intros H. destruct (GameState_eqb (gameState s) Playing) eqn:E.
  - unfold startGame. now rewrite E.
  - destruct (startGame_fields s) as (_ & _ & _ & _ & A & _).
    + intros G. apply GameState_eqb_eq in G. congruence.
    + now apply particlesBounded_empty.
Qed.

Lemma particlesBounded_restart s :
  particlesBounded s -> particlesBounded (restart s).
Proof.
  intros H. destruct (restart_startGame s) as [es ->].
  apply (particlesBounded_same (startGame s));
    [now apply particlesBounded_startGame| |]; now destruct (startGame s).
Qed.

Lemma handleJumpStart_particles s :
  gameState s = Playing \/ gameState s = Win ->
  particles (handleJumpStart s) = particles s /\
  gameState (handleJumpStart s) = gameState s.
Proof.
  intros H. destruct (handleJumpStart_prelude s) as [es E]. rewrite E.
  cbv zeta.
  replace (gameState (set_effects es s)) with (gameState s) by now destruct s.
  destruct H as [H|H]; rewrite H; [|now destruct s].
  unfold playJumpSound, emit.
  destruct (_ && _); [destruct (negb _); now destruct s|].
  destruct (_ && _); [|now destruct s].
  cbv zeta. destruct (Qltb _ _); now destruct s.
Qed.

Lemma particlesBounded_handleJumpStart s :
  particlesBounded s -> particlesBounded (handleJumpStart s).
Proof.
  intros H. destruct (gameState s) eqn:G.
  - destruct (handleJumpStart_prelude s) as [es E]. rewrite E. cbv zeta.
    replace (gameState (set_effects es s)) with Start by now destruct s.
    apply particlesBounded_startGame.
    apply (particlesBounded_same s); [exact H| |]; now destruct s.
  - destruct (handleJumpStart_particles s) as (A & B); [now left|].
    now apply (particlesBounded_same s).
  - destruct (handleJumpStart_prelude s) as [es E]. rewrite E. cbv zeta.
    replace (gameState (set_effects es s)) with Dead by now destruct s.
    apply particlesBounded_restart.
    apply (particlesBounded_same s); [exact H| |]; now destruct s.
  - destruct (handleJumpStart_particles s) as (A & B); [now right|].
    now apply (particlesBounded_same s).
Qed.

Lemma particlesBounded_outcome t :
  gameState t = Playing -> particlesBounded t ->
  particlesBounded
    (if existsb (hitsObstacle t) (Level.obstacles (level t)) then die t
     else if existsb (hitsSpike t) (Level.spikes (level t)) then die t
     else if fellOffScreen t then die t
     else if reachedEnd t then win t
     else updateParallax (updateParticles t)).
Proof.
  intros P (B1 & B2).
  assert (D : particlesBounded (die t)).
  { destruct (die_burst t) as (b & A & B & _);
      [rewrite P; discriminate|].
    unfold particlesBounded. rewrite gameState_die, A, length_app, B.
    assert (L : (List.length (particles t) <= 50)%nat)
      by (apply B1; rewrite P; discriminate).
    split; [intros N; now contradiction N|lia]. }
  assert (W : particlesBounded (win t)).
  { unfold win. cbv zeta.
    destruct (checkHighScore_particles (set_gameState Win t)) as (A & _).
    unfold particlesBounded. rewrite A.
    replace (particles (set_gameState Win t)) with (particles t)
      by now destruct t.
    assert (L : (List.length (particles t) <= 50)%nat)
      by (apply B1; rewrite P; discriminate).
    split; [intros _|]; lia. }
  assert (U : particlesBounded (updateParallax (updateParticles t))).
  { destruct (updateParticles_cap t) as (A & _).
    assert (E : particles (updateParallax (updateParticles t)) =
                particles (updateParticles t)).
    { unfold updateParallax.
      pose proof (updateLayers_keeps
                    (fun s u => particles u = particles s)
                    (fun s u n H => eq_trans
                       (match u return particles (set_randomCalls n u)
                                       = particles u
                        with mkGame _ _ _ _ _ _ _ _ _ _ _ _ _ _ _ _ _ _ =>
                          eq_refl end) H)
                    (parallaxLayers (updateParticles t))
                    (updateParticles t) (updateParticles t) eq_refl) as H1.
      destruct (updateLayers _ _) as [ls u]. cbn [snd] in H1.
      rewrite <- H1. now destruct u. }
    unfold particlesBounded. rewrite E. split; [intros _|]; lia. }
  branches; assumption.
Qed.

Lemma particlesBounded_update s :
  particlesBounded s -> particlesBounded (update s).
Proof.
  intros H. destruct (GameState_eqb (gameState s) Playing) eqn:E.
  - apply GameState_eqb_eq in E. rewrite (update_playing s E).
    destruct (moved_fields s) as (M1 & _ & _ & _ & _ & _ & _ & M8 & _).
    apply particlesBounded_outcome; [congruence|].
    apply (particlesBounded_same s); assumption.
  - rewrite update_not_playing; [assumption|].
    intros G. apply GameState_eqb_eq in G. congruence.
Qed.

Lemma resizeCanvas_particles s :
  particles (resizeCanvas s) = particles s /\
  gameState (resizeCanvas s) = gameState s.
Proof.
  unfold resizeCanvas, measure, emit. cbv zeta.
  destruct (_ || _); cbv iota beta; destruct s as [? g]; cbn;
    destruct g; cbn; split; reflexivity.
Qed.

Lemma audioResumed_particles s :
  particles (audioResumed s) = particles s /\
  gameState (audioResumed s) = gameState s.
Proof.
  destruct (sameMotion_audioResumed s s (sameMotion_refl s))
    as (_ & _ & _ & _ & _ & _ & G).
  split; [|exact G].
  unfold audioResumed, startBackgroundMusic, emit, audioUsable. cbv zeta.
  destruct (audioContext s); [|reflexivity].
  replace (gameState (set_audioContextReady true _)) with (gameState s)
    by now destruct s.
  destruct (gameState s); now destruct s.
Qed.

Lemma particlesBounded_handle i s :
  particlesBounded s -> particlesBounded (handle i s).
Proof.
  intros H. destruct i; cbn [handle].
  - destruct hidden; [assumption|now apply particlesBounded_update].
  - now apply particlesBounded_handleJumpStart.
  - apply (particlesBounded_same s); [exact H| |]; now destruct s.
  - destruct (gameState s);
      (now apply particlesBounded_startGame)
      || (now apply particlesBounded_handleJumpStart).
  - now apply particlesBounded_startGame.
  - now apply particlesBounded_restart.
  - destruct (resizeCanvas_particles (set_canvas c s)) as (A & B).
    apply (particlesBounded_same s); [exact H| |].
    + rewrite A. now destruct s.
    + rewrite B. now destruct s.
  - destruct (audioResumed_particles s) as (A & B).
    now apply (particlesBounded_same s).
Qed.

Lemma particlesBounded_construct c st audio rnd hidden :
  particlesBounded (construct c st audio rnd hidden).
Proof.
  destruct (construct_unfold c st audio rnd hidden) as [es ->]. cbv zeta.
  assert (I : particlesBounded
                (initAudio audio
                   (initParallax (createLevel (beforeLevel c st rnd es))))).
  { assert (E : particles (initAudio audio
                   (initParallax (createLevel (beforeLevel c st rnd es))))
                = []).
    { transitivity (particles
                      (initParallax (createLevel (beforeLevel c st rnd es)))).
      { unfold initAudio. cbv zeta.
        destruct audio as [[|]|];
          now destruct (initParallax _). }
      unfold initParallax.
      pose proof (initLayers_keeps
                    (fun s u => particles u = particles s)
                    (fun s u n H => eq_trans
                       (match u return particles (set_randomCalls n u)
                                       = particles u
                        with mkGame _ _ _ _ _ _ _ _ _ _ _ _ _ _ _ _ _ _ =>
                          eq_refl end) H)
                    (parallaxLayers (createLevel (beforeLevel c st rnd es)))
                    0%nat
                    (createLevel (beforeLevel c st rnd es))
                    (createLevel (beforeLevel c st rnd es)) eq_refl) as H1.
      destruct (initLayers _ _ _) as [ls u]. cbn [snd] in H1.
      transitivity (particles u); [now destruct u|].
      rewrite H1. reflexivity. }
    now apply particlesBounded_empty. }
  destruct hidden; [exact I|now apply particlesBounded_update].
Qed.

(** X13.  The particle collection is bounded in every reachable state: at
    most 50 particles unless the state is [Dead], and at most 70 in any
    state (the 50 of the trail and the 20 of the death burst). *)
Theorem particles_bounded (s : Game) :
  reachable s ->
  (gameState s <> Dead -> (List.length (particles s) <= 50)%nat) /\
  (List.length (particles s) <= 70)%nat.
Proof.
  induction 1 as [c st audio rnd hidden | i s _ IH].
  - apply particlesBounded_construct.
  - now apply particlesBounded_handle.
Qed.

Lemma particles_bounded_witness :
  (List.length (particles (iterate 100 (handle (Frame false)) running))
   <= 70)%nat.
Proof.
  destruct (particles_bounded (iterate 100 (handle (Frame false)) running))
    as (_ & A); [|exact A].
  apply reachable_iterate. unfold running.
  apply (reachable_handle StartButton). apply reachable_construct.
Defined.

(** ** The parallax background (game.js, [updateParallax], [initParallax]) *)

Lemma set_randomCalls_twice n m s :
  set_randomCalls n (set_randomCalls m s) = set_randomCalls n s.
Proof. now destruct s. Qed.

Lemma leavesScreen_set_randomCalls n s speed e :
  leavesScreen (set_randomCalls n s) speed e = leavesScreen s speed e.
Proof. now destruct s. Qed.

Lemma filter_leavesScreen_set_randomCalls n s speed es :
  filter (leavesScreen (set_randomCalls n s) speed) es =
  filter (leavesScreen s speed) es.
Proof.
  apply filter_ext. intros e. apply leavesScreen_set_randomCalls.
Qed.

Lemma updateElements_spec speed es s :
  let r := updateElements speed es s in
  map elementShape (fst r) = map elementShape es /\
  Forall2 (scrolled s speed) es (fst r) /\
  snd r =
    set_randomCalls
      (randomCalls s + List.length (filter (leavesScreen s speed) es)) s.
Proof.
  cbv zeta. revert s. induction es as [|e es IH]; intros s.
  - cbn. repeat split; [constructor|].
    replace (randomCalls s + 0)%nat with (randomCalls s) by lia.
    now destruct s.
  - cbn [updateElements filter]. cbv zeta.
    change (Qltb (Element.x e - scrollSpeed * speed + Element.size e)
              (- cameraX s)) with (leavesScreen s speed e).
    destruct (leavesScreen s speed e) eqn:C.
    + unfold Math_random.
      destruct (IH (set_randomCalls (S (randomCalls s)) s)) as (A & B & E).
      destruct (updateElements speed es _) as [rest s2].
      cbn [fst snd] in *. split; [cbn [map]; now rewrite A|].
      split.
      * constructor.
        -- unfold scrolled. rewrite C.
           exists (randomCalls s). reflexivity.
        -- eapply Forall2_impl; [|exact B].
           intros a b. unfold scrolled.
           now rewrite leavesScreen_set_randomCalls; destruct s.
      * rewrite E, set_randomCalls_twice,
          filter_leavesScreen_set_randomCalls.
        f_equal. cbn [List.length]. destruct s; cbn. lia.
    + destruct (IH s) as (A & B & E).
      destruct (updateElements speed es s) as [rest s2].
      cbn [fst snd] in *. split; [cbn [map]; now rewrite A|].
      split; [|exact E].
      constructor; [|exact B].
      unfold scrolled. rewrite C. reflexivity.
Qed.

Lemma updateLayers_spec ls s :
  let r := updateLayers ls s in
  map layerShape (fst r) = map layerShape ls /\
  Forall2 (fun l l' =>
             Forall2 (scrolled s (Layer.speed l))
               (Layer.elements l) (Layer.elements l')) ls (fst r) /\
  snd r =
    set_randomCalls
      (randomCalls s +
       list_sum
         (map (fun l =>
                 List.length
                   (filter (leavesScreen s (Layer.speed l))
                      (Layer.elements l))) ls)) s.
Proof.
  cbv zeta. revert s. induction ls as [|l ls IH]; intros s.
  - cbn. repeat split; [constructor|].
    replace (randomCalls s + 0)%nat with (randomCalls s) by lia.
    now destruct s.
  - cbn [updateLayers].
    destruct (updateElements_spec (Layer.speed l) (Layer.elements l) s)
      as (A & B & E).
    destruct (updateElements _ _ s) as [es s1]. cbn [fst snd] in *.
    subst s1.
    set (n := (randomCalls s +
               List.length (filter (leavesScreen s (Layer.speed l))
                              (Layer.elements l)))%nat) in *.
    destruct (IH (set_randomCalls n s)) as (A' & B' & E').
    destruct (updateLayers ls _) as [rest s2]. cbn [fst snd] in *.
    split; [cbn [map]; unfold layerShape at 1 3; cbn; now rewrite A, A'|].
    split.
    + constructor; [exact B|].
      eapply Forall2_impl; [|exact B'].
      intros a b H. eapply Forall2_impl; [|exact H].
      intros x y. unfold scrolled.
      now rewrite leavesScreen_set_randomCalls; destruct s.
    + rewrite E', set_randomCalls_twice. f_equal.
      replace (randomCalls (set_randomCalls n s)) with n by now destruct s.
      cbn [map list_sum fold_right]. subst n.
      rewrite <- Nat.add_assoc. reflexivity.
Qed.

(** X14.  [updateParallax] keeps the layers as they are, their speed and
    colour, the number of their elements and every element's height,
    size and opacity.  It moves each element left by [scrollSpeed * speed];
    an element whose right edge is then left of [-cameraX]
    ([x + size < -cameraX]) is put at [level.width] plus a random value
    times 500 instead.  One random value is drawn for each element so
    re-placed and none otherwise, and apart from the layers and the number
    of random values drawn nothing of the game changes. *)
Theorem updateParallax_scrolls (s : Game) :
  map layerShape (parallaxLayers (updateParallax s)) =
    map layerShape (parallaxLayers s) /\
  Forall2 (fun l l' =>
             Forall2 (scrolled s (Layer.speed l))
               (Layer.elements l) (Layer.elements l'))
    (parallaxLayers s) (parallaxLayers (updateParallax s)) /\
  randomCalls (updateParallax s) = (randomCalls s + replacedCount s)%nat /\
  updateParallax s =
    set_parallaxLayers (parallaxLayers (updateParallax s))
      (set_randomCalls (randomCalls (updateParallax s)) s).
Proof.
  unfold updateParallax, replacedCount.
  destruct (updateLayers_spec (parallaxLayers s) s) as (A & B & E).
  destruct (updateLayers (parallaxLayers s) s) as [ls s1].
  cbn [fst snd] in *. subst s1.
  match goal with
  | |- context [set_randomCalls ?k s] => set (n := k) in *
  end.
  replace (parallaxLayers (set_parallaxLayers ls (set_randomCalls n s)))
    with ls by now destruct s.
  replace (randomCalls (set_parallaxLayers ls (set_randomCalls n s)))
    with n by now destruct s.
  repeat split; assumption.
Qed.

Lemma freshElement_set_randomCalls s n i e :
  freshElement (set_randomCalls n s) i e <-> freshElement s i e.
Proof. unfold freshElement, logicalHeight. now destruct s. Qed.

Lemma pushElements_spec i n es0 s :
  exists new,
    iterate n (pushElement i) (es0, s) =
      ((es0 ++ new)%list, set_randomCalls (randomCalls s + 3 * n) s) /\
    List.length new = n /\ Forall (freshElement s i) new.
Proof.
  revert es0 s. induction n as [|n IH]; intros es0 s.
  - exists []. cbn [iterate]. rewrite app_nil_r.
    split; [|split; [reflexivity|constructor]].
    f_equal. replace (randomCalls s + 3 * 0)%nat with (randomCalls s) by lia.
    now destruct s.
  - cbn [iterate].
    assert (P : exists e,
               pushElement i (es0, s) =
                 ((es0 ++ [e])%list,
                  set_randomCalls (randomCalls s + 3) s) /\
               freshElement s i e).
    { clear. unfold pushElement, Math_random, set_randomCalls.
      destruct s. cbn.
      eexists. split.
      - f_equal. f_equal. lia.
      - unfold freshElement, logicalHeight. cbn.
        eexists. eexists. eexists. repeat split. }
    destruct P as (e & P1 & P2). rewrite P1.
    destruct (IH (es0 ++ [e])%list (set_randomCalls (randomCalls s + 3) s))
      as (new & A & B & C).
    exists (e :: new). rewrite A, <- app_assoc. cbn [app].
    split; [|split; [cbn; lia|]].
    + f_equal. rewrite set_randomCalls_twice. f_equal.
      destruct s; cbn; lia.
    + constructor; [exact P2|].
      eapply Forall_impl; [|exact C].
      intros a. apply freshElement_set_randomCalls.
Qed.

Lemma refilled_set_randomCalls s n i ls ls' :
  refilled (set_randomCalls n s) i ls ls' -> refilled s i ls ls'.
Proof.
  revert i ls'. induction ls as [|l ls IH]; intros i [|l' ls'] H;
    try exact H.
  cbn [refilled] in *. destruct H as (A & B & C & D & E).
  repeat split; try assumption. now apply IH.
Qed.

Lemma initLayers_spec ls i s :
  let r := initLayers i ls s in
  refilled s i ls (fst r) /\
  snd r =
    set_randomCalls (randomCalls s + 3 * elementTotal i (List.length ls)) s.
Proof.
  cbv zeta. revert i s. induction ls as [|l ls IH]; intros i s.
  - cbn. split; [exact I|].
    replace (randomCalls s + 0)%nat with (randomCalls s) by lia.
    now destruct s.
  - cbn [initLayers]. cbv zeta.
    destruct (pushElements_spec i (15 + i * 5) [] s) as (new & A & B & C).
    rewrite A. cbn [app].
    destruct (IH (S i)
                (set_randomCalls (randomCalls s + 3 * (15 + i * 5)) s))
      as (R & E).
    destruct (initLayers (S i) ls _) as [rest s2]. cbn [fst snd] in *.
    split.
    + cbn [refilled Layer.speed Layer.color Layer.elements].
      repeat split; try assumption.
      eapply refilled_set_randomCalls. exact R.
    + rewrite E, set_randomCalls_twice. f_equal.
      cbn [List.length elementTotal]. destruct s; cbn; lia.
Qed.

Lemma initParallax_spec (s : Game) :
  refilled s 0 (parallaxLayers s) (parallaxLayers (initParallax s)) /\
  randomCalls (initParallax s) =
    (randomCalls s
     + 3 * elementTotal 0 (List.length (parallaxLayers s)))%nat /\
  initParallax s =
    set_parallaxLayers (parallaxLayers (initParallax s))
      (set_randomCalls (randomCalls (initParallax s)) s).
Proof.
  unfold initParallax.
  destruct (initLayers_spec (parallaxLayers s) 0 s) as (A & E).
  destruct (initLayers 0 (parallaxLayers s) s) as [ls s1].
  cbn [fst snd] in *. subst s1.
  replace (parallaxLayers (set_parallaxLayers ls (set_randomCalls _ s)))
    with ls by now destruct s.
  replace (randomCalls (set_parallaxLayers ls (set_randomCalls _ s)))
    with (randomCalls s + 3 * elementTotal 0 (List.length (parallaxLayers s)))%nat
    by now destruct s.
  repeat split. exact A.
Qed.

(** X15.  [initParallax] refills every layer from scratch: layer number
    [i] keeps its speed and colour and gets exactly [15 + 5 i] elements,
    each placed and sized by three random values and with opacity
    [0.1 + 0.1 i]; three random values are drawn per element and nothing
    else of the game changes. *)
Theorem initParallax_refills (s : Game) :
  refilled s 0 (parallaxLayers s) (parallaxLayers (initParallax s)) /\
  randomCalls (initParallax s) =
    (randomCalls s
     + 3 * elementTotal 0 (List.length (parallaxLayers s)))%nat /\
  initParallax s =
    set_parallaxLayers (parallaxLayers (initParallax s))
      (set_randomCalls (randomCalls (initParallax s)) s).
Proof. exact (initParallax_spec s). Qed.

(** The three layers of the constructor get 15, 20 and 25 elements and the
    constructor draws 180 random values. *)
Lemma construct_parallax c st audio rnd :
  map (fun l => List.length (Layer.elements l))
      (parallaxLayers (construct c st audio rnd true)) = [15; 20; 25]%nat /\
  randomCalls (construct c st audio rnd true) = 180%nat.
Proof.
  destruct (construct_unfold c st audio rnd true) as [es ->]. cbv zeta.
  set (b := createLevel (beforeLevel c st rnd es)).
  destruct (initParallax_spec b) as (A & B & _).
  assert (L : parallaxLayers b =
              [Layer.mk (2 # 10) "#2a2a2a" [];
               Layer.mk (5 # 10) "#3a3a3a" [];
               Layer.mk 1 "#4a4a4a" []]) by reflexivity.
  assert (R0 : randomCalls b = 0%nat) by reflexivity.
  clearbody b.
  replace (parallaxLayers (initAudio audio (initParallax b)))
    with (parallaxLayers (initParallax b))
    by (unfold initAudio; destruct audio as [[|]|];
        now destruct (initParallax b)).
  replace (randomCalls (initAudio audio (initParallax b)))
    with (randomCalls (initParallax b))
    by (unfold initAudio; destruct audio as [[|]|];
        now destruct (initParallax b)).
  rewrite B, L, R0. split; [|reflexivity].
  rewrite L in A.
  destruct (parallaxLayers (initParallax b)) as [|l1 [|l2 [|l3 [|l4 r]]]];
    cbn [refilled] in A; try tauto.
  destruct A as (_ & _ & A1 & _ & _ & _ & A2 & _ & _ & _ & A3 & _).
  cbn [map]. now rewrite A1, A2, A3.
Qed.

Lemma createLevel_obstacles s :
  exists new,
    Level.obstacles (level (createLevel s)) =
      (Level.obstacles (level s) ++ new)%list /\
    new =
      let groundY := logicalHeight s - Level.groundHeight (level s) in
      (map (fun i => Obstacle.mk (500 + Qnat i * 120) (groundY - 25) 35 25
                       "#d0d0d0") (seq 0 4) ++
       map (fun i => Obstacle.mk (500 + 480 + Qnat i * 100) (groundY - 30)
                       40 30 "#b0b0b0") (seq 0 5) ++
       map (fun i => Obstacle.mk (500 + 480 + 500 + Qnat i * 90)
                       (groundY - (if (i mod 2 =? 0)%nat then 25 else 35)) 35
                       (if (i mod 2 =? 0)%nat then 25 else 35) "#909090")
           (seq 0 6) ++
       map (fun i => Obstacle.mk (500 + 480 + 500 + 540 + Qnat i * 80)
                       (groundY - 30) 30 30 "#c0c0c0") (seq 0 8) ++
       map (fun i => Obstacle.mk
                       (500 + 480 + 500 + 540 + 640 + Qnat i * 85)
                       (groundY - (20 + Qnat (i mod 3) * 10)) 35
                       (20 + Qnat (i mod 3) * 10) "#a0a0a0") (seq 0 7) ++
       map (fun i => Obstacle.mk
                       (500 + 480 + 500 + 540 + 640 + 595 + Qnat i * 70)
                       (groundY - 28) 32 28 "#e0e0e0") (seq 0 10))%list.
Proof.
  eexists. split; [|reflexivity].
  destruct s as [? ? ? ? ? ? lv]. destruct lv.
  cbv beta iota zeta delta
    [createLevel pushObstacles set_level set_player set_levelWidth level
     Level.obstacles Level.width Level.groundHeight Level.platforms
     Level.spikes].
  rewrite <- !app_assoc. reflexivity.
Qed.

Lemma createLevel_blocks (s : Game) :
  let g := logicalHeight s - Level.groundHeight (level s) in
  let s' := createLevel s in
  (exists new,
     Level.obstacles (level s') = (Level.obstacles (level s) ++ new)%list /\
     List.length new = 40%nat /\
     Forall (fun o => standsOn g o /\ smallBlock o /\
                      500 <= Obstacle.x o /\
                      Obstacle.x o + Obstacle.width o + 338 <=
                        Level.width (level s')) new /\
     spaced 38 new) /\
  Level.width (level s') = 4255 /\
  Level.groundHeight (level s') = Level.groundHeight (level s) /\
  Level.platforms (level s') = Level.platforms (level s) /\
  Level.spikes (level s') = Level.spikes (level s) /\
  Player.groundY (player s') = g - Player.height (player s) /\
  Player.y (player s') = Player.groundY (player s').
Proof.
  cbv zeta.
  assert (W : Level.width (level (createLevel s)) = 4255)
    by (destruct s as [? ? ? ? ? ? lv]; destruct lv; reflexivity).
  split; [|split; [exact W|]].
  - destruct (createLevel_obstacles s) as (new & E & N).
    exists new. split; [exact E|]. rewrite W. clear E W.
    cbv zeta in N.
    set (g := logicalHeight s - Level.groundHeight (level s)) in *.
    clearbody g. subst new.
    cbn [map seq app Nat.modulo Nat.divmod Nat.eqb fst snd Nat.sub].
    split; [reflexivity|]. split.
    + unfold standsOn, smallBlock.
      repeat (constructor;
              [cbn [Obstacle.x Obstacle.y Obstacle.width Obstacle.height];
               unfold Qnat, inject_Z; cbn [Z.of_nat Pos.of_succ_nat Pos.succ];
               repeat split; lra|]).
      constructor.
    + cbn [spaced Obstacle.x Obstacle.width].
      unfold Qnat, inject_Z; cbn [Z.of_nat Pos.of_succ_nat Pos.succ].
      repeat split; lra.
  - destruct s as [? ? ? p ? ? lv]. destruct lv, p. repeat split.
Qed.

(** X16.  [createLevel] appends forty blocks to the obstacles already in
    the level and touches neither platforms nor spikes.  Every new block
    stands on the ground line, is 30 to 40 wide and 20 to 40 high, starts
    at 500 or later and leaves the last 338 units of the level free; the
    blocks come from left to right with gaps of at least 38.  The level
    becomes 4255 wide and the player is put on the ground line. *)
Theorem createLevel_layout (s : Game) :
  let g := logicalHeight s - Level.groundHeight (level s) in
  let s' := createLevel s in
  (exists new,
     Level.obstacles (level s') = (Level.obstacles (level s) ++ new)%list /\
     List.length new = 40%nat /\
     Forall (fun o => standsOn g o /\ smallBlock o /\
                      500 <= Obstacle.x o /\
                      Obstacle.x o + Obstacle.width o + 338 <=
                        Level.width (level s')) new /\
     spaced 38 new) /\
  Level.width (level s') = 4255 /\
  Level.groundHeight (level s') = Level.groundHeight (level s) /\
  Level.platforms (level s') = Level.platforms (level s) /\
  Level.spikes (level s') = Level.spikes (level s) /\
  Player.groundY (player s') = g - Player.height (player s) /\
  Player.y (player s') = Player.groundY (player s').
Proof. exact (createLevel_blocks s). Qed.

(** ** Colours *)

Lemma nibble_cases d :
  (0 <= d < 16)%Z ->
  In d [0; 1; 2; 3; 4; 5; 6; 7; 8; 9; 10; 11; 12; 13; 14; 15]%Z.
Proof. intros H. cbn [In]. lia. Qed.

Ltac nibble d H :=
  apply nibble_cases in H; cbn [In] in H;
  repeat (destruct H as [H|H]; [subst d|]); [..|contradiction].

Lemma hexValue_hexChar d : (0 <= d < 16)%Z -> hexValue (hexChar d) = Some d.
Proof. intros H. nibble d H; reflexivity. Qed.

Lemma div16_nibble v : channel v -> (0 <= v / 16 < 16)%Z.
Proof. unfold channel. intros H. Z.div_mod_to_equations. lia. Qed.

Lemma mod16_nibble v : (0 <= v mod 16 < 16)%Z.
Proof. Z.div_mod_to_equations. lia. Qed.

Lemma parseInt16_hex d1 d2 s :
  (0 <= d1 < 16)%Z -> (0 <= d2 < 16)%Z ->
  parseInt16 (String (hexChar d1) (String (hexChar d2) s)) =
    match parseHexDigits s true (d1 * 16 + d2) with
    | Some v => Num (1 * v)
    | None => NaN
    end.
Proof. intros H1 H2. nibble d1 H1; nibble d2 H2; reflexivity. Qed.

Lemma parseHexDigits_hex d s seen acc :
  (0 <= d < 16)%Z ->
  parseHexDigits (String (hexChar d) s) seen acc =
    parseHexDigits s true (acc * 16 + d).
Proof.
  intros H. cbn [parseHexDigits]. now rewrite (hexValue_hexChar d H).
Qed.

Lemma parse_rgb r g b :
  channel r -> channel g -> channel b ->
  parseInt16 (removeHash (rgb r g b)) = Num (r * 65536 + g * 256 + b).
Proof.
  intros R G B. unfold rgb, hex2.
  cbn [String.append removeHash Ascii.eqb Bool.eqb].
  rewrite parseInt16_hex by auto using div16_nibble, mod16_nibble.
  rewrite !parseHexDigits_hex by auto using div16_nibble, mod16_nibble.
  cbn [parseHexDigits]. f_equal.
  unfold channel in *. Z.div_mod_to_equations. lia.
Qed.

Lemma int32_small z :
  (-2147483648 <= z < 2147483648)%Z -> int32 z = z.
Proof. intros H. unfold int32. rewrite Z.mod_small; lia. Qed.

Lemma channels_of r g b :
  channel r -> channel g -> channel b ->
  let n := toInt32 (Num (r * 65536 + g * 256 + b)) in
  Z.shiftr n 16 = r /\ Z.land (Z.shiftr n 8) 255 = g /\ Z.land n 255 = b.
Proof.
  unfold channel. intros R G B. cbv zeta. cbn [toInt32].
  rewrite int32_small by lia.
  rewrite !Z.shiftr_div_pow2 by lia.
  change 255%Z with (Z.ones 8). rewrite !Z.land_ones by lia.
  change (2 ^ 16)%Z with 65536%Z. change (2 ^ 8)%Z with 256%Z.
  repeat split; Z.div_mod_to_equations; lia.
Qed.

Lemma lor_disjoint hi lo k :
  (0 <= k)%Z -> (0 <= lo < 2 ^ k)%Z ->
  Z.lor (hi * 2 ^ k) lo = (hi * 2 ^ k + lo)%Z.
Proof.
  intros K L. rewrite <- Z.add_lor_land.
  assert (E : Z.land (hi * 2 ^ k) lo = 0%Z).
  { rewrite <- (Z.mod_small lo (2 ^ k)) by lia.
    rewrite <- Z.land_ones by lia.
    rewrite Z.land_assoc, (Z.land_comm (hi * 2 ^ k)), <- Z.land_assoc.
    rewrite Z.land_ones by lia. rewrite Z.mod_mul by lia.
    apply Z.land_0_r. }
  rewrite E. lia.
Qed.

Lemma pack r g b :
  channel r -> channel g -> channel b ->
  Z.lor (Z.lor (shl r 16) (shl g 8)) (int32 b) =
    (r * 65536 + g * 256 + b)%Z.
Proof.
  unfold channel, shl. intros R G B.
  rewrite !(int32_small r), !(int32_small g), !(int32_small b) by lia.
  rewrite !Z.shiftl_mul_pow2 by lia.
  change (2 ^ 16)%Z with 65536%Z. change (2 ^ 8)%Z with 256%Z.
  rewrite !int32_small by lia.
  change 65536%Z with (2 ^ 16)%Z at 1.
  rewrite lor_disjoint by (change (2 ^ 16)%Z with 65536%Z; lia).
  change (2 ^ 16)%Z with 65536%Z.
  replace (r * 65536 + g * 256)%Z with ((r * 256 + g) * 2 ^ 8)%Z
    by (change (2 ^ 8)%Z with 256%Z; lia).
  rewrite lor_disjoint by (change (2 ^ 8)%Z with 256%Z; lia).
  change (2 ^ 8)%Z with 256%Z. lia.
Qed.

Lemma zeros_S n acc : zeros (S n) ++ acc = String "0" (zeros n ++ acc).
Proof. reflexivity. Qed.

Lemma zeros_snoc n acc : zeros n ++ String "0" acc = zeros (S n) ++ acc.
Proof.
  induction n as [|n IH]; [reflexivity|].
  rewrite zeros_S, IH. reflexivity.
Qed.

Lemma nibbles_zero k acc : nibbles k 0 acc = zeros k ++ acc.
Proof.
  revert acc. induction k as [|k IH]; intros acc; [reflexivity|].
  cbn [nibbles]. change (0 / 16)%Z with 0%Z. change (0 mod 16)%Z with 0%Z.
  rewrite IH. change (hexChar 0) with "0"%char. apply zeros_snoc.
Qed.

Lemma length_app s t :
  String.length (s ++ t) = (String.length s + String.length t)%nat.
Proof. induction s as [|c s IH]; cbn; [reflexivity|]. now rewrite IH. Qed.

Lemma length_zeros n : String.length (zeros n) = n.
Proof. induction n as [|n IH]; cbn; [reflexivity|]. now f_equal. Qed.

Lemma pow16_S k : (16 ^ Z.of_nat (S k) = 16 * 16 ^ Z.of_nat k)%Z.
Proof. rewrite Nat2Z.inj_succ, Z.pow_succ_r by lia. reflexivity. Qed.

(** The digits [toString] prints are the last [k] digits without their
    leading zeros. *)
Lemma hexDigits_nibbles k :
  forall fuel n acc,
    (1 <= k)%nat -> (1 <= fuel)%nat ->
    (0 <= n < 16 ^ Z.of_nat k)%Z -> (n < 16 ^ Z.of_nat fuel)%Z ->
    exists j,
      (j < k)%nat /\
      nibbles k n acc = zeros j ++ hexDigits fuel n acc /\
      String.length (hexDigits fuel n acc) =
        (k - j + String.length acc)%nat.
Proof.
  induction k as [|k IH]; intros fuel n acc K F N M; [lia|].
  destruct fuel as [|fuel]; [lia|].
  cbn [nibbles hexDigits]. cbv zeta.
  rewrite pow16_S in N, M.
  destruct (Z.eqb_spec (n / 16) 0) as [E|E].
  - rewrite E, nibbles_zero. exists k. split; [lia|]. split; [reflexivity|].
    cbn [String.length]. lia.
  - assert (Q : (0 <= n / 16 < 16 ^ Z.of_nat k)%Z /\
                (n / 16 < 16 ^ Z.of_nat fuel)%Z).
    { assert (0 < 16 ^ Z.of_nat k)%Z by (apply Z.pow_pos_nonneg; lia).
      assert (0 < 16 ^ Z.of_nat fuel)%Z by (apply Z.pow_pos_nonneg; lia).
      split; [split|].
      - apply Z.div_pos; lia.
      - apply Z.div_lt_upper_bound; lia.
      - apply Z.div_lt_upper_bound; lia. }
    destruct Q as (Q1 & Q2).
    assert (K' : (1 <= k)%nat).
    { destruct k; [|lia]. cbn in Q1. lia. }
    assert (F' : (1 <= fuel)%nat).
    { destruct fuel; [|lia]. cbn in Q2. lia. }
    destruct (IH fuel (n / 16)%Z (String (hexChar (n mod 16)) acc)
                K' F' Q1 Q2) as (j & J & A & L).
    exists j. split; [lia|]. split; [exact A|].
    rewrite L. cbn [String.length]. lia.
Qed.

Lemma log2_fuel n :
  (0 <= n)%Z -> (n < 16 ^ Z.of_nat (S (Z.to_nat (Z.log2 n))))%Z.
Proof.
  intros N. rewrite Nat2Z.inj_succ, Z2Nat.id by apply Z.log2_nonneg.
  destruct (Z.eq_dec n 0) as [->|P].
  - reflexivity.
  - pose proof (Z.log2_spec n ltac:(lia)) as (_ & U).
    eapply Z.lt_le_trans; [exact U|].
    apply Z.pow_le_mono_l. lia.
Qed.

Lemma padStart_toString16 k n :
  (1 <= k)%nat -> (0 <= n < 16 ^ Z.of_nat k)%Z ->
  padStart k "0" (toString16 n) = nibbles k n "".
Proof.
  intros K N. unfold toString16.
  destruct (Z.ltb_spec n 0) as [?|_]; [lia|].
  destruct (hexDigits_nibbles k (S (Z.to_nat (Z.log2 n))) n "" K
              ltac:(lia) N (log2_fuel n ltac:(lia))) as (j & J & A & L).
  unfold padStart. rewrite L, A. cbn [String.length].
  replace (k - (k - j + 0))%nat with j by lia. reflexivity.
Qed.

Lemma nibbles_step k m d acc :
  (0 <= d < 16)%Z ->
  nibbles (S k) (m * 16 + d) acc = nibbles k m (String (hexChar d) acc).
Proof.
  intros D. cbn [nibbles].
  replace ((m * 16 + d) / 16)%Z with m by (Z.div_mod_to_equations; lia).
  replace ((m * 16 + d) mod 16)%Z with d by (Z.div_mod_to_equations; lia).
  reflexivity.
Qed.

Lemma nibbles_rgb r g b :
  channel r -> channel g -> channel b ->
  nibbles 6 (r * 65536 + g * 256 + b) "" = hex2 r ++ hex2 g ++ hex2 b.
Proof.
  intros R G B.
  pose proof (div16_nibble r R). pose proof (div16_nibble g G).
  pose proof (div16_nibble b B).
  pose proof (mod16_nibble r). pose proof (mod16_nibble g).
  pose proof (mod16_nibble b).
  replace (r * 65536 + g * 256 + b)%Z
    with (((((r / 16 * 16 + r mod 16) * 16 + g / 16) * 16 + g mod 16) * 16
           + b / 16) * 16 + b mod 16)%Z
    by (Z.div_mod_to_equations; lia).
  rewrite !nibbles_step by assumption.
  replace (r / 16)%Z with (0 * 16 + r / 16)%Z at 1 by lia.
  rewrite nibbles_step by assumption.
  reflexivity.
Qed.

Lemma print_rgb r g b :
  channel r -> channel g -> channel b ->
  String "#"
    (padStart 6 "0"
       (toString16 (Z.lor (Z.lor (shl r 16) (shl g 8)) (int32 b)))) =
    rgb r g b.
Proof.
  intros R G B. rewrite pack by assumption.
  rewrite padStart_toString16.
  - rewrite nibbles_rgb by assumption. reflexivity.
  - lia.
  - unfold channel in *. change (16 ^ Z.of_nat 6)%Z with 16777216%Z. lia.
Qed.

(** X17.  On a colour written [#rrggbb], [lightenColor] adds [percent] to
    each channel and stops at 255; the result is again written [#rrggbb],
    in lower case. *)
Theorem lightenColor_channels (r g b percent : Z) :
  channel r -> channel g -> channel b -> (0 <= percent)%Z ->
  lightenColor (rgb r g b) percent =
    rgb (Z.min 255 (r + percent)) (Z.min 255 (g + percent))
        (Z.min 255 (b + percent)).
Proof.
  intros R G B P. unfold lightenColor. cbv zeta.
  rewrite parse_rgb by assumption.
  destruct (channels_of r g b R G B) as (-> & -> & ->).
  apply print_rgb; unfold channel in *; lia.
Qed.

Lemma lightenColor_channels_witness :
  lightenColor "#d0d0d0" 30 = "#eeeeee" /\
  lightenColor "#e0f0a0" 30 = "#feffbe".
Proof.
  split.
  - apply (lightenColor_channels 208 208 208 30); unfold channel; lia.
  - apply (lightenColor_channels 224 240 160 30); unfold channel; lia.
Defined.

(** X18.  On a colour written [#rrggbb], [darkenColor] subtracts [percent]
    from each channel and stops at 0. *)
Theorem darkenColor_channels (r g b percent : Z) :
  channel r -> channel g -> channel b -> (0 <= percent)%Z ->
  darkenColor (rgb r g b) percent =
    rgb (Z.max 0 (r - percent)) (Z.max 0 (g - percent))
        (Z.max 0 (b - percent)).
Proof.
  intros R G B P. unfold darkenColor. cbv zeta.
  rewrite parse_rgb by assumption.
  destruct (channels_of r g b R G B) as (-> & -> & ->).
  apply print_rgb; unfold channel in *; lia.
Qed.

Lemma darkenColor_channels_witness :
  darkenColor "#d0d0d0" 30 = "#b2b2b2" /\
  darkenColor "#10ff05" 30 = "#00e100".
Proof.
  split.
  - apply (darkenColor_channels 208 208 208 30); unfold channel; lia.
  - apply (darkenColor_channels 16 255 5 30); unfold channel; lia.
Defined.

Lemma parseInt16_name c rest :
  hexValue c = None -> isWhiteSpace c = false ->
  c <> "-"%char -> c <> "+"%char -> c <> "#"%char ->
  parseInt16 (removeHash (String c rest)) = NaN.
Proof.
  intros H W M P S.
  destruct c as [[] [] [] [] [] [] [] []];
    first [ reflexivity | now elim M | now elim P | now elim S
          | discriminate W | discriminate H ].
Qed.

(** X19.  A colour that does not start with a hexadecimal digit, a sign,
    white space or [#] (a colour name such as [red]) is read as NaN, which
    the bitwise operators turn into 0: [lightenColor] answers the grey of
    level [percent] and [darkenColor] answers black, whatever the colour
    was. *)
Theorem colour_name_ignored (c : ascii) (rest : string) (percent : Z) :
  hexValue c = None -> isWhiteSpace c = false ->
  c <> "-"%char -> c <> "+"%char -> c <> "#"%char ->
  (0 <= percent)%Z ->
  lightenColor (String c rest) percent =
    rgb (Z.min 255 percent) (Z.min 255 percent) (Z.min 255 percent) /\
  darkenColor (String c rest) percent = "#000000".
Proof.
  intros H W M P S Q. unfold lightenColor, darkenColor. cbv zeta.
  rewrite (parseInt16_name c rest H W M P S). cbn [toInt32].
  change (Z.shiftr 0 16) with 0%Z. change (Z.shiftr 0 8) with 0%Z.
  change (Z.land 0 255) with 0%Z. cbn [Z.add Z.sub Z.opp].
  split.
  - apply print_rgb; unfold channel; lia.
  - replace (Z.max 0 (0 - percent)) with 0%Z by lia.
    replace (Z.max 0 (- percent)) with 0%Z by lia. reflexivity.
Qed.

Lemma colour_name_ignored_witness :
  lightenColor "red" 30 = "#1e1e1e" /\ darkenColor "red" 30 = "#000000".
Proof.
  apply (colour_name_ignored "r" "ed" 30);
    [reflexivity | reflexivity | discriminate | discriminate | discriminate
    | lia].
Defined.

(** ** Runs on a resized canvas

    [resizeCanvas] moves the player's ground line to the new canvas height;
    the blocks stay where [createLevel] put them. *)

Lemma clear_of_blocks g0 t :
  Forall (fun o => standsOn g0 o /\ 0 <= Obstacle.height o <= 40)
    (Level.obstacles (level t)) ->
  Player.height (player t) = 30 ->
  (g0 <= Player.y (player t) \/ Player.y (player t) + 30 <= g0 - 40) ->
  existsb (hitsObstacle t) (Level.obstacles (level t)) = false.
Proof.
  intros F PH C.
  induction (Level.obstacles (level t)) as [|o os IH]; [reflexivity|].
  inversion F as [|? ? (S & H) F']; subst.
  cbn [existsb]. rewrite (IH F'), orb_false_r.
  unfold hitsObstacle. cbv zeta. apply not_true_iff_false.
  rewrite checkCollision_spec, PH. unfold standsOn in S.
  intros (_ & _ & A & B). lra.
Qed.

Lemma passing_sameMotion g0 s t :
  passing g0 s -> sameMotion s t ->
  passing g0 t /\ logicalHeight t = logicalHeight s.
Proof.
  intros T (A1 & A2 & A3 & _ & A5 & A6 & A7).
  assert (L : logicalHeight t = logicalHeight s)
    by (unfold logicalHeight; now rewrite A6).
  split; [|exact L]. unfold passing. rewrite L, A1, A5, A7. exact T.
Qed.

(** The outcome of a tick, given where its movement left the player. *)
Lemma passing_outcome g0 s t :
  80 <= logicalHeight s ->
  passing g0 s ->
  Level.spikes (level s) = [] ->
  Player.height (player s) = 30 ->
  gameState t = Playing -> canvas t = canvas s -> level t = level s ->
  Player.y (player t) = Player.groundY (player s) ->
  Player.velocityY (player t) = 0 ->
  Player.groundY (player t) = Player.groundY (player s) ->
  samePlayerSize (player s) (player t) ->
  let r :=
    if existsb (hitsObstacle t) (Level.obstacles (level t)) then die t
    else if existsb (hitsSpike t) (Level.spikes (level t)) then die t
    else if fellOffScreen t then die t
    else if reachedEnd t then win t
    else updateParallax (updateParticles t) in
  r = (if reachedEnd t then win t else updateParallax (updateParticles t)) /\
  passing g0 r /\ logicalHeight r = logicalHeight s.
Proof.
  intros H80 (ND & GY & CL & OB & PL) Sp PH M1 M2 M3 L1 L2 L5 (L6 & L7 & L8).
  cbv zeta.
  assert (LH : logicalHeight t = logicalHeight s)
    by (unfold logicalHeight; now rewrite M2).
  assert (PT : passing g0 t).
  { unfold passing. rewrite LH, M1, M3, L1, L2, L5.
    split; [discriminate|]. repeat split; try assumption. lra. }
  rewrite (clear_of_blocks g0 t).
  2: { rewrite M3. exact OB. }
  2: { congruence. }
  2: { rewrite L1. exact CL. }
  replace (existsb (hitsSpike t) (Level.spikes (level t))) with false
    by (rewrite M3, Sp; reflexivity).
  replace (fellOffScreen t) with false.
  2: { symmetry. unfold fellOffScreen. apply Qgtb_false.
       rewrite L1, LH, GY. lra. }
  destruct (reachedEnd t).
  - split; [reflexivity|].
    assert (PW : passing g0 (set_gameState Win t)).
    { destruct PT as (_ & P2 & P3 & P4 & _).
      unfold passing.
      replace (gameState (set_gameState Win t)) with Win by now destruct t.
      replace (player (set_gameState Win t)) with (player t)
        by now destruct t.
      replace (level (set_gameState Win t)) with (level t) by now destruct t.
      replace (logicalHeight (set_gameState Win t)) with (logicalHeight t)
        by now destruct t.
      split; [discriminate|]. repeat split; try assumption; discriminate. }
    destruct (passing_sameMotion g0 (set_gameState Win t) (win t) PW
                (win_motion t)) as (A & B).
    split; [exact A|]. rewrite B, <- LH. now destruct t.
  - split; [reflexivity|].
    destruct (passing_sameMotion g0 t (updateParallax (updateParticles t)) PT)
      as (A & B); [auto with motion|].
    split; [exact A|congruence].
Qed.

Lemma passing_moved g0 s :
  reachable s -> 80 <= logicalHeight s -> passing g0 s ->
  gameState s = Playing ->
  let t := movePlayer (advanceCamera s) in
  update s =
    (if reachedEnd t then win t else updateParallax (updateParticles t)) /\
  passing g0 (update s) /\ logicalHeight (update s) = logicalHeight s.
Proof.
  intros R H80 T E. cbv zeta.
  pose proof T as (_ & GY & _ & _ & PL).
  destruct (PL E) as (Yk & Vk).
  destruct (reachable_built s R) as (Pl & Sp & GH & W & PX & PW & PH).
  destruct (moved_fields s) as (M1 & M2 & M3 & M4 & M5 & _).
  destruct (movePlayer_lands s Pl) as (L1 & L2 & L3 & L4 & L5 & L6).
  { rewrite Yk, PH. unfold gravity. lra. }
  { rewrite GY. lra. }
  rewrite (update_playing s E).
  apply (passing_outcome g0 s (movePlayer (advanceCamera s)));
    try assumption.
  congruence.
Qed.

Lemma passing_update g0 s :
  reachable s -> 80 <= logicalHeight s -> passing g0 s ->
  passing g0 (update s) /\ logicalHeight (update s) = logicalHeight s.
Proof.
  intros R H80 T.
  destruct (GameState_eqb (gameState s) Playing) eqn:E.
  2: { rewrite update_not_playing; [now split|].
       intros H. apply GameState_eqb_eq in H. congruence. }
  apply GameState_eqb_eq in E.
  apply (passing_moved g0 s R H80 T E).
Qed.

Lemma passing_startGame g0 s :
  passing g0 s -> passing g0 (startGame s) /\
                  logicalHeight (startGame s) = logicalHeight s.
Proof.
  intros T. destruct (GameState_eqb (gameState s) Playing) eqn:E.
  { apply GameState_eqb_eq in E. unfold startGame.
    rewrite E. cbn [GameState_eqb]. now split. }
  assert (N : gameState s <> Playing).
  { intros H. apply GameState_eqb_eq in H. congruence. }
  destruct (startGame_fields s N)
    as (A1 & A2 & A3 & _ & _ & A6 & _ & _ & A9 & A10 & _).
  destruct T as (_ & GY & CL & OB & _).
  remember (startGame s) as t eqn:Et. clear Et.
  assert (L : logicalHeight t = logicalHeight s)
    by (unfold logicalHeight; now rewrite A10).
  split; [|exact L]. unfold passing. rewrite L, A1, A6, A9.
  destruct (player s); cbn in *.
  split; [discriminate|]. repeat split; try assumption; lra.
Qed.

Lemma passing_restart g0 s :
  passing g0 s -> passing g0 (restart s) /\
                  logicalHeight (restart s) = logicalHeight s.
Proof.
  intros T. destruct (passing_startGame g0 s T) as (A & B).
  destruct (restart_startGame s) as [es ->].
  destruct (passing_sameMotion g0 (startGame s)
              (set_effects es (startGame s)) A)
    as (C & D); [auto with motion|].
  split; [exact C|congruence].
Qed.

Lemma passing_handleJumpStart g0 s :
  passing g0 s -> passing g0 (handleJumpStart s) /\
                  logicalHeight (handleJumpStart s) = logicalHeight s.
Proof.
  intros T. destruct (gameState s) eqn:G.
  - (* Start *)
    destruct (handleJumpStart_prelude s) as [es E]. rewrite E. cbv zeta.
    replace (gameState (set_effects es s)) with Start by now destruct s.
    destruct (passing_sameMotion g0 s (set_effects es s) T) as (A & B);
      [auto with motion|].
    destruct (passing_startGame g0 _ A) as (C & D).
    split; [exact C|congruence].
  - (* Playing *)
    destruct (handleJumpStart_by_state s) as (_ & _ & K).
    destruct (K G) as (K1 & K2 & K3 & K4 & K5).
    destruct (handleJumpStart_playing s G) as (C & L & V).
    destruct T as (ND & GY & CL & OB & PL).
    destruct (PL G) as (PY & PV).
    remember (handleJumpStart s) as t eqn:Et. clear Et.
    assert (LH : logicalHeight t = logicalHeight s)
      by (unfold logicalHeight; now rewrite C).
    split; [|exact LH]. unfold passing. rewrite LH, K1, K5, L.
    split; [discriminate|]. repeat split; try assumption.
    + congruence.
    + unfold jumpPower, holdJumpBonus in V.
      destruct V as [V|[V|V]]; rewrite V; lra.
  - (* Dead *)
    destruct T as (ND & _). contradiction.
  - (* Win *)
    destruct (handleJumpStart_prelude s) as [es E]. rewrite E. cbv zeta.
    replace (gameState (set_effects es s)) with Win by now destruct s.
    apply passing_sameMotion; [exact T|auto with motion].
Qed.

Lemma passing_handle g0 i s :
  reachable s -> 80 <= logicalHeight s -> passing g0 s ->
  noResize i = true ->
  passing g0 (handle i s) /\ logicalHeight (handle i s) = logicalHeight s.
Proof.
  intros R H T N. destruct i; cbn [handle]; try discriminate.
  - destruct hidden; [now split|now apply passing_update].
  - now apply passing_handleJumpStart.
  - apply passing_sameMotion; auto with motion.
  - destruct (gameState s);
      (now apply passing_startGame) || (now apply passing_handleJumpStart).
  - now apply passing_startGame.
  - now apply passing_restart.
  - apply passing_sameMotion; auto with motion.
Qed.

Lemma passing_run g0 inputs s :
  reachable s -> 80 <= logicalHeight s -> passing g0 s ->
  forallb noResize inputs = true ->
  passing g0 (run inputs s).
Proof.
  revert s. induction inputs as [|i inputs IH]; intros s R H T N;
    [exact T|].
  cbn [forallb] in N. apply andb_true_iff in N. destruct N as (N1 & N2).
  destruct (passing_handle g0 i s R H T N1) as (A & B).
  change (run (i :: inputs) s) with (run inputs (handle i s)).
  apply IH; try assumption.
  - now constructor.
  - now rewrite B.
Qed.

(** The blocks of a new instance stand on the ground line of the canvas it
    was built on. *)
Lemma construct_blocks c st audio rnd hidden :
  let s0 := construct c st audio rnd hidden in
  gameState s0 = Start /\
  Forall (fun o => standsOn (logicalHeight s0 - 50) o /\
                   0 <= Obstacle.height o <= 40)
    (Level.obstacles (level s0)).
Proof.
  cbv zeta.
  destruct (construct_motion c st audio rnd hidden)
    as (es & _ & _ & _ & _ & L & V & G).
  destruct (createLevel_beforeLevel c st rnd es) as (B1 & _ & _ & B4 & _).
  split; [congruence|].
  assert (E : logicalHeight (construct c st audio rnd hidden) =
              logicalHeight (beforeLevel c st rnd es)).
  { unfold logicalHeight. rewrite V, B4. reflexivity. }
  rewrite L, E.
  destruct (createLevel_blocks (beforeLevel c st rnd es))
    as ((new & N1 & _ & N3 & _) & _).
  rewrite N1. cbn [beforeLevel level Level.obstacles app].
  eapply Forall_impl; [|exact N3].
  intros o (S & (_ & H) & _). cbn [beforeLevel level Level.groundHeight] in S.
  split; [exact S|]. lra.
Qed.

(** On a plain canvas [resizeCanvas] measures the height the tick reads. *)
Lemma resize_plain c' s :
  plainCanvas c' ->
  let s1 := resizeCanvas (set_canvas c' s) in
  Player.groundY (player s1) ==
    logicalHeight s1 - Level.groundHeight (level s) - Player.height (player s)
  /\ sameMotion (set_player (player s1) (set_canvas c' s)) s1.
Proof.
  intros (W & H & RW & RH). cbv zeta.
  assert (PW : 0 < Canvas.rectWidth c').
  { rewrite RW. destruct (Canvas.offsetWidth c'); [contradiction|].
    unfold Qlt. cbn. lia. }
  assert (PH : 0 < Canvas.rectHeight c').
  { rewrite RH. destruct (Canvas.offsetHeight c'); [contradiction|].
    unfold Qlt. cbn. lia. }
  assert (LH : forall u, canvas u = c' ->
                 logicalHeight u == Canvas.rectHeight c').
  { intros u E. unfold logicalHeight. rewrite E, RH.
    destruct (Canvas.offsetHeight c'); [contradiction|reflexivity]. }
  unfold resizeCanvas, measure. cbv zeta.
  replace (canvas (set_canvas c' s)) with c' by now destruct s.
  destruct (Qeq_bool (Canvas.rectWidth c') 0) eqn:E1;
    [apply Qeq_bool_iff in E1; lra|].
  destruct (Qeq_bool (Canvas.rectHeight c') 0) eqn:E2;
    [apply Qeq_bool_iff in E2; lra|].
  rewrite E1, E2. cbn [orb].
  split.
  - rewrite LH.
    + destruct (gameState _); destruct s as [? ? ? []]; cbn; lra.
    + destruct (gameState _); now destruct s.
  - destruct (gameState _); destruct s; repeat split.
Qed.

Lemma passing_resized c c' st audio rnd hidden :
  let s0 := construct c st audio rnd hidden in
  let s1 := handle (Resize c') s0 in
  plainCanvas c' ->
  (logicalHeight s0 + 30 <= logicalHeight s1 \/
   logicalHeight s1 + 40 <= logicalHeight s0) ->
  reachable s1 /\ gameState s1 = Start /\
  passing (logicalHeight s0 - 50) s1.
Proof.
  cbv zeta. intros P C.
  set (s0 := construct c st audio rnd hidden) in *.
  assert (R0 : reachable s0) by apply reachable_construct.
  split; [now apply reachable_handle|].
  destruct (construct_blocks c st audio rnd hidden) as (G0 & B0).
  fold s0 in G0, B0.
  destruct (reachable_built s0 R0) as (_ & _ & GH & _ & _ & _ & PH).
  cbn [handle] in *.
  destruct (resize_plain c' s0 P) as (GY & M).
  rewrite GH, PH in GY.
  destruct M as (M1 & _ & _ & _ & M5 & _ & M7).
  remember (resizeCanvas (set_canvas c' s0)) as s1 eqn:E1. clear E1.
  assert (L : level s1 = level s0) by (rewrite M5; now destruct s0).
  assert (G : gameState s1 = Start) by (rewrite M7, <- G0; now destruct s0).
  clearbody s0. split; [exact G|].
  unfold passing. rewrite L, G.
  split; [discriminate|]. split; [rewrite GY; lra|].
  split; [rewrite GY; lra|]. split; [exact B0|discriminate].
Qed.

(** X20.  A resize moves the player but not the blocks.  Build the game
    on one canvas and resize it, before the run, to a plain canvas at least
    80 high that is at least 30 higher or at least 40 lower than the
    first.  From then on the resting player's box is entirely below the
    line the blocks stand on, or entirely above the tallest block, and
    every jump is undone by the ground clamp: whatever the player does
    afterwards (short of another resize), the game is never [Dead]. *)
Theorem resized_run_never_dies
    (c c' : Canvas.t) (st : Storage.t) (audio : option AudioState)
    (rnd : nat -> Q) (hidden : bool) (inputs : list input) :
  let s0 := construct c st audio rnd hidden in
  let s1 := handle (Resize c') s0 in
  plainCanvas c' ->
  80 <= logicalHeight s1 ->
  (logicalHeight s0 + 30 <= logicalHeight s1 \/
   logicalHeight s1 + 40 <= logicalHeight s0) ->
  forallb noResize inputs = true ->
  gameState (run inputs s1) <> Dead.
Proof.
  cbv zeta. intros P H C N.
  destruct (passing_resized c c' st audio rnd hidden P C) as (R & _ & T).
  apply (passing_run (logicalHeight (construct c st audio rnd hidden) - 50)
           inputs _ R H T N).
Qed.

Lemma resized_run_never_dies_witness :
  gameState
    (run (StartButton :: repeat (Frame false) 100 ++ [JumpKeyDown]
          ++ repeat (Frame false) 100)
       (handle (Resize (Canvas.mk 1200 700 1200 700))
          (construct sampleCanvas emptyStorage None (fun _ => 1 # 2) false)))
  <> Dead.
Proof.
  apply (resized_run_never_dies sampleCanvas (Canvas.mk 1200 700 1200 700)
           emptyStorage None (fun _ => 1 # 2) false).
  - unfold plainCanvas. cbn. repeat split; discriminate.
  - vm_compute. discriminate.
  - left. vm_compute. discriminate.
  - vm_compute. reflexivity.
Defined.

Lemma score_at_end x : x == 4255 -> Math_floor (x / 10) = 425%Z.
Proof.
  intros H. unfold Math_floor.
  assert (E : x / 10 == 4255 # 10) by (rewrite H; reflexivity).
  rewrite E. reflexivity.
Qed.

(** A tick of the resting player that passes every block, by camera
    position. *)
Lemma passing_tick g0 s k :
  reachable s -> 80 <= logicalHeight s -> passing g0 s ->
  gameState s = Playing -> cameraX s == Qnat k * 5 ->
  ((k <= 849)%nat ->
     gameState (update s) = Playing /\
     cameraX (update s) == Qnat (S k) * 5) /\
  (k = 850%nat ->
     gameState (update s) = Win /\ cameraX (update s) == 4255 /\
     score (update s) = 425%Z).
Proof.
  intros R H80 T E Ck.
  destruct (passing_moved g0 s R H80 T E) as (U & _).
  destruct (reachable_built s R) as (_ & _ & _ & W & _).
  destruct (moved_fields s) as (M1 & _ & M3 & M4 & M5 & _).
  rewrite U. clear U.
  remember (movePlayer (advanceCamera s)) as t eqn:Et. clear Et.
  assert (CT : cameraX t == Qnat (S k) * 5).
  { rewrite M4, Ck, Qnat_S. unfold scrollSpeed. lra. }
  split.
  - intros Hk.
    assert (K : Qnat (S k) <= 850).
    { change 850 with (Qnat 850). apply Qnat_le. lia. }
    replace (reachedEnd t) with false.
    2: { symmetry. unfold reachedEnd. apply Qgeb_false.
         rewrite M3, W, CT. lra. }
    assert (M : sameMotion t (updateParallax (updateParticles t)))
      by auto with motion.
    destruct M as (_ & U2 & _ & _ & _ & _ & U7).
    rewrite U2, U7. split; [congruence|exact CT].
  - intros ->.
    assert (C : cameraX t == 4255) by (rewrite CT; reflexivity).
    replace (reachedEnd t) with true.
    2: { symmetry. unfold reachedEnd. apply Qgeb_le.
         rewrite M3, W, C. lra. }
    destruct (win_motion t) as (_ & W2 & W3 & _ & _ & _ & W7).
    rewrite W2, W3, W7.
    replace (gameState (set_gameState Win t)) with Win by now destruct t.
    replace (cameraX (set_gameState Win t)) with (cameraX t)
      by now destruct t.
    replace (score (set_gameState Win t)) with (score t) by now destruct t.
    split; [reflexivity|]. split; [exact C|].
    rewrite M5. apply score_at_end. rewrite <- M4. exact C.
Qed.

(** X21.  After such a resize (to a plain canvas at least 80 high, at
    least 30 higher or at least 40 lower than the canvas the game was built
    on) a run needs no input to be won: after the start button the game is
    [Playing] with the camera at [5 n] after [n] ticks for the first 850
    ticks; the 851st tick brings the camera to the level's end, 4255, and
    from then on the state is [Win] with the score 425. *)
Theorem resized_idle_run_wins
    (c c' : Canvas.t) (st : Storage.t) (audio : option AudioState)
    (rnd : nat -> Q) (hidden : bool) (n : nat) :
  let s0 := construct c st audio rnd hidden in
  let s1 := handle (Resize c') s0 in
  plainCanvas c' ->
  80 <= logicalHeight s1 ->
  (logicalHeight s0 + 30 <= logicalHeight s1 \/
   logicalHeight s1 + 40 <= logicalHeight s0) ->
  let s := iterate n update (startGame s1) in
  ((n <= 850)%nat -> gameState s = Playing /\ cameraX s == Qnat n * 5) /\
  ((851 <= n)%nat ->
     gameState s = Win /\ cameraX s == 4255 /\ score s = 425%Z).
Proof.
  cbv zeta. intros P H C.
  destruct (passing_resized c c' st audio rnd hidden P C) as (R1 & G1 & T1).
  set (g0 := logicalHeight (construct c st audio rnd hidden) - 50) in *.
  remember (handle (Resize c') (construct c st audio rnd hidden)) as s1
    eqn:E1. clear E1. clearbody g0.
  set (s0 := startGame s1).
  assert (R0 : reachable s0).
  { subst s0. now apply (reachable_handle StartButton). }
  destruct (passing_startGame g0 s1 T1) as (T0 & L0). fold s0 in T0, L0.
  assert (P0 : gameState s0 = Playing /\ cameraX s0 = 0).
  { destruct (startGame_fields s1) as (A & B & _); [|now split].
    rewrite G1. discriminate. }
  clearbody s0.
  assert (I : forall m,
    let s := iterate m update s0 in
    reachable s /\ logicalHeight s = logicalHeight s0 /\ passing g0 s /\
    ((m <= 850)%nat -> gameState s = Playing /\ cameraX s == Qnat m * 5) /\
    ((851 <= m)%nat ->
       gameState s = Win /\ cameraX s == 4255 /\ score s = 425%Z)).
  { induction m as [|m IH]; cbv zeta.
    - cbn [iterate]. destruct P0 as (P1 & P2).
      split; [exact R0|]. split; [reflexivity|]. split; [exact T0|].
      split; [|intros; lia].
      intros _. split; [exact P1|].
      rewrite P2. change (Qnat 0) with 0. lra.
    - cbv zeta in IH. destruct IH as (R & L & T & A & B).
      rewrite iterate_succ.
      remember (iterate m update s0) as s eqn:Es. clear Es.
      assert (H80 : 80 <= logicalHeight s) by (rewrite L, L0; exact H).
      destruct (passing_update g0 s R H80 T) as (T' & L').
      split; [apply (reachable_handle (Frame false) _ R)|].
      split; [congruence|]. split; [exact T'|].
      destruct (Nat.le_gt_cases m 850) as [Hm|Hm].
      + destruct (A Hm) as (A1 & A2).
        destruct (passing_tick g0 s m R H80 T A1 A2) as (I1 & I2).
        split.
        * intros Hm'. apply I1. lia.
        * intros Hm'. apply I2. lia.
      + destruct (B Hm) as (B1 & B2 & B3).
        rewrite (update_not_playing s) by (rewrite B1; discriminate).
        split; [intros; lia|]. intros _. auto. }
  destruct (I n) as (_ & _ & _ & A & B). split; assumption.
Qed.

Lemma resized_idle_run_wins_witness :
  gameState
    (iterate 851 update
       (startGame
          (handle (Resize (Canvas.mk 1200 560 1200 560))
             (construct sampleCanvas emptyStorage None (fun _ => 1 # 2)
                false)))) = Win.
Proof.
  destruct (resized_idle_run_wins sampleCanvas (Canvas.mk 1200 560 1200 560)
              emptyStorage None (fun _ => 1 # 2) false 851) as (_ & A).
  - unfold plainCanvas. cbn. repeat split; discriminate.
  - vm_compute. discriminate.
  - right. vm_compute. discriminate.
  - apply A. lia.
Defined.

(** ** The high score over a run *)

Lemma gt_num_trans a b h :
  gt_num a h = true -> gt_num b (Num a) = true -> gt_num b h = true.
Proof.
  destruct h as [z|]; cbn; [|discriminate].
  rewrite !Z.ltb_lt. lia.
Qed.

Lemma grows_refl s : grows s s.
Proof. left. apply sameStore_refl. Qed.

Lemma grows_trans s t u : grows s t -> grows t u -> grows s u.
Proof.
  intros [(A1 & A2)|(a & A1 & A2)] [(B1 & B2)|(b & B1 & B2)].
  - left. split; congruence.
  - right. exists b. split; [exact B1|]. now rewrite <- A1.
  - right. exists a. split; [congruence|exact A2].
  - right. exists b. split; [exact B1|].
    rewrite A1 in B2. exact (gt_num_trans a b _ A2 B2).
Qed.

Lemma grows_sameStore s t : sameStore s t -> grows s t.
Proof. now left. Qed.

Lemma grows_checkHighScore s : grows s (checkHighScore s).
Proof.
  destruct (gt_num (score s) (highScore s)) eqn:E.
  - right. exists (score s). destruct (checkHighScore_gt s E) as (A & _).
    split; assumption.
  - rewrite checkHighScore_le by assumption. apply grows_refl.
Qed.

Lemma grows_die s : grows s (die s).
Proof.
  unfold die. destruct (GameState_eqb _ _); [apply grows_refl|].
  cbv zeta. unfold showGameOverScreen.
  eapply grows_trans; [|apply grows_sameStore, sameStore_emit, sameStore_refl].
  eapply grows_trans; [|apply grows_checkHighScore].
  apply grows_sameStore. apply (sameCommit_die_prefix s).
Qed.

Lemma grows_win s : grows s (win s).
Proof.
  unfold win. cbv zeta.
  eapply grows_trans; [|apply grows_checkHighScore].
  apply grows_sameStore. auto with store.
Qed.

Lemma grows_update s : grows s (update s).
Proof.
  unfold update. destruct (negb _); [apply grows_refl|]. cbv zeta.
  assert (T : grows s (movePlayer (advanceCamera s)))
    by (apply grows_sameStore; auto with store).
  branches;
    try (eapply grows_trans; [exact T|]; apply grows_die);
    try (eapply grows_trans; [exact T|]; apply grows_win).
  apply grows_sameStore. auto with store.
Qed.

Lemma grows_handle i s : grows s (handle i s).
Proof.
  destruct i; cbn [handle];
    try (apply grows_sameStore; auto with store; fail).
  - destruct hidden; [apply grows_refl|apply grows_update].
  - apply grows_sameStore. destruct (gameState s); auto with store.
Qed.

Lemma grows_run inputs s : grows s (run inputs s).
Proof.
  revert s. induction inputs as [|i inputs IH]; intros s;
    [apply grows_refl|].
  change (run (i :: inputs) s) with (run inputs (handle i s)).
  eapply grows_trans; [apply grows_handle|apply IH].
Qed.

(** X22.  Over any sequence of inputs, from any state, the high score
    moves only upwards: either the high score and the storage are what
    they were, or the high score is a score greater than it was. *)
Theorem highScore_only_grows (inputs : list input) (s : Game) :
  let s' := run inputs s in
  highScore s' = highScore s /\ storage s' = storage s \/
  exists z, highScore s' = Num z /\ gt_num z (highScore s) = true.
Proof. cbv zeta. exact (grows_run inputs s). Qed.

Lemma construct_store c st audio rnd hidden :
  highScore (construct c st audio rnd hidden) = loadHighScoreFrom st /\
  storage (construct c st audio rnd hidden) = st.
Proof.
  destruct (construct_unfold c st audio rnd hidden) as [es ->]. cbv zeta.
  assert (I : sameStore (beforeLevel c st rnd es)
                (initAudio audio
                   (initParallax (createLevel (beforeLevel c st rnd es)))))
    by apply sameStore_initAudio, sameStore_initParallax,
         sameStore_createLevel.
  destruct I as (I1 & I2).
  destruct hidden; [split; assumption|].
  rewrite update_not_playing; [split; assumption|].
  assert (M : sameMotion (createLevel (beforeLevel c st rnd es))
                (initAudio audio
                   (initParallax (createLevel (beforeLevel c st rnd es)))))
    by apply sameMotion_initAudio, sameMotion_initParallax, sameMotion_refl.
  destruct M as (_ & _ & _ & _ & _ & _ & G). rewrite G. discriminate.
Qed.

(** X23.  A corrupted high-score item is never repaired.  When the stored
    item does not parse ([loadHighScore] gives NaN), the game built on that
    storage keeps the high score NaN and the storage as it found it through
    every sequence of inputs: no score, however high, is recorded. *)
Theorem corrupted_high_score_sticks
    (c : Canvas.t) (st : Storage.t) (audio : option AudioState)
    (rnd : nat -> Q) (hidden : bool) (inputs : list input) :
  loadHighScoreFrom st = NaN ->
  let s := run inputs (construct c st audio rnd hidden) in
  highScore s = NaN /\ storage s = st.
Proof.
  intros N. cbv zeta.
  destruct (construct_store c st audio rnd hidden) as (H & S).
  destruct (grows_run inputs (construct c st audio rnd hidden))
    as [(A & B)|(z & _ & C)].
  - split; congruence.
  - rewrite H, N in C. discriminate.
Qed.

Lemma corrupted_high_score_sticks_witness :
  highScore
    (run (StartButton :: repeat (Frame false) 100)
       (construct sampleCanvas corruptedStorage None (fun _ => 1 # 2) false))
  = NaN.
Proof.
  apply (corrupted_high_score_sticks sampleCanvas corruptedStorage None
           (fun _ => 1 # 2) false
           (StartButton :: repeat (Frame false) 100)).
  vm_compute. reflexivity.
Defined.

(** ** Sound *)

Create HintDb quiet discriminated.

Lemma quiet_refl s : quiet s s.
Proof. repeat split. Qed.
#[export] Hint Resolve quiet_refl : quiet.

Lemma quiet_set_player s t v : quiet s t -> quiet s (set_player v t).
Proof. intros (A & B & C). destruct t. exact (conj A (conj B C)). Qed.
Lemma quiet_set_gameState s t v : quiet s t -> quiet s (set_gameState v t).
Proof. intros (A & B & C). destruct t. exact (conj A (conj B C)). Qed.
Lemma quiet_set_cameraX s t v : quiet s t -> quiet s (set_cameraX v t).
Proof. intros (A & B & C). destruct t. exact (conj A (conj B C)). Qed.
Lemma quiet_set_jumpHeld s t v : quiet s t -> quiet s (set_jumpHeld v t).
Proof. intros (A & B & C). destruct t. exact (conj A (conj B C)). Qed.
Lemma quiet_set_jumpHeldTime s t v :
  quiet s t -> quiet s (set_jumpHeldTime v t).
Proof. intros (A & B & C). destruct t. exact (conj A (conj B C)). Qed.
Lemma quiet_set_canvas s t v : quiet s t -> quiet s (set_canvas v t).
Proof. intros (A & B & C). destruct t. exact (conj A (conj B C)). Qed.
Lemma quiet_set_level s t v : quiet s t -> quiet s (set_level v t).
Proof. intros (A & B & C). destruct t. exact (conj A (conj B C)). Qed.
Lemma quiet_set_particles s t v : quiet s t -> quiet s (set_particles v t).
Proof. intros (A & B & C). destruct t. exact (conj A (conj B C)). Qed.
Lemma quiet_set_parallaxLayers s t v :
  quiet s t -> quiet s (set_parallaxLayers v t).
Proof. intros (A & B & C). destruct t. exact (conj A (conj B C)). Qed.
Lemma quiet_set_score s t v : quiet s t -> quiet s (set_score v t).
Proof. intros (A & B & C). destruct t. exact (conj A (conj B C)). Qed.
Lemma quiet_set_distance s t v : quiet s t -> quiet s (set_distance v t).
Proof. intros (A & B & C). destruct t. exact (conj A (conj B C)). Qed.
Lemma quiet_set_highScore s t v : quiet s t -> quiet s (set_highScore v t).
Proof. intros (A & B & C). destruct t. exact (conj A (conj B C)). Qed.
Lemma quiet_set_storage s t v : quiet s t -> quiet s (set_storage v t).
Proof. intros (A & B & C). destruct t. exact (conj A (conj B C)). Qed.
Lemma quiet_set_randomCalls s t v :
  quiet s t -> quiet s (set_randomCalls v t).
Proof. intros (A & B & C). destruct t. exact (conj A (conj B C)). Qed.

#[export] Hint Resolve quiet_set_player quiet_set_gameState quiet_set_cameraX
  quiet_set_jumpHeld quiet_set_jumpHeldTime quiet_set_canvas quiet_set_level
  quiet_set_particles quiet_set_parallaxLayers quiet_set_score
  quiet_set_distance quiet_set_highScore quiet_set_storage
  quiet_set_randomCalls : quiet.

Ltac quiet_auto := cbv zeta; branches; auto 40 with quiet.

(** A call that makes no sound. *)
Lemma quiet_emit s t e : sound e = false -> quiet s t -> quiet s (emit e t).
Proof.
  intros E (A & B & C). unfold quiet, sounds, emit.
  destruct t; cbn in *. rewrite E. auto.
Qed.

(** A sound made while the context is usable. *)
Lemma quiet_emit_usable s t e :
  audioUsable t = true -> quiet s t -> quiet s (emit e t).
Proof.
  intros U (A & B & C).
  assert (Us : audioUsable s = true)
    by (unfold audioUsable in *; now rewrite <- A, <- B).
  unfold quiet, emit. destruct t; cbn in *.
  split; [exact A|]. split; [exact B|]. congruence.
Qed.

Lemma quiet_playJumpSound s t : quiet s t -> quiet s (playJumpSound t).
Proof.
  intros H. unfold playJumpSound.
  destruct (audioUsable t) eqn:U; cbn [negb];
    [now apply quiet_emit_usable|exact H].
Qed.

Lemma quiet_playDeathSound s t : quiet s t -> quiet s (playDeathSound t).
Proof.
  intros H. unfold playDeathSound.
  destruct (audioUsable t) eqn:U; cbn [negb];
    [now apply quiet_emit_usable|exact H].
Qed.

Lemma quiet_startBackgroundMusic s t :
  quiet s t -> quiet s (startBackgroundMusic t).
Proof.
  intros H. unfold startBackgroundMusic.
  destruct (audioUsable t) eqn:U; cbn [negb]; [|exact H].
  destruct (gameState t); try exact H; now apply quiet_emit_usable.
Qed.

Lemma quiet_resumeAudioContext s t :
  quiet s t -> quiet s (resumeAudioContext t).
Proof.
  intros H. unfold resumeAudioContext.
  destruct (audioContext t) as [[|]|]; exact H.
Qed.

#[export] Hint Resolve quiet_playJumpSound quiet_playDeathSound
  quiet_startBackgroundMusic quiet_resumeAudioContext : quiet.

Lemma quiet_pushDeathParticle s t : quiet s t -> quiet s (pushDeathParticle t).
Proof. unfold pushDeathParticle, Math_random. quiet_auto. Qed.
Lemma quiet_pushTrailParticle s t : quiet s t -> quiet s (pushTrailParticle t).
Proof. unfold pushTrailParticle, Math_random. quiet_auto. Qed.
#[export] Hint Resolve quiet_pushDeathParticle quiet_pushTrailParticle : quiet.

Lemma quiet_saveHighScore s t z : quiet s t -> quiet s (saveHighScore z t).
Proof.
  intros H. unfold saveHighScore. cbv zeta.
  assert (E : quiet s (emit (SetItem highScoreKey (toString z)) t))
    by now apply quiet_emit.
  destruct (Storage.setItem _ _ _); auto with quiet.
Qed.
#[export] Hint Resolve quiet_saveHighScore : quiet.

Lemma quiet_checkHighScore s t : quiet s t -> quiet s (checkHighScore t).
Proof. unfold checkHighScore. quiet_auto. Qed.
#[export] Hint Resolve quiet_checkHighScore : quiet.

Lemma quiet_die s t : quiet s t -> quiet s (die t).
Proof.
  unfold die, showGameOverScreen. intros H. cbv zeta.
  destruct (GameState_eqb _ _); auto.
  apply quiet_emit; [reflexivity|]. apply quiet_checkHighScore.
  apply iterate_keeps; auto with quiet.
Qed.

Lemma quiet_win s t : quiet s t -> quiet s (win t).
Proof. unfold win. quiet_auto. Qed.

Lemma quiet_startGame s t : quiet s t -> quiet s (startGame t).
Proof.
  intros H. unfold startGame, hideStartScreen. cbv zeta.
  destruct (GameState_eqb _ _); [exact H|].
  apply quiet_emit; [reflexivity|]. auto 40 with quiet.
Qed.
#[export] Hint Resolve quiet_die quiet_win quiet_startGame : quiet.

Lemma quiet_restart s t : quiet s t -> quiet s (restart t).
Proof.
  intros H. unfold restart, hideGameOverScreen.
  apply quiet_emit; [reflexivity|]. auto with quiet.
Qed.

Lemma quiet_handleJumpEnd s t : quiet s t -> quiet s (handleJumpEnd t).
Proof. unfold handleJumpEnd. quiet_auto. Qed.
#[export] Hint Resolve quiet_restart quiet_handleJumpEnd : quiet.

Lemma quiet_handleJumpStart s t : quiet s t -> quiet s (handleJumpStart t).
Proof.
  unfold handleJumpStart. cbv zeta. intros H.
  match goal with
  | |- quiet s (match gameState ?u with _ => _ end) =>
      assert (H' : quiet s u) by (destruct (_ && _); auto with quiet);
      generalize dependent u
  end.
  intros t' H'. branches; auto 40 with quiet.
Qed.
#[export] Hint Resolve quiet_handleJumpStart : quiet.

Lemma quiet_advanceCamera s t : quiet s t -> quiet s (advanceCamera t).
Proof. unfold advanceCamera. quiet_auto. Qed.

Lemma quiet_movePlayer s t : quiet s t -> quiet s (movePlayer t).
Proof.
  intros H. unfold movePlayer, ceilingCollision, platformCollisions.
  assert (G : quiet s (groundCollision (rotate (integrate t)))).
  { unfold groundCollision, rotate, integrate. quiet_auto. }
  revert G. generalize (groundCollision (rotate (integrate t))). intros g G.
  assert (P : quiet s (fold_left platformCollision
                         (Level.platforms (level g)) g)).
  { apply fold_left_keeps; [|assumption].
    intros. unfold platformCollision. quiet_auto. }
  quiet_auto.
Qed.

Lemma quiet_updateParticles s t : quiet s t -> quiet s (updateParticles t).
Proof. unfold updateParticles. quiet_auto. Qed.

Lemma quiet_updateParallax s t : quiet s t -> quiet s (updateParallax t).
Proof.
  intros H. unfold updateParallax.
  pose proof (updateLayers_keeps quiet quiet_set_randomCalls
                (parallaxLayers t) s t H) as H1.
  destruct (updateLayers _ _); cbn [snd] in H1. auto with quiet.
Qed.
#[export] Hint Resolve quiet_advanceCamera quiet_movePlayer
  quiet_updateParticles quiet_updateParallax : quiet.

Lemma quiet_update s t : quiet s t -> quiet s (update t).
Proof. unfold update. quiet_auto. Qed.

Lemma quiet_resizeCanvas s t : quiet s t -> quiet s (resizeCanvas t).
Proof.
  unfold resizeCanvas, measure. intros H. cbv zeta.
  assert (E : quiet s (emit RetryResize t)) by now apply quiet_emit.
  destruct (_ || _); quiet_auto.
Qed.
#[export] Hint Resolve quiet_update quiet_resizeCanvas : quiet.

Lemma quiet_handle i s : notResumed i = true -> quiet s (handle i s).
Proof.
  intros N. destruct i; cbn [handle]; try discriminate; quiet_auto.
Qed.

Lemma quiet_initParallax s t : quiet s t -> quiet s (initParallax t).
Proof.
  intros H. unfold initParallax.
  pose proof (initLayers_keeps quiet quiet_set_randomCalls
                (parallaxLayers t) 0%nat s t H) as H1.
  destruct (initLayers _ _ _); cbn [snd] in H1. auto with quiet.
Qed.

Lemma quiet_createLevel s : quiet s (createLevel s).
Proof. destruct s. repeat split. Qed.

(** The audio state of a new instance. *)
Lemma construct_audio c st audio rnd hidden :
  let s := construct c st audio rnd hidden in
  audioContext s = audio /\
  audioContextReady s =
    match audio with Some Running => true | _ => false end /\
  (audio <> Some Running -> sounds s = []).
Proof.
  cbv zeta.
  assert (U : exists es,
            filter sound es = [] /\
            construct c st audio rnd hidden =
            let s := initAudio audio
                       (initParallax (createLevel (beforeLevel c st rnd es)))
            in if hidden then s else update s).
  { unfold construct, measure. cbv zeta.
    destruct (_ || _); eexists; (split; [|reflexivity]); reflexivity. }
  destruct U as (es & S & ->). cbv zeta.
  set (b := beforeLevel c st rnd es).
  assert (Q : quiet b (initParallax (createLevel b)))
    by apply quiet_initParallax, quiet_createLevel.
  destruct Q as (Q1 & Q2 & Q3).
  assert (Sb : sounds (initParallax (createLevel b)) = []).
  { rewrite Q3; [exact S|reflexivity]. }
  assert (M : sameMotion (createLevel b) (initParallax (createLevel b)))
    by apply sameMotion_initParallax, sameMotion_refl.
  destruct M as (_ & _ & _ & _ & _ & _ & G).
  remember (initParallax (createLevel b)) as x eqn:Ex. clear Ex.
  assert (Gx : gameState (initAudio audio x) = Start).
  { unfold initAudio. destruct audio as [[|]|]; destruct x; exact G. }
  assert (A : audioContext (initAudio audio x) = audio /\
              audioContextReady (initAudio audio x) =
                match audio with Some Running => true | _ => false end /\
              sounds (initAudio audio x) = []).
  { unfold initAudio. destruct audio as [[|]|]; destruct x; cbn in *;
      repeat split; assumption. }
  destruct A as (A1 & A2 & A3).
  destruct hidden.
  - split; [exact A1|]. split; [exact A2|]. intros _. exact A3.
  - rewrite update_not_playing by (rewrite Gx; discriminate).
    split; [exact A1|]. split; [exact A2|]. intros _. exact A3.
Qed.

(** The silence of an instance whose audio context is not usable is kept
    by every input but the completion of [resume]; without a context, by
    that one too. *)
Lemma silent_handle i s :
  audioUsable s = false ->
  notResumed i = true \/ audioContext s = None ->
  audioUsable (handle i s) = false /\
  audioContext (handle i s) = audioContext s /\
  sounds (handle i s) = sounds s.
Proof.
  intros U [N|N].
  - destruct (quiet_handle i s N) as (A & B & C).
    unfold audioUsable in *. rewrite A, B. auto.
  - destruct (notResumed i) eqn:E.
    + destruct (quiet_handle i s E) as (A & B & C).
      unfold audioUsable in *. rewrite A, B. auto.
    + destruct i; try discriminate. cbn [handle]. unfold audioResumed.
      rewrite N. auto.
Qed.

Lemma silent_run inputs s :
  audioUsable s = false ->
  forallb notResumed inputs = true \/ audioContext s = None ->
  sounds (run inputs s) = sounds s.
Proof.
  revert s. induction inputs as [|i inputs IH]; intros s U N;
    [reflexivity|].
  change (run (i :: inputs) s) with (run inputs (handle i s)).
  assert (Ni : notResumed i = true \/ audioContext s = None).
  { destruct N as [N|N]; [|now right]. left.
    cbn [forallb] in N. now apply andb_true_iff in N. }
  destruct (silent_handle i s U Ni) as (A & B & C).
  rewrite IH; [exact C|exact A|].
  destruct N as [N|N]; [left|right; congruence].
  cbn [forallb] in N. now apply andb_true_iff in N.
Qed.

(** X24.  No sound without a running audio context.  When the browser
    hands out no audio context, or a suspended one whose [resume] never
    completes during the run, no input sequence makes the game start the
    music or play the jump or the death sound. *)
Theorem silent_until_resumed
    (c : Canvas.t) (st : Storage.t) (audio : option AudioState)
    (rnd : nat -> Q) (hidden : bool) (inputs : list input) :
  audio <> Some Running ->
  audio = None \/ forallb notResumed inputs = true ->
  sounds (run inputs (construct c st audio rnd hidden)) = [].
Proof.
  intros NR N.
  destruct (construct_audio c st audio rnd hidden) as (A & B & C).
  rewrite silent_run.
  - exact (C NR).
  - unfold audioUsable. rewrite A, B.
    destruct audio as [[|]|]; try reflexivity. now elim NR.
  - destruct N as [N|N]; [right; congruence|now left].
Qed.

Lemma silent_until_resumed_witness :
  sounds
    (run [StartButton; JumpKeyDown; Frame false; AudioResumed; JumpKeyDown]
       (construct sampleCanvas emptyStorage None (fun _ => 1 # 2) false))
  = [] /\
  sounds
    (run (StartButton :: JumpKeyDown :: repeat (Frame false) 80)
       (construct sampleCanvas emptyStorage (Some Suspended)
          (fun _ => 1 # 2) false))
  = [].
Proof.
  split.
  - apply (silent_until_resumed sampleCanvas emptyStorage None
             (fun _ => 1 # 2) false);
      [discriminate | now left].
  - apply (silent_until_resumed sampleCanvas emptyStorage (Some Suspended)
             (fun _ => 1 # 2) false);
      [discriminate | right; vm_compute; reflexivity].
Defined.

(** ** The game-over screen (game.js, [showGameOverScreen]) *)

Lemma checkHighScore_not_exceeded u :
  gt_num (score (checkHighScore u)) (highScore (checkHighScore u)) = false.
Proof.
  destruct (gt_num (score u) (highScore u)) eqn:G.
  - destruct (checkHighScore_gt u G) as (A & _).
    assert (T : tickStable u (checkHighScore u))
      by apply tickStable_checkHighScore, tickStable_refl.
    destruct T as (_ & _ & S). rewrite A, S. cbn. apply Z.ltb_irrefl.
  - rewrite (checkHighScore_le u G). exact G.
Qed.

Lemma checkHighScore_unwritable u :
  Storage.writable (storage u) = false ->
  storage (checkHighScore u) = storage u.
Proof.
  intros W. destruct (gt_num (score u) (highScore u)) eqn:G.
  - destruct (checkHighScore_gt u G) as (_ & _ & C). now rewrite C, W.
  - now rewrite (checkHighScore_le u G).
Qed.

Create HintDb banner discriminated.

Lemma sameBanner_refl s : sameBanner s s.
Proof. reflexivity. Qed.
#[export] Hint Resolve sameBanner_refl : banner.

Lemma sameBanner_trans s t u :
  sameBanner s t -> sameBanner t u -> sameBanner s u.
Proof. unfold sameBanner. congruence. Qed.

Lemma sameBanner_set_player s t v :
  sameBanner s t -> sameBanner s (set_player v t).
Proof. intros H. destruct t. exact H. Qed.
Lemma sameBanner_set_gameState s t v :
  sameBanner s t -> sameBanner s (set_gameState v t).
Proof. intros H. destruct t. exact H. Qed.
Lemma sameBanner_set_cameraX s t v :
  sameBanner s t -> sameBanner s (set_cameraX v t).
Proof. intros H. destruct t. exact H. Qed.
Lemma sameBanner_set_jumpHeld s t v :
  sameBanner s t -> sameBanner s (set_jumpHeld v t).
Proof. intros H. destruct t. exact H. Qed.
Lemma sameBanner_set_jumpHeldTime s t v :
  sameBanner s t -> sameBanner s (set_jumpHeldTime v t).
Proof. intros H. destruct t. exact H. Qed.
Lemma sameBanner_set_canvas s t v :
  sameBanner s t -> sameBanner s (set_canvas v t).
Proof. intros H. destruct t. exact H. Qed.
Lemma sameBanner_set_level s t v :
  sameBanner s t -> sameBanner s (set_level v t).
Proof. intros H. destruct t. exact H. Qed.
Lemma sameBanner_set_particles s t v :
  sameBanner s t -> sameBanner s (set_particles v t).
Proof. intros H. destruct t. exact H. Qed.
Lemma sameBanner_set_parallaxLayers s t v :
  sameBanner s t -> sameBanner s (set_parallaxLayers v t).
Proof. intros H. destruct t. exact H. Qed.
Lemma sameBanner_set_audioContext s t v :
  sameBanner s t -> sameBanner s (set_audioContext v t).
Proof. intros H. destruct t. exact H. Qed.
Lemma sameBanner_set_audioContextReady s t v :
  sameBanner s t -> sameBanner s (set_audioContextReady v t).
Proof. intros H. destruct t. exact H. Qed.
Lemma sameBanner_set_score s t v :
  sameBanner s t -> sameBanner s (set_score v t).
Proof. intros H. destruct t. exact H. Qed.
Lemma sameBanner_set_distance s t v :
  sameBanner s t -> sameBanner s (set_distance v t).
Proof. intros H. destruct t. exact H. Qed.
Lemma sameBanner_set_highScore s t v :
  sameBanner s t -> sameBanner s (set_highScore v t).
Proof. intros H. destruct t. exact H. Qed.
Lemma sameBanner_set_storage s t v :
  sameBanner s t -> sameBanner s (set_storage v t).
Proof. intros H. destruct t. exact H. Qed.
Lemma sameBanner_set_randomCalls s t v :
  sameBanner s t -> sameBanner s (set_randomCalls v t).
Proof. intros H. destruct t. exact H. Qed.

#[export] Hint Resolve sameBanner_set_player sameBanner_set_gameState
  sameBanner_set_cameraX sameBanner_set_jumpHeld sameBanner_set_jumpHeldTime
  sameBanner_set_canvas sameBanner_set_level sameBanner_set_particles
  sameBanner_set_parallaxLayers sameBanner_set_audioContext
  sameBanner_set_audioContextReady sameBanner_set_score
  sameBanner_set_distance sameBanner_set_highScore sameBanner_set_storage
  sameBanner_set_randomCalls : banner.

Ltac banner_auto := cbv zeta; branches; auto 40 with banner.

(** A call other than one that shows the banner. *)
Lemma sameBanner_emit s t e :
  banner e = false -> sameBanner s t -> sameBanner s (emit e t).
Proof.
  intros E H. unfold sameBanner, bannerCalls, emit in *.
  destruct t; cbn in *. now rewrite E.
Qed.

Lemma sameBanner_playJumpSound s t :
  sameBanner s t -> sameBanner s (playJumpSound t).
Proof.
  intros H. unfold playJumpSound.
  destruct (negb _); [exact H|now apply sameBanner_emit].
Qed.
Lemma sameBanner_playDeathSound s t :
  sameBanner s t -> sameBanner s (playDeathSound t).
Proof.
  intros H. unfold playDeathSound.
  destruct (negb _); [exact H|now apply sameBanner_emit].
Qed.
Lemma sameBanner_startBackgroundMusic s t :
  sameBanner s t -> sameBanner s (startBackgroundMusic t).
Proof.
  intros H. unfold startBackgroundMusic.
  destruct (negb _); [exact H|].
  destruct (gameState t); try exact H; now apply sameBanner_emit.
Qed.
Lemma sameBanner_resumeAudioContext s t :
  sameBanner s t -> sameBanner s (resumeAudioContext t).
Proof.
  intros H. unfold resumeAudioContext.
  destruct (audioContext t) as [[|]|]; try exact H;
    now apply sameBanner_emit.
Qed.
#[export] Hint Resolve sameBanner_playJumpSound sameBanner_playDeathSound
  sameBanner_startBackgroundMusic sameBanner_resumeAudioContext : banner.

Lemma sameBanner_audioResumed s t :
  sameBanner s t -> sameBanner s (audioResumed t).
Proof. unfold audioResumed. banner_auto. Qed.
Lemma sameBanner_pushDeathParticle s t :
  sameBanner s t -> sameBanner s (pushDeathParticle t).
Proof. unfold pushDeathParticle, Math_random. banner_auto. Qed.
Lemma sameBanner_pushTrailParticle s t :
  sameBanner s t -> sameBanner s (pushTrailParticle t).
Proof. unfold pushTrailParticle, Math_random. banner_auto. Qed.
#[export] Hint Resolve sameBanner_audioResumed sameBanner_pushDeathParticle
  sameBanner_pushTrailParticle : banner.

Lemma sameBanner_saveHighScore s t z :
  sameBanner s t -> sameBanner s (saveHighScore z t).
Proof.
  intros H. unfold saveHighScore. cbv zeta.
  assert (E : sameBanner s (emit (SetItem highScoreKey (toString z)) t))
    by now apply sameBanner_emit.
  destruct (Storage.setItem _ _ _); auto with banner.
Qed.
#[export] Hint Resolve sameBanner_saveHighScore : banner.

Lemma sameBanner_checkHighScore s t :
  sameBanner s t -> sameBanner s (checkHighScore t).
Proof. unfold checkHighScore. banner_auto. Qed.
#[export] Hint Resolve sameBanner_checkHighScore : banner.

Lemma sameBanner_win s t : sameBanner s t -> sameBanner s (win t).
Proof. unfold win. banner_auto. Qed.

Lemma sameBanner_startGame s t : sameBanner s t -> sameBanner s (startGame t).
Proof.
  intros H. unfold startGame, hideStartScreen. cbv zeta.
  destruct (GameState_eqb _ _); [exact H|].
  apply sameBanner_emit; [reflexivity|]. auto 40 with banner.
Qed.
#[export] Hint Resolve sameBanner_win sameBanner_startGame : banner.

Lemma sameBanner_restart s t : sameBanner s t -> sameBanner s (restart t).
Proof.
  intros H. unfold restart, hideGameOverScreen.
  apply sameBanner_emit; [reflexivity|]. auto with banner.
Qed.

Lemma sameBanner_handleJumpEnd s t :
  sameBanner s t -> sameBanner s (handleJumpEnd t).
Proof. unfold handleJumpEnd. banner_auto. Qed.
#[export] Hint Resolve sameBanner_restart sameBanner_handleJumpEnd : banner.

Lemma sameBanner_handleJumpStart s t :
  sameBanner s t -> sameBanner s (handleJumpStart t).
Proof.
  unfold handleJumpStart. cbv zeta. intros H.
  match goal with
  | |- sameBanner s (match gameState ?u with _ => _ end) =>
      assert (H' : sameBanner s u) by (destruct (_ && _); auto with banner);
      generalize dependent u
  end.
  intros t' H'. branches; auto 40 with banner.
Qed.
#[export] Hint Resolve sameBanner_handleJumpStart : banner.

Lemma sameBanner_advanceCamera s t :
  sameBanner s t -> sameBanner s (advanceCamera t).
Proof. unfold advanceCamera. banner_auto. Qed.

Lemma sameBanner_movePlayer s t :
  sameBanner s t -> sameBanner s (movePlayer t).
Proof.
  intros H. unfold movePlayer, ceilingCollision, platformCollisions.
  assert (G : sameBanner s (groundCollision (rotate (integrate t)))).
  { unfold groundCollision, rotate, integrate. banner_auto. }
  revert G. generalize (groundCollision (rotate (integrate t))). intros g G.
  assert (P : sameBanner s (fold_left platformCollision
                              (Level.platforms (level g)) g)).
  { apply fold_left_keeps; [|assumption].
    intros. unfold platformCollision. banner_auto. }
  banner_auto.
Qed.

Lemma sameBanner_updateParticles s t :
  sameBanner s t -> sameBanner s (updateParticles t).
Proof. unfold updateParticles. banner_auto. Qed.

Lemma sameBanner_updateParallax s t :
  sameBanner s t -> sameBanner s (updateParallax t).
Proof.
  intros H. unfold updateParallax.
  pose proof (updateLayers_keeps sameBanner sameBanner_set_randomCalls
                (parallaxLayers t) s t H) as H1.
  destruct (updateLayers _ _); cbn [snd] in H1. auto with banner.
Qed.
#[export] Hint Resolve sameBanner_advanceCamera sameBanner_movePlayer
  sameBanner_updateParticles sameBanner_updateParallax : banner.

Lemma sameBanner_resizeCanvas s t :
  sameBanner s t -> sameBanner s (resizeCanvas t).
Proof.
  unfold resizeCanvas, measure. intros H. cbv zeta.
  assert (E : sameBanner s (emit RetryResize t))
    by now apply sameBanner_emit.
  destruct (_ || _); banner_auto.
Qed.
#[export] Hint Resolve sameBanner_resizeCanvas : banner.

Lemma sameBanner_initParallax s t :
  sameBanner s t -> sameBanner s (initParallax t).
Proof.
  intros H. unfold initParallax.
  pose proof (initLayers_keeps sameBanner sameBanner_set_randomCalls
                (parallaxLayers t) 0%nat s t H) as H1.
  destruct (initLayers _ _ _); cbn [snd] in H1. auto with banner.
Qed.

Lemma sameBanner_createLevel s : sameBanner s (createLevel s).
Proof. destruct s. reflexivity. Qed.

Lemma sameBanner_initAudio s t a :
  sameBanner s t -> sameBanner s (initAudio a t).
Proof. unfold initAudio. banner_auto. Qed.

(** What the call at the end of [die] asks of the banner. *)
Lemma die_banner t :
  storeInvariant t -> gameState t <> Dead ->
  exists b rest,
    effects (die t) = ShowGameOverScreen (distance t) b :: rest /\
    filter banner rest = bannerCalls t /\
    (Storage.readable (storage t) = true ->
     Storage.writable (storage t) = true -> b = false) /\
    (Storage.writable (storage t) = false ->
     b = gt_num (score t) (loadHighScoreFrom (storage t))).
Proof.
  intros SI N. unfold die.
  destruct (GameState_eqb (gameState t) Dead) eqn:E;
    [apply GameState_eqb_eq in E; contradiction|].
  cbv zeta.
  set (u := iterate 20 pushDeathParticle
              (playDeathSound (set_gameState Dead t))).
  assert (C : sameCommit t u) by apply sameCommit_die_prefix.
  assert (T : tickStable t (checkHighScore u)).
  { apply tickStable_checkHighScore. subst u.
    apply iterate_keeps; auto with tick. }
  assert (F : fixed t (checkHighScore u)).
  { apply fixed_checkHighScore. subst u.
    apply iterate_keeps; auto with fixed. }
  assert (B : sameBanner t (checkHighScore u)).
  { apply sameBanner_checkHighScore. subst u.
    apply iterate_keeps; auto with banner. }
  assert (I : storeInvariant (checkHighScore u)).
  { apply storeInvariant_checkHighScore.
    apply (storeInvariant_sameStore t); [exact SI|]. apply C. }
  pose proof (checkHighScore_not_exceeded u) as X.
  pose proof (checkHighScore_unwritable u) as W.
  destruct C as (_ & (_ & Cs) & _). rewrite Cs in W.
  destruct T as (_ & Td & Ts).
  destruct F as (_ & _ & _ & Fr & Fw).
  clearbody u. remember (checkHighScore u) as v eqn:Ev. clear Ev.
  exists (gt_num (score v) (loadHighScore v)), (effects v).
  split; [unfold showGameOverScreen, emit; rewrite Td; now destruct v|].
  split; [exact B|].
  unfold loadHighScore. split.
  - intros Hr Hw. rewrite <- Fr in Hr. rewrite <- Fw in Hw.
    rewrite <- (I Hr Hw). exact X.
  - intros Hw. rewrite (W Hw), Ts. reflexivity.
Qed.

(** With a storage that can be read and written, a tick shows no banner. *)
Lemma sameBanner_update s :
  storeInvariant s ->
  Storage.readable (storage s) = true ->
  Storage.writable (storage s) = true ->
  sameBanner s (update s).
Proof.
  intros SI Hr Hw.
  destruct (GameState_eqb (gameState s) Playing) eqn:E.
  2: { rewrite update_not_playing; [apply sameBanner_refl|].
       intros H. apply GameState_eqb_eq in H. congruence. }
  apply GameState_eqb_eq in E. rewrite (update_playing s E). cbv zeta.
  destruct (moved_fields s) as (M1 & _ & _ & _ & _ & M6 & M7 & _).
  assert (B : sameBanner s (movePlayer (advanceCamera s)))
    by auto with banner.
  assert (SI' : storeInvariant (movePlayer (advanceCamera s))).
  { apply (storeInvariant_sameStore s); [exact SI|]. auto with store. }
  revert M1 M7 B SI'. generalize (movePlayer (advanceCamera s)).
  intros t M1 M7 B SI'.
  assert (D : sameBanner s (die t)).
  { destruct (die_banner t SI') as (b & rest & A1 & A2 & A3 & _);
      [rewrite M1, E; discriminate|].
    rewrite M7 in A3. rewrite (A3 Hr Hw) in A1.
    unfold sameBanner, bannerCalls. rewrite A1. cbn [filter banner].
    rewrite A2. exact B. }
  branches; try exact D; auto with banner.
Qed.

Lemma sameBanner_handle i s :
  storeInvariant s ->
  Storage.readable (storage s) = true ->
  Storage.writable (storage s) = true ->
  sameBanner s (handle i s).
Proof.
  intros SI Hr Hw. destruct i; cbn [handle].
  - destruct hidden; [apply sameBanner_refl|now apply sameBanner_update].
  - auto with banner.
  - auto with banner.
  - destruct (gameState s); auto with banner.
  - auto with banner.
  - auto with banner.
  - auto with banner.
  - auto with banner.
Qed.

Lemma bannerCalls_construct c st audio rnd hidden :
  bannerCalls (construct c st audio rnd hidden) = [].
Proof.
  assert (U : exists es,
            filter banner es = [] /\
            construct c st audio rnd hidden =
            let s := initAudio audio
                       (initParallax (createLevel (beforeLevel c st rnd es)))
            in if hidden then s else update s).
  { unfold construct, measure. cbv zeta.
    destruct (_ || _); eexists; (split; [|reflexivity]); reflexivity. }
  destruct U as (es & S & ->). cbv zeta.
  set (b := beforeLevel c st rnd es).
  assert (Q : sameBanner b (initAudio audio (initParallax (createLevel b))))
    by apply sameBanner_initAudio, sameBanner_initParallax,
         sameBanner_createLevel.
  assert (M : sameMotion (createLevel b)
                (initAudio audio (initParallax (createLevel b))))
    by apply sameMotion_initAudio, sameMotion_initParallax, sameMotion_refl.
  destruct M as (_ & _ & _ & _ & _ & _ & G).
  destruct hidden.
  - rewrite Q. exact S.
  - rewrite update_not_playing by (rewrite G; discriminate).
    rewrite Q. exact S.
Qed.

(** X25.  The "new high score" banner.  [die] ends by calling
    [showGameOverScreen], which sets the banner's display to [block] when
    [score > loadHighScore()]; by then the high-score check has already
    written the score.  So in every reachable state of a game whose
    storage can be read and written no call made so far has shown the
    banner, record or not.  With a storage that refuses writes, the call
    [die] makes shows the banner exactly when the score exceeds the stored
    value.  (This is about the calls: no code hides a banner again once it
    has been shown.) *)
Theorem record_banner_only_unsaved (s : Game) :
  reachable s ->
  (Storage.readable (storage s) = true ->
   Storage.writable (storage s) = true -> bannerCalls s = []) /\
  (gameState s <> Dead ->
   exists b rest,
     effects (die s) = ShowGameOverScreen (distance s) b :: rest /\
     (Storage.writable (storage s) = false ->
      b = gt_num (score s) (loadHighScoreFrom (storage s)))).
Proof.
  intros R. split.
  - induction R as [c st audio rnd hidden|i s R IH].
    + intros _ _. apply bannerCalls_construct.
    + intros Hr Hw.
      destruct (fixed_handle i s) as (_ & _ & _ & Fr & Fw).
      rewrite Fr in Hr. rewrite Fw in Hw.
      rewrite (sameBanner_handle i s (reachable_storeInvariant s R) Hr Hw).
      exact (IH Hr Hw).
  - intros N.
    destruct (die_banner s (reachable_storeInvariant s R) N)
      as (b & rest & A & _ & _ & B).
    exists b, rest. split; assumption.
Qed.

Lemma record_banner_only_unsaved_witness :
  bannerCalls (run (StartButton :: repeat (Frame false) 80) fresh) = [] /\
  highScore (run (StartButton :: repeat (Frame false) 80) fresh) = Num 37 /\
  exists rest,
    effects (die firstRun) = ShowGameOverScreen 37 true :: rest.
Proof.
  split; [|split].
  - destruct (record_banner_only_unsaved
                (run (StartButton :: repeat (Frame false) 80) fresh))
      as (A & _).
    + unfold fresh. apply reachable_run, reachable_construct.
    + apply A; vm_compute; reflexivity.
  - vm_compute. reflexivity.
  - destruct (record_banner_only_unsaved firstRun) as (_ & B).
    + unfold firstRun. apply reachable_run, reachable_construct.
    + destruct B as (b & rest & A & C); [vm_compute; discriminate|].
      exists rest. rewrite A, C by (vm_compute; reflexivity).
      vm_compute. reflexivity.
Defined.

(** ** Score *)

Lemma tickStable_set_canvas s t v :
  tickStable s t -> tickStable s (set_canvas v t).
Proof. revert s t. by_fields. Qed.
Lemma tickStable_set_jumpHeld s t v :
  tickStable s t -> tickStable s (set_jumpHeld v t).
Proof. revert s t. by_fields. Qed.
Lemma tickStable_set_jumpHeldTime s t v :
  tickStable s t -> tickStable s (set_jumpHeldTime v t).
Proof. revert s t. by_fields. Qed.
Lemma tickStable_set_audioContext s t v :
  tickStable s t -> tickStable s (set_audioContext v t).
Proof. revert s t. by_fields. Qed.
Lemma tickStable_set_audioContextReady s t v :
  tickStable s t -> tickStable s (set_audioContextReady v t).
Proof. revert s t. by_fields. Qed.
#[export] Hint Resolve tickStable_set_canvas tickStable_set_jumpHeld
  tickStable_set_jumpHeldTime tickStable_set_audioContext
  tickStable_set_audioContextReady : tick.

Lemma tickStable_playJumpSound s t :
  tickStable s t -> tickStable s (playJumpSound t).
Proof. unfold playJumpSound. tick_auto. Qed.
Lemma tickStable_startBackgroundMusic s t :
  tickStable s t -> tickStable s (startBackgroundMusic t).
Proof. unfold startBackgroundMusic. tick_auto. Qed.
Lemma tickStable_audioResumed s t :
  tickStable s t -> tickStable s (audioResumed t).
Proof. unfold audioResumed, startBackgroundMusic. tick_auto. Qed.
Lemma tickStable_handleJumpEnd s t :
  tickStable s t -> tickStable s (handleJumpEnd t).
Proof. unfold handleJumpEnd. tick_auto. Qed.
Lemma tickStable_resizeCanvas s t :
  tickStable s t -> tickStable s (resizeCanvas t).
Proof.
  unfold resizeCanvas, measure. intros H. cbv zeta.
  destruct (_ || _); tick_auto.
Qed.
#[export] Hint Resolve tickStable_playJumpSound
  tickStable_startBackgroundMusic tickStable_audioResumed
  tickStable_handleJumpEnd tickStable_resizeCanvas : tick.

Lemma scoreTracks_tickStable s t :
  scoreTracks s -> tickStable s t -> scoreTracks t.
Proof.
  intros T (A & B & C). unfold scoreTracks. now rewrite A, B, C.
Qed.

Lemma scoreTracks_zero s :
  cameraX s = 0 -> score s = 0%Z -> distance s = 0%Z -> scoreTracks s.
Proof.
  intros C S D. unfold scoreTracks. rewrite C, S, D.
  split; [reflexivity|]. split; [reflexivity|].
  exists 0%nat. reflexivity.
Qed.

Lemma scoreTracks_startGame s : scoreTracks s -> scoreTracks (startGame s).
Proof.
  intros T. destruct (GameState_eqb (gameState s) Playing) eqn:E.
  { unfold startGame. now rewrite E. }
  assert (N : gameState s <> Playing).
  { intros H. apply GameState_eqb_eq in H. congruence. }
  destruct (startGame_fields s N) as (_ & A & B & C & _).
  now apply scoreTracks_zero.
Qed.

Lemma scoreTracks_restart s : scoreTracks s -> scoreTracks (restart s).
Proof.
  intros T. destruct (restart_startGame s) as [es ->].
  apply (scoreTracks_tickStable (startGame s));
    [now apply scoreTracks_startGame|].
  apply tickStable_set_effects, tickStable_refl.
Qed.

Lemma scoreTracks_advanceCamera s :
  scoreTracks s -> scoreTracks (advanceCamera s).
Proof.
  intros (_ & _ & (k & K)). unfold scoreTracks, advanceCamera.
  destruct s; cbn in *.
  split; [reflexivity|]. split; [reflexivity|].
  exists (S k). rewrite K, Qnat_S. unfold scrollSpeed. lra.
Qed.

Lemma scoreTracks_update s : scoreTracks s -> scoreTracks (update s).
Proof.
  intros T. destruct (GameState_eqb (gameState s) Playing) eqn:E.
  - apply GameState_eqb_eq in E.
    apply (scoreTracks_tickStable (advanceCamera s));
      [now apply scoreTracks_advanceCamera|].
    now apply tickStable_after_advance.
  - rewrite update_not_playing; [exact T|].
    intros H. apply GameState_eqb_eq in H. congruence.
Qed.

Lemma scoreTracks_handleJumpStart s :
  scoreTracks s -> scoreTracks (handleJumpStart s).
Proof.
  intros T. destruct (handleJumpStart_prelude s) as [es E]. rewrite E.
  cbv zeta.
  assert (T' : scoreTracks (set_effects es s)).
  { apply (scoreTracks_tickStable s); [exact T|].
    apply tickStable_set_effects, tickStable_refl. }
  revert T'. generalize (set_effects es s). clear. intros u T.
  destruct (gameState u).
  - now apply scoreTracks_startGame.
  - apply (scoreTracks_tickStable u); [exact T|]. tick_auto.
  - now apply scoreTracks_restart.
  - exact T.
Qed.

Lemma scoreTracks_handle i s : scoreTracks s -> scoreTracks (handle i s).
Proof.
  intros T. destruct i; cbn [handle].
  - destruct hidden; [exact T|now apply scoreTracks_update].
  - now apply scoreTracks_handleJumpStart.
  - apply (scoreTracks_tickStable s); [exact T|]. auto with tick.
  - destruct (gameState s);
      (now apply scoreTracks_startGame)
      || (now apply scoreTracks_handleJumpStart).
  - now apply scoreTracks_startGame.
  - now apply scoreTracks_restart.
  - apply (scoreTracks_tickStable s); [exact T|]. auto with tick.
  - apply (scoreTracks_tickStable s); [exact T|]. auto with tick.
Qed.

Lemma scoreTracks_construct c st audio rnd hidden :
  scoreTracks (construct c st audio rnd hidden).
Proof.
  destruct (construct_motion c st audio rnd hidden)
    as (es & _ & C & S & D & _).
  apply scoreTracks_zero; [rewrite C|rewrite S|rewrite D]; reflexivity.
Qed.

(** X26.  In every reachable state the score and the distance are the
    same number, the tenth of the camera position rounded down, and the
    camera is at a whole number of scroll steps of 5.  The displayed
    distance is therefore never ahead of or behind the score. *)
Theorem score_tracks_camera (s : Game) :
  reachable s ->
  score s = distance s /\
  score s = Math_floor (cameraX s / 10) /\
  (exists k : nat, cameraX s == Qnat k * 5) /\
  (0 <= score s)%Z.
Proof.
  intros R.
  assert (T : scoreTracks s).
  { induction R; [apply scoreTracks_construct|now apply scoreTracks_handle]. }
  destruct T as (A & B & (k & K)).
  split; [exact A|]. split; [exact B|]. split; [now exists k|].
  rewrite B. unfold Math_floor.
  change 0%Z with (Qfloor 0). apply Qfloor_resp_le.
  rewrite K.
  assert (0 <= Qnat k) by (change 0 with (Qnat 0); apply Qnat_le; lia).
  unfold Qdiv. change (/ 10) with (1 # 10). lra.
Qed.

Lemma score_tracks_camera_witness :
  score midRun = distance midRun /\ (0 <= score midRun)%Z.
Proof.
  destruct (score_tracks_camera midRun) as (A & _ & _ & B).
  - unfold midRun. apply reachable_iterate. unfold running.
    apply (reachable_handle StartButton). apply reachable_construct.
  - split; assumption.
Defined.

(** ** Rotation (game.js, [update], lines 505-516) *)

Lemma spin_same_player s t : player t = player s -> spin s -> spin t.
Proof. unfold spin. now intros ->. Qed.

Lemma spin_sameMotion s t : sameMotion s t -> spin s -> spin t.
Proof. intros (A & _). now apply spin_same_player. Qed.

Lemma wrap360_range r d :
  0 <= r < 360 -> 0 <= d <= 360 -> 0 <= wrap360 (r + d) < 360.
Proof.
  intros R D. unfold wrap360.
  destruct (Qgeb (r + d) 360) eqn:E.
  - apply Qgeb_le in E. lra.
  - apply Qgeb_false in E. lra.
Qed.

Lemma spin_rotate s : spin s -> spin (rotate s).
Proof.
  intros (R & V). unfold spin, rotate. cbv zeta.
  destruct (Player.isJumping (player s)).
  - assert (W : 0 <= wrap360 (Player.rotation (player s)
                             + Player.rotationSpeed (player s)) < 360).
    { apply wrap360_range; [exact R|]. destruct V as [-> | ->]; lra. }
    destruct s as [? ? ? []]; cbn in *. split; assumption.
  - assert (W : 0 <= wrap360 (Player.rotation (player s) + 5) < 360).
    { apply wrap360_range; [exact R|lra]. }
    destruct s as [? ? ? []]; cbn in *. split; assumption.
Qed.

Lemma spin_integrate s : spin s -> spin (integrate s).
Proof. unfold spin, integrate. now destruct s as [? ? ? []]. Qed.

Lemma spin_land s y : spin s -> spin (set_player (land y (player s)) s).
Proof.
  intros (R & _). unfold spin, land.
  destruct s as [? ? ? []]; cbn in *. split; [exact R|now left].
Qed.

Lemma spin_groundCollision s : spin s -> spin (groundCollision s).
Proof.
  intros H. unfold groundCollision. cbv zeta.
  destruct (Qgeb _ _); [now apply spin_land|exact H].
Qed.

Lemma spin_platformCollisions s : spin s -> spin (platformCollisions s).
Proof.
  unfold platformCollisions. generalize (Level.platforms (level s)).
  intros l. revert s. induction l as [|a l IH]; intros s H; [exact H|].
  cbn [fold_left]. apply IH. unfold platformCollision. cbv zeta.
  destruct (_ && _); [|exact H].
  destruct (Qle_bool _ _); [now apply spin_land|exact H].
Qed.

Lemma spin_ceilingCollision s : spin s -> spin (ceilingCollision s).
Proof.
  intros H. unfold ceilingCollision. cbv zeta.
  destruct (Qltb _ _); [|exact H].
  revert H. unfold spin. now destruct s as [? ? ? []].
Qed.

Lemma spin_movePlayer s : spin s -> spin (movePlayer s).
Proof.
  intros H. unfold movePlayer.
  now apply spin_ceilingCollision, spin_platformCollisions,
    spin_groundCollision, spin_rotate, spin_integrate.
Qed.

Lemma player_die t : player (die t) = player t.
Proof.
  destruct (GameState_eqb (gameState t) Dead) eqn:E.
  - unfold die. now rewrite E.
  - destruct (die_motion t) as (A & _).
    + intros H. apply GameState_eqb_eq in H. congruence.
    + rewrite A. now destruct t.
Qed.

Lemma player_win t : player (win t) = player t.
Proof. destruct (win_motion t) as (A & _). rewrite A. now destruct t. Qed.

Lemma spin_update s : spin s -> spin (update s).
Proof.
  intros H. unfold update. destruct (negb _); [exact H|]. cbv zeta.
  assert (M : spin (movePlayer (advanceCamera s))).
  { apply spin_movePlayer. revert H. unfold spin, advanceCamera.
    now destruct s. }
  revert M. generalize (movePlayer (advanceCamera s)). intros t M.
  branches;
    try (now apply (spin_same_player t); [apply player_die|]);
    try (now apply (spin_same_player t); [apply player_win|]).
  apply (spin_sameMotion t); [auto with motion|exact M].
Qed.

Lemma spin_startGame s : spin s -> spin (startGame s).
Proof.
  intros H. destruct (GameState_eqb (gameState s) Playing) eqn:E.
  { unfold startGame. now rewrite E. }
  assert (N : gameState s <> Playing).
  { intros G. apply GameState_eqb_eq in G. congruence. }
  destruct (startGame_fields s N) as (_ & _ & _ & _ & _ & P & _).
  destruct H as (_ & V). unfold spin. rewrite P.
  destruct (player s); cbn in *. split; [lra|exact V].
Qed.

Lemma spin_restart s : spin s -> spin (restart s).
Proof.
  intros H. destruct (restart_startGame s) as [es ->].
  apply (spin_same_player (startGame s));
    [now destruct (startGame s)|now apply spin_startGame].
Qed.

Lemma spin_handleJumpStart s : spin s -> spin (handleJumpStart s).
Proof.
  intros H. destruct (handleJumpStart_prelude s) as [es E]. rewrite E.
  cbv zeta.
  assert (H' : spin (set_effects es s))
    by (apply (spin_same_player s); [now destruct s|exact H]).
  revert H'. generalize (set_effects es s). clear. intros u H.
  destruct (gameState u).
  - now apply spin_startGame.
  - destruct (_ && _).
    + destruct H as (R & _). unfold spin, playJumpSound, emit.
      destruct (negb _); destruct u as [? ? ? []]; cbn in *;
        (split; [exact R|now right]).
    + destruct (_ && _); [|exact H]. cbv zeta.
      destruct (Qltb _ _); revert H; unfold spin;
        now destruct u as [? ? ? []].
  - now apply spin_restart.
  - exact H.
Qed.

Lemma spin_resizeCanvas s : spin s -> spin (resizeCanvas s).
Proof.
  intros H. unfold resizeCanvas, measure. cbv zeta.
  destruct (_ || _); cbv zeta; unfold emit;
    destruct (gameState _); revert H; unfold spin;
    now destruct s as [? ? ? []].
Qed.

Lemma spin_handle i s : spin s -> spin (handle i s).
Proof.
  intros H. destruct i; cbn [handle].
  - destruct hidden; [exact H|now apply spin_update].
  - now apply spin_handleJumpStart.
  - apply (spin_sameMotion s); [auto with motion|exact H].
  - destruct (gameState s);
      (now apply spin_startGame) || (now apply spin_handleJumpStart).
  - now apply spin_startGame.
  - now apply spin_restart.
  - apply spin_resizeCanvas. revert H. unfold spin. now destruct s.
  - apply (spin_sameMotion s); [auto with motion|exact H].
Qed.

Lemma spin_construct c st audio rnd hidden :
  spin (construct c st audio rnd hidden).
Proof.
  destruct (construct_motion c st audio rnd hidden) as (es & P & _).
  unfold spin. rewrite P. cbn. split; [lra|now left].
Qed.

(** X27.  In every reachable state the square's angle is within one turn,
    [0 <= rotation < 360], and its spin rate is 0 or 15: each tick adds 5
    or the spin rate and takes one turn off when the sum reaches 360. *)
Theorem rotation_within_a_turn (s : Game) :
  reachable s ->
  0 <= Player.rotation (player s) < 360 /\
  (Player.rotationSpeed (player s) = 0 \/
   Player.rotationSpeed (player s) = 15).
Proof.
  intros R. change (spin s).
  induction R; [apply spin_construct|now apply spin_handle].
Qed.

Lemma rotation_within_a_turn_witness :
  0 <= Player.rotation
         (player (iterate 100 (handle (Frame false)) running)) < 360.
Proof.
  apply (rotation_within_a_turn
           (iterate 100 (handle (Frame false)) running)).
  apply reachable_iterate. unfold running.
  apply (reachable_handle StartButton). apply reachable_construct.
Defined.
